(** * Translation platform: orchestration core, quality scorer and document
      pipeline.

    Shallow embedding of
      - backend/app/utils/text_analyzer.py
      - backend/app/utils/language_detector.py
      - backend/app/services/translation_service.py
      - backend/app/services/file_service.py

    Conventions.
      - A Python [str] is a list of Unicode code points ([N]); [len] is the
        length of that list.
      - A Python [float] is an exact rational ([Q]): rounding is not
        modelled.  The clamps [min]/[max] and the literal constants, on
        which the bounds of the scorer rest, are the same in both.
      - A Python [dict] is an insertion-ordered association list with unique
        keys ([Dict.set] replaces in place or appends).
      - Code that can raise returns [Exc A = exn + A]. *)

From Stdlib Require Import List Bool Arith ZArith NArith QArith Qround Lia Lqa.
From Stdlib Require Import Permutation Sorted String Ascii DecimalString.
Import ListNotations.

Set Implicit Arguments.

(* ================================================================== *)
(** ** Python strings *)

Module PyStr.

Definition char := N.
Definition str := list char.

(** An ASCII literal as a Python string. *)
Definition lit (s : string) : str :=
  List.map N_of_ascii (list_ascii_of_string s).

Definition len (s : str) : Z := Z.of_nat (List.length s).

Definition char_eqb : char -> char -> bool := N.eqb.

Fixpoint eqb (a b : str) : bool :=
  match a, b with
  | [], [] => true
  | x :: a', y :: b' => N.eqb x y && eqb a' b'
  | _, _ => false
  end.

Definition str_eq_dec : forall a b : str, {a = b} + {a <> b} :=
  list_eq_dec N.eq_dec.

(** [Py_UNICODE_ISSPACE]: the characters removed by [str.strip()], split on
    by [str.split()] and matched by [\s] in a [str] pattern. *)
Definition is_space (c : char) : bool :=
  ((9 <=? c) && (c <=? 13) || (28 <=? c) && (c <=? 32)
   || (c =? 133) || (c =? 160) || (c =? 5760)
   || (8192 <=? c) && (c <=? 8202)
   || (c =? 8232) || (c =? 8233) || (c =? 8239) || (c =? 8287)
   || (c =? 12288))%N.

Fixpoint lstrip (s : str) : str :=
  match s with
  | [] => []
  | c :: s' => if is_space c then lstrip s' else s
  end.

Fixpoint rstrip (s : str) : str :=
  match s with
  | [] => []
  | c :: s' =>
      match rstrip s' with
      | [] => if is_space c then [] else [c]
      | r => c :: r
      end
  end.

(** [s.strip()] *)
Definition strip (s : str) : str := rstrip (lstrip s).

(** [not s.strip()] *)
Definition is_blank (s : str) : bool := forallb is_space s.

(** [not s] *)
Definition is_empty (s : str) : bool :=
  match s with [] => true | _ => false end.

(** [sep.join(parts)] *)
Fixpoint join (sep : str) (parts : list str) : str :=
  match parts with
  | [] => []
  | [p] => p
  | p :: ps => p ++ sep ++ join sep ps
  end.

(** Code point order, the order of [<] on Python strings. *)
Fixpoint compare (a b : str) : comparison :=
  match a, b with
  | [], [] => Eq
  | [], _ :: _ => Lt
  | _ :: _, [] => Gt
  | x :: a', y :: b' =>
      match N.compare x y with
      | Eq => compare a' b'
      | c => c
      end
  end.

Definition leb (a b : str) : bool :=
  match compare a b with Gt => false | _ => true end.

End PyStr.

Import PyStr.

(* ================================================================== *)
(** ** Exceptions *)

Inductive exn : Type :=
| ValueError (msg : str)
| Exception (msg : str).

(** [str(e)] *)
Definition exn_str (e : exn) : str :=
  match e with ValueError m => m | Exception m => m end.

Definition Exc (A : Type) : Type := (exn + A)%type.

Definition is_ValueError (A : Type) (r : Exc A) : bool :=
  match r with inl (ValueError _) => true | _ => false end.

(* ================================================================== *)
(** ** Insertion-ordered dictionaries *)

Module Dict.

Section WithValue.
Variable V : Type.

Definition t := list (str * V).

Fixpoint get (d : t) (k : str) : option V :=
  match d with
  | [] => None
  | (k', v) :: d' => if PyStr.eqb k' k then Some v else get d' k
  end.

Definition mem (d : t) (k : str) : bool :=
  match get d k with Some _ => true | None => false end.

(** [d[k] = v]: an existing key keeps its position. *)
Fixpoint set (d : t) (k : str) (v : V) : t :=
  match d with
  | [] => [(k, v)]
  | (k', v') :: d' =>
      if PyStr.eqb k' k then (k', v) :: d' else (k', v') :: set d' k v
  end.

Definition keys (d : t) : list str := List.map fst d.
Definition values (d : t) : list V := List.map snd d.

End WithValue.

End Dict.

(* ================================================================== *)
(** ** The error monad of code that may raise *)

Module ExcMonad.

Definition ret (A : Type) (a : A) : Exc A := inr a.

Definition bind (A B : Type) (c : Exc A) (k : A -> Exc B) : Exc B :=
  match c with
  | inl e => inl e
  | inr a => k a
  end.

(** [acc = init; for x in xs: acc = body(acc, x)], where [body] may raise. *)
Fixpoint foldM (A B : Type) (body : B -> A -> Exc B) (xs : list A) (init : B)
  : Exc B :=
  match xs with
  | [] => inr init
  | x :: xs' => bind (body init x) (foldM body xs')
  end.

End ExcMonad.

Notation "x <- c ;; k" := (ExcMonad.bind c (fun x => k))
  (at level 61, c at next level, right associativity).

(* ================================================================== *)
(** ** utils/text_analyzer.py *)

Module TextAnalyzer.

Local Open Scope Q_scope.

(** [a < b] on floats. *)
Definition Qlt_bool (a b : Q) : bool := negb (Qle_bool b a).

(** [max(a, b)] and [min(a, b)]: the first argument wins a tie. *)
Definition py_max (a b : Q) : Q := if Qlt_bool a b then b else a.
Definition py_min (a b : Q) : Q := if Qlt_bool b a then b else a.

Definition Qlen (s : str) : Q := inject_Z (len s).
Definition Qnat (n : nat) : Q := inject_Z (Z.of_nat n).

(** [s.endswith(suffix)] *)
Fixpoint startswith (s prefix : str) : bool :=
  match prefix, s with
  | [], _ => true
  | p :: prefix', c :: s' => N.eqb c p && startswith s' prefix'
  | _ :: _, [] => false
  end.

Definition endswith (s suffix : str) : bool :=
  startswith (rev s) (rev suffix).

(** [s.split()]: the maximal runs of non-whitespace characters. *)
Fixpoint split_go (acc : str) (s : str) : list str :=
  match s with
  | [] => if is_empty acc then [] else [rev acc]
  | c :: s' =>
      if is_space c
      then (if is_empty acc then split_go [] s' else rev acc :: split_go [] s')
      else split_go (c :: acc) s'
  end.

Definition split (s : str) : list str := split_go [] s.

(** [s.count(c)] for a one-character [c]. *)
Definition count_char (c : char) (s : str) : nat :=
  List.length (filter (N.eqb c) s).

(** [set(xs)] as a duplicate-free list, and [a.intersection(b)]. *)
Definition set_of (xs : list str) : list str := nodup str_eq_dec xs.

Definition intersection (a b : list str) : list str :=
  filter (fun x => existsb (PyStr.eqb x) b) a.

(** The table [expected_ratios] of [_analyze_length_ratio]. *)
Definition expected_ratios : list ((str * str) * (Q * Q)) :=
  [ ((lit "en", lit "zh"), (0.4, 0.8));
    ((lit "zh", lit "en"), (1.2, 2.5));
    ((lit "ja", lit "zh"), (0.6, 1.2));
    ((lit "ko", lit "zh"), (0.6, 1.2));
    ((lit "fr", lit "en"), (0.8, 1.3));
    ((lit "de", lit "en"), (0.7, 1.2)) ].

(** A range of ratios a table entry may hold. *)
Definition plausible (range : Q * Q) : Prop :=
  0 < fst range /\ fst range <= snd range.

(** [table.get((source_lang, target_lang), default)] *)
Fixpoint ratios_get (table : list ((str * str) * (Q * Q)))
  (source_lang target_lang : str) (default : Q * Q) : Q * Q :=
  match table with
  | [] => default
  | ((s, t), r) :: table' =>
      if PyStr.eqb s source_lang && PyStr.eqb t target_lang then r
      else ratios_get table' source_lang target_lang default
  end.

Definition _analyze_length_ratio
  (source_text translated_text source_lang target_lang : str) : Q :=
  if is_empty source_text || is_empty translated_text then 0
  else
    let source_len := len source_text in
    let translated_len := len translated_text in
    if (source_len =? 0)%Z then 0
    else
      let ratio := inject_Z translated_len / inject_Z source_len in
      let '(min_ratio, max_ratio) :=
        ratios_get expected_ratios source_lang target_lang (0.5, 2.0) in
      if Qle_bool min_ratio ratio && Qle_bool ratio max_ratio then 100
      else if Qlt_bool ratio min_ratio
           then py_max 0 (100 * (ratio / min_ratio))
           else py_max 0 (100 * (max_ratio / ratio)).

Section Analyzer.

(** Library code the analyzer calls.  [str.lower] follows the Unicode
    database.  The [re] functions are taken with the pattern as a Python
    string; like any call inside the [try] blocks below they may raise. *)
Variable lower : str -> str.
Variable re_split : str -> str -> Exc (list str).
Variable re_findall : str -> str -> Exc (list str).
Variable re_search : str -> str -> Exc bool.

Definition ellipsis3 : str := lit "...".
Definition ellipsis1 : str := [8230%N].

Definition _analyze_completeness (source_text translated_text : str) : Q :=
  if is_empty source_text || is_empty translated_text then 0
  else
    let score := 100 in
    let score :=
      if endswith translated_text ellipsis3 || endswith translated_text ellipsis1
      then score - 30 else score in
    let score :=
      if (len source_text >? 20)%Z then
        let source_words := set_of (split (lower source_text)) in
        let translated_words := set_of (split (lower translated_text)) in
        let overlap := List.length (intersection source_words translated_words) in
        if Qlt_bool (Qnat (List.length source_words) * 0.7) (Qnat overlap)
        then score - 40 else score
      else score in
    let score :=
      if Qlt_bool (Qlen (strip translated_text)) (Qlen (strip source_text) * 0.1)
      then score - 50 else score in
    py_max 0 score.

(** The character class of sentence ends, [.!?] and their fullwidth forms. *)
Definition sentence_end_chars : str := lit ".!?" ++ [12290; 65281; 65311]%N.

Definition pat_sentence_end : str := lit "[" ++ sentence_end_chars ++ lit "]".
Definition pat_punct : str :=
  lit "[" ++ sentence_end_chars ++ [44; 65292; 59; 65307; 58; 65306]%N ++ lit "]".

Definition error_patterns : list str :=
  [ lit "\s+" ++ pat_sentence_end;
    pat_sentence_end ++ lit "{3,}";
    lit "\b\w\b\s+\b\w\b\s+\b\w\b" ].

(** The body of the [try] block of [_analyze_fluency]. *)
Definition fluency_body (text : str) : Exc Q :=
  let score := 100 in
  let words := split text in
  let score :=
    if (1 <? List.length words)%nat then
      let unique_words := set_of words in
      let repetition_ratio :=
        Qnat (List.length words) / Qnat (List.length unique_words) in
      if Qlt_bool 2.0 repetition_ratio then score - 20 else score
    else score in
  sentences <- re_split pat_sentence_end text ;;
  let score :=
    match sentences with
    | [] => score
    | _ =>
        let avg_sentence_length :=
          Qnat (list_sum (List.map (fun s => List.length (split s)) sentences))
          / Qnat (List.length sentences) in
        if Qlt_bool avg_sentence_length 3 then score - 15
        else if Qlt_bool 50 avg_sentence_length then score - 10
        else score
    end in
  puncts <- re_findall pat_punct text ;;
  let punct_count := List.length puncts in
  let word_count := List.length (split text) in
  let score :=
    if (0 <? word_count)%nat then
      let punct_ratio := Qnat punct_count / Qnat word_count in
      if Qlt_bool 0.3 punct_ratio then score - 10
      else if Qlt_bool punct_ratio 0.05 && (10 <? word_count)%nat
           then score - 15
           else score
    else score in
  score <- ExcMonad.foldM
             (fun score pattern =>
                found <- re_search pattern text ;;
                inr (if found : bool then score - 5 else score))
             error_patterns score ;;
  inr (py_max 0 score).

Definition _analyze_fluency (text language : str) : Q :=
  if is_empty text then 0
  else match fluency_body text with
       | inr score => score
       | inl _ => 75
       end.

Definition newline : char := 10%N.

Definition format_markers : list str :=
  [ lit "\*\*.*?\*\*"; lit "\*.*?\*"; lit "`.*?`"; lit "\[.*?\]"; lit "\(.*?\)" ].

Definition _analyze_format_preservation (source_text translated_text : str)
  : Exc Q :=
  if is_empty source_text || is_empty translated_text then inr 0
  else
    let score := 100 in
    let source_lines := count_char newline source_text in
    let translated_lines := count_char newline translated_text in
    let score :=
      if (0 <? source_lines)%nat then
        let line_diff :=
          inject_Z (Z.abs (Z.of_nat source_lines - Z.of_nat translated_lines))
          / Qnat source_lines in
        if Qlt_bool 0.5 line_diff then score - 20 else score
      else score in
    score <- ExcMonad.foldM
               (fun score marker =>
                  source_found <- re_findall marker source_text ;;
                  translated_found <- re_findall marker translated_text ;;
                  let source_matches := List.length source_found in
                  let translated_matches := List.length translated_found in
                  inr (if (0 <? source_matches)%nat then
                         let preservation_ratio :=
                           Qnat translated_matches / Qnat source_matches in
                         if Qlt_bool preservation_ratio 0.8
                         then score - 10 else score
                       else score))
               format_markers score ;;
    inr (py_max 0 score).

Definition pat_number : str := lit "\d+(?:\.\d+)?".
Definition pat_url : str := lit "https?://[^\s]+".
Definition pat_email : str :=
  lit "\b[A-Za-z0-9._%+-]+@[A-Za-z0-9.-]+\.[A-Z|a-z]{2,}\b".

(** One of the three checks of [_analyze_special_characters]. *)
Definition preserved_check (pattern : str) (threshold penalty : Q)
  (source_text translated_text : str) (score : Q) : Exc Q :=
  source_found <- re_findall pattern source_text ;;
  translated_found <- re_findall pattern translated_text ;;
  inr (match source_found with
       | [] => score
       | _ =>
           let preservation :=
             Qnat (List.length (intersection (set_of source_found)
                                             (set_of translated_found)))
             / Qnat (List.length (set_of source_found)) in
           if Qlt_bool preservation threshold then score - penalty else score
       end).

Definition _analyze_special_characters (source_text translated_text : str)
  : Exc Q :=
  if is_empty source_text || is_empty translated_text then inr 0
  else
    let score := 100 in
    score <- preserved_check pat_number 0.8 20 source_text translated_text score ;;
    score <- preserved_check pat_url 0.9 15 source_text translated_text score ;;
    score <- preserved_check pat_email 0.9 15 source_text translated_text score ;;
    inr (py_max 0 score).

(** The body of the [try] block of [analyze_text_quality]. *)
Definition quality_body
  (source_text translated_text source_lang target_lang : str) : Exc Q :=
  let score := 0 in
  let length_score :=
    _analyze_length_ratio source_text translated_text source_lang target_lang in
  let score := score + length_score * 0.2 in
  let completeness_score := _analyze_completeness source_text translated_text in
  let score := score + completeness_score * 0.25 in
  let fluency_score := _analyze_fluency translated_text target_lang in
  let score := score + fluency_score * 0.25 in
  format_score <- _analyze_format_preservation source_text translated_text ;;
  let score := score + format_score * 0.15 in
  special_char_score <- _analyze_special_characters source_text translated_text ;;
  let score := score + special_char_score * 0.15 in
  inr (py_min 100 (py_max 0 score)).

Definition analyze_text_quality
  (source_text translated_text source_lang target_lang : str) : Q :=
  match quality_body source_text translated_text source_lang target_lang with
  | inr score => score
  | inl _ => 75
  end.

End Analyzer.

(** *** Sample library functions *)

(** A [re.findall] that raises, and versions that find nothing. *)
Definition raising_findall : str -> str -> Exc (list str) :=
  fun _ _ => inl (Exception (lit "re.error")).
Definition empty_findall : str -> str -> Exc (list str) := fun _ _ => inr [].
Definition empty_split : str -> str -> Exc (list str) := fun _ text => inr [text].
Definition failing_search : str -> str -> Exc bool := fun _ _ => inr false.
Definition ascii_lower : str -> str :=
  List.map (fun c => if ((65 <=? c) && (c <=? 90))%N then (c + 32)%N else c).

End TextAnalyzer.

(* ================================================================== *)
(** ** utils/language_detector.py *)

Module LanguageDetector.

(** [LANGUAGE_MAPPING]: regional variants of Chinese collapse to [zh]; every
    other entry maps a code to itself. *)
Definition LANGUAGE_MAPPING : Dict.t str :=
  (lit "zh-cn", lit "zh") :: (lit "zh-tw", lit "zh")
  :: List.map (fun c => (lit c, lit c))
       [ "en"; "ja"; "ko"; "fr"; "de"; "es"; "it"; "pt"; "ru"; "ar"; "th";
         "vi"; "id"; "ms"; "hi"; "tr"; "pl"; "nl"; "sv"; "da"; "no"; "fi";
         "cs"; "hu"; "ro"; "bg"; "hr"; "sk"; "sl"; "et"; "lv"; "lt"; "uk";
         "be"; "mk"; "sq"; "sr"; "bs"; "mt"; "is"; "ga"; "cy"; "eu"; "ca";
         "gl"; "he"; "fa"; "ur"; "bn"; "ta"; "te"; "ml"; "kn"; "gu"; "pa";
         "ne"; "si"; "my"; "km"; "lo"; "ka"; "am"; "sw"; "zu"; "af";
         "xh" ]%string.

Section Detector.

(** [langdetect.detect], which raises on text it cannot classify. *)
Variable langdetect : str -> Exc str.

Definition detect_language (text : str) : str :=
  if is_empty text || is_blank text then lit "en"
  else match langdetect (strip text) with
       | inr detected_lang =>
           match Dict.get LANGUAGE_MAPPING detected_lang with
           | Some mapped_lang => mapped_lang
           | None => detected_lang
           end
       | inl _ => lit "en"
       end.

End Detector.

End LanguageDetector.

(* ================================================================== *)
(** ** services/translation_service.py *)

Module TranslationService.

(** Values of keyword options ([model], [style], ...). *)
Inductive value : Type :=
| VNone
| VBool (b : bool)
| VInt (z : Z)
| VStr (s : str).

Definition kwargs := Dict.t value.

(** The result dictionary every engine builds.  [quality_score] is read
    with [result.get("quality_score", 0)], so it may be missing. *)
Record TranslationResult : Type := {
  engine : str;
  model : str;
  translated_text : str;
  source_language : str;
  target_language : str;
  quality_score : option Q;
  confidence_score : Q;
  processing_time : Q;
  word_count : Z;
  character_count : Z;
  metadata : kwargs
}.

(** An engine: its [name] and its [translate] coroutine, which returns a
    result or raises. *)
Record TranslationEngine : Type := {
  name : str;
  engine_translate : str -> str -> str -> kwargs -> Exc TranslationResult
}.

(** *** Cache keys *)

Section CacheKey.

(** [json.dumps] of a key and of an option value, and
    [hashlib.md5(content.encode()).hexdigest()]. *)
Variable dumps_key : str -> str.
Variable dumps_value : value -> str.
Variable md5_hexdigest : str -> str.

(** [sorted(items)] of a dictionary: insertion sort on the keys. *)
Fixpoint insert_item (kv : str * value) (sorted : list (str * value))
  : list (str * value) :=
  match sorted with
  | [] => [kv]
  | kv' :: rest =>
      if PyStr.leb (fst kv) (fst kv') then kv :: sorted
      else kv' :: insert_item kv rest
  end.

Fixpoint sort_items (items : list (str * value)) : list (str * value) :=
  match items with
  | [] => []
  | kv :: rest => insert_item kv (sort_items rest)
  end.

(** [json.dumps(kwargs, sort_keys=True)] *)
Definition json_dumps_sorted (kw : kwargs) : str :=
  lit "{"
  ++ join (lit ", ")
       (List.map (fun kv => dumps_key (fst kv) ++ lit ": " ++ dumps_value (snd kv))
          (sort_items kw))
  ++ lit "}".

(** The key, for a content that can be encoded.  [content.encode()]
    raises on a lone surrogate; [Adapters.get_cache_key] adds that for the
    calls the engines make. *)
Definition _get_cache_key (self : TranslationEngine)
  (text source_lang target_lang : str) (kw : kwargs) : str :=
  let content :=
    text ++ lit ":" ++ source_lang ++ lit ":" ++ target_lang ++ lit ":"
    ++ name self ++ lit ":" ++ json_dumps_sorted kw in
  lit "translation:" ++ md5_hexdigest content.

End CacheKey.

(** *** The service *)

(** One call of an engine's [translate]. *)
Record Call : Type := {
  call_engine : str;
  call_text : str;
  call_source_lang : str;
  call_target_lang : str;
  call_kwargs : kwargs
}.

(** Computations of the service: they append to the log of engine calls
    and return or raise. *)
Definition M (A : Type) : Type := list Call -> Exc A * list Call.

Definition ret (A : Type) (a : A) : M A := fun log => (inr a, log).
Definition raise (A : Type) (e : exn) : M A := fun log => (inl e, log).
Arguments raise {A} e.

Definition bind (A B : Type) (c : M A) (k : A -> M B) : M B :=
  fun log =>
    match c log with
    | (inl e, log') => (inl e, log')
    | (inr a, log') => k a log'
    end.

(** [try: c  except Exception as e: h(e)] *)
Definition try_except (A : Type) (c : M A) (h : exn -> M A) : M A :=
  fun log =>
    match c log with
    | (inl e, log') => h e log'
    | (inr a, log') => (inr a, log')
    end.

(** [await eng.translate(text, source_lang, target_lang, **kw)] *)
Definition await_translate (eng : TranslationEngine)
  (text source_lang target_lang : str) (kw : kwargs) : M TranslationResult :=
  fun log =>
    (engine_translate eng text source_lang target_lang kw,
     log ++ [ {| call_engine := name eng; call_text := text;
                 call_source_lang := source_lang;
                 call_target_lang := target_lang; call_kwargs := kw |} ]).

(** [str(n)] for an integer. *)
Definition str_of_Z (z : Z) : str :=
  lit (DecimalString.NilZero.string_of_int (Z.to_int z)).

Definition msg_empty_text : str :=
  [32763; 35793; 25991; 26412; 19981; 33021; 20026; 31354]%N.

Definition msg_too_long (limit : Z) : str :=
  [25991; 26412; 38271; 24230; 36229; 36807; 38480; 21046; 40]%N
  ++ str_of_Z limit ++ [23383; 31526; 41]%N.

Definition msg_no_engine : str :=
  [27809; 26377; 21487; 29992; 30340; 32763; 35793; 24341; 25806]%N.

(** The fields of [settings] the service reads. *)
Record Settings : Type := {
  OPENAI_API_KEY : option str;
  ANTHROPIC_API_KEY : option str;
  GOOGLE_API_KEY : option str;
  BAIDU_APP_ID : option str;
  BAIDU_SECRET_KEY : option str;
  MAX_TRANSLATION_LENGTH : Z
}.

(** The defaults of [core/config.py]. *)
Definition default_settings : Settings := {|
  OPENAI_API_KEY := None;
  ANTHROPIC_API_KEY := None;
  GOOGLE_API_KEY := None;
  BAIDU_APP_ID := None;
  BAIDU_SECRET_KEY := None;
  MAX_TRANSLATION_LENGTH := 10000
|}.

(** Truthiness of an optional string setting. *)
Definition truthy (o : option str) : bool :=
  match o with Some s => negb (is_empty s) | None => false end.

Record Service : Type := {
  settings : Settings;
  engines : Dict.t TranslationEngine
}.

Section Init.

(** The constructors of the four engine classes, called under the
    settings in force.  They build clients of the services, and like any
    call they may raise. *)
Variables OpenAITranslationEngine AnthropicTranslationEngine
  GoogleTranslationEngine BaiduTranslationEngine
  : Settings -> Exc TranslationEngine.

Definition _initialize_engines (cfg : Settings)
  : Exc (Dict.t TranslationEngine) :=
  let engines := [] in
  engines <-
    (if truthy (OPENAI_API_KEY cfg)
     then eng <- OpenAITranslationEngine cfg ;;
          inr (Dict.set engines (lit "openai") eng)
     else inr engines) ;;
  engines <-
    (if truthy (ANTHROPIC_API_KEY cfg)
     then eng <- AnthropicTranslationEngine cfg ;;
          inr (Dict.set engines (lit "anthropic") eng)
     else inr engines) ;;
  engines <-
    (if truthy (GOOGLE_API_KEY cfg)
     then eng <- GoogleTranslationEngine cfg ;;
          inr (Dict.set engines (lit "google") eng)
     else inr engines) ;;
  engines <-
    (if truthy (BAIDU_APP_ID cfg) && truthy (BAIDU_SECRET_KEY cfg)
     then eng <- BaiduTranslationEngine cfg ;;
          inr (Dict.set engines (lit "baidu") eng)
     else inr engines) ;;
  inr engines.

(** [TranslationService.__init__] *)
Definition init (cfg : Settings) : Exc Service :=
  engines <- _initialize_engines cfg ;;
  inr {| settings := cfg; engines := engines |}.

End Init.

(** [result.get("quality_score", 0)] *)
Definition get_quality_score (result : TranslationResult) : Q :=
  match quality_score result with
  | Some q => q
  | None => 0
  end.

(** The loop of [_select_best_translation]. *)
Fixpoint select_loop (items : list (str * TranslationResult))
  (best_result : option TranslationResult) (best_score : Q)
  : option TranslationResult :=
  match items with
  | [] => best_result
  | (_, result) :: rest =>
      let score := get_quality_score result in
      if TextAnalyzer.Qlt_bool best_score score
      then select_loop rest (Some result) score
      else select_loop rest best_result best_score
  end.

Definition _select_best_translation (results : Dict.t TranslationResult)
  : option TranslationResult :=
  match results with
  | [] => None
  | _ => select_loop results None 0
  end.

Record Comparison : Type := {
  source_text : str;
  cmp_source_language : str;
  cmp_target_language : str;
  results : Dict.t TranslationResult;
  errors : Dict.t str;
  best_translation : option TranslationResult
}.

Section Operations.

Variable langdetect : str -> Exc str.
Variable self : Service.

Definition detect_language : str -> str :=
  LanguageDetector.detect_language langdetect.

Definition translate (text source_lang target_lang engine : str) (kw : kwargs)
  : M TranslationResult :=
  if is_blank text then raise (ValueError msg_empty_text)
  else if (len text >? MAX_TRANSLATION_LENGTH (settings self))%Z
  then raise (ValueError (msg_too_long (MAX_TRANSLATION_LENGTH (settings self))))
  else
    let source_lang :=
      if PyStr.eqb source_lang (lit "auto") then detect_language text
      else source_lang in
    match Dict.get (engines self) engine with
    | Some eng => await_translate eng text source_lang target_lang kw
    | None =>
        (* [available_engines[0]] and its entry: the first item *)
        match engines self with
        | [] => raise (Exception msg_no_engine)
        | (_, eng) :: _ => await_translate eng text source_lang target_lang kw
        end
    end.

(** The first loop of [compare_translations]: the coroutines of the
    requested engines that are configured, not yet started. *)
Fixpoint make_tasks (requested : list str) : list (str * TranslationEngine) :=
  match requested with
  | [] => []
  | engine :: rest =>
      match Dict.get (engines self) engine with
      | Some eng => (engine, eng) :: make_tasks rest
      | None => make_tasks rest
      end
  end.

(** The second loop: each task is awaited in turn inside its own [try]. *)
Fixpoint run_tasks (text source_lang target_lang : str)
  (tasks : list (str * TranslationEngine))
  (results : Dict.t TranslationResult) (errors : Dict.t str)
  : M (Dict.t TranslationResult * Dict.t str) :=
  match tasks with
  | [] => ret (results, errors)
  | (engine, eng) :: rest =>
      bind
        (try_except
           (bind (await_translate eng text source_lang target_lang [])
                 (fun result => ret (Dict.set results engine result, errors)))
           (fun e => ret (results, Dict.set errors engine (exn_str e))))
        (fun re => run_tasks text source_lang target_lang rest (fst re) (snd re))
  end.

Definition compare_translations (text source_lang target_lang : str)
  (requested : option (list str)) : M Comparison :=
  let requested :=
    match requested with
    | None => Dict.keys (engines self)
    | Some l => l
    end in
  let source_lang :=
    if PyStr.eqb source_lang (lit "auto") then detect_language text
    else source_lang in
  let tasks := make_tasks requested in
  bind (run_tasks text source_lang target_lang tasks [] [])
       (fun re =>
          ret {| source_text := text;
                 cmp_source_language := source_lang;
                 cmp_target_language := target_lang;
                 results := fst re;
                 errors := snd re;
                 best_translation := _select_best_translation (fst re) |}).

Definition get_available_engines : list str := Dict.keys (engines self).

(** The source language after the [if source_lang == "auto"] step. *)
Definition resolved_source_lang (text source_lang : str) : str :=
  if PyStr.eqb source_lang (lit "auto") then detect_language text
  else source_lang.

End Operations.

(** *** Vocabulary of the statements about [compare_translations] *)

Definition always_raises (eng : TranslationEngine) : Prop :=
  forall text source_lang target_lang kw,
    exists e, engine_translate eng text source_lang target_lang kw = inl e.

Definition always_succeeds (eng : TranslationEngine) : Prop :=
  forall text source_lang target_lang kw,
    exists r, engine_translate eng text source_lang target_lang kw = inr r.

(** The engine returns on the call a compare task makes. *)
Definition succeeds_on (text source_lang target_lang : str)
  (eng : TranslationEngine) : Prop :=
  exists r, engine_translate eng text source_lang target_lang [] = inr r.

(** The entries the tasks that return, and the tasks that raise, leave. *)
Definition task_results (text source_lang target_lang : str)
  (tasks : list (str * TranslationEngine)) : Dict.t TranslationResult :=
  flat_map
    (fun task =>
       match engine_translate (snd task) text source_lang target_lang [] with
       | inr r => [(fst task, r)]
       | inl _ => []
       end) tasks.

Definition task_errors (text source_lang target_lang : str)
  (tasks : list (str * TranslationEngine)) : Dict.t str :=
  flat_map
    (fun task =>
       match engine_translate (snd task) text source_lang target_lang [] with
       | inr _ => []
       | inl e => [(fst task, exn_str e)]
       end) tasks.

Definition task_call (text source_lang target_lang : str)
  (task : str * TranslationEngine) : Call :=
  {| call_engine := name (snd task); call_text := text;
     call_source_lang := source_lang; call_target_lang := target_lang;
     call_kwargs := [] |}.

(** *** Vocabulary of the statements about cache keys *)

(** The order [sorted] puts items in. *)
Definition item_le (a b : str * value) : Prop :=
  PyStr.leb (fst a) (fst b) = true.

(** Sample encoders: a key or string in quotes, and a digest that keeps
    its input. *)
Definition quote_key (k : str) : str := lit "'" ++ k ++ lit "'".

Definition quote_value (v : value) : str :=
  match v with
  | VNone => lit "null"
  | VBool true => lit "true"
  | VBool false => lit "false"
  | VInt z => str_of_Z z
  | VStr s => quote_key s
  end.

Definition plain_digest (content : str) : str := content.

(** *** Sample engines and results *)

Definition sample_result (eng translated : str) (score : Q) : TranslationResult :=
  {| engine := eng; model := lit "m"; translated_text := translated;
     source_language := lit "en"; target_language := lit "zh";
     quality_score := Some score; confidence_score := 0.9;
     processing_time := 0.1; word_count := 1; character_count := 5;
     metadata := [] |}.

Definition failing_engine (n : str) : TranslationEngine :=
  {| name := n;
     engine_translate := fun _ _ _ _ => inl (Exception (n ++ lit ": quota")) |}.

Definition echo_engine (n : str) (score : Q) : TranslationEngine :=
  {| name := n;
     engine_translate := fun text _ _ _ => inr (sample_result n text score) |}.

Definition no_langdetect : str -> Exc str :=
  fun _ => inl (Exception (lit "no features in text")).

Definition service_of (engs : Dict.t TranslationEngine) : Service :=
  {| settings := default_settings; engines := engs |}.

End TranslationService.

(* ================================================================== *)
(** ** services/file_service.py *)

Module FileService.

Import TranslationService.

(** *** Splitting text into chunks *)

(** The class [[.!?] and fullwidth forms] of the splitting pattern. *)
Definition is_terminal (c : char) : bool :=
  ((c =? 46) || (c =? 33) || (c =? 63)
   || (c =? 12290) || (c =? 65281) || (c =? 65311))%N.

Definition cons_head (c : char) (pieces : list str) : list str :=
  match pieces with
  | [] => [[c]]
  | p :: ps => (c :: p) :: ps
  end.

(** [re.split(r'[.!?...]\s*', text)].  A match is one terminal character
    and all the whitespace after it; [after_match] says that the scan is
    still inside the whitespace of a match. *)
Fixpoint re_split_from (after_match : bool) (text : str) : list str :=
  match text with
  | [] => [[]]
  | c :: rest =>
      if is_terminal c then [] :: re_split_from true rest
      else if after_match && is_space c then re_split_from true rest
      else cons_head c (re_split_from false rest)
  end.

Definition re_split_sentences (text : str) : list str :=
  re_split_from false text.

Definition sentence_sep : str := lit ". ".

(** The [for sentence in sentences] loop and the final append. *)
Fixpoint chunk_loop (chunk_size : Z) (sentences : list str)
  (chunks : list str) (current_chunk : str) : list str :=
  match sentences with
  | [] =>
      if is_blank current_chunk then chunks
      else chunks ++ [strip current_chunk]
  | sentence :: rest =>
      if is_blank sentence then chunk_loop chunk_size rest chunks current_chunk
      else if (len current_chunk + len sentence >? chunk_size)%Z
              && negb (is_empty current_chunk)
      then chunk_loop chunk_size rest
             (chunks ++ [strip current_chunk]) sentence
      else if negb (is_empty current_chunk)
      then chunk_loop chunk_size rest chunks
             (current_chunk ++ sentence_sep ++ sentence)
      else chunk_loop chunk_size rest chunks sentence
  end.

(** [self.chunk_size] *)
Definition default_chunk_size : Z := 1000.

Definition split_text_into_chunks (text : str) (chunk_size : option Z)
  : list str :=
  let chunk_size :=
    match chunk_size with
    | None => default_chunk_size
    | Some n => n
    end in
  if (len text <=? chunk_size)%Z then [text]
  else chunk_loop chunk_size (re_split_sentences text) [] [].

(** The sentence sequence of a text: the pieces the splitting pattern
    yields that are not blank, each one stripped.  Chunks are compared with
    the original text through it. *)
Definition nonblank (s : str) : bool := negb (is_blank s).

Definition sentence_sequence (text : str) : list str :=
  List.map strip (filter nonblank (re_split_sentences text)).

(** A string without sentence ends, as every piece of the split is. *)
Definition term_free (s : str) : Prop :=
  forallb (fun c => negb (is_terminal c)) s = true.

(** A sentence the chunk loop keeps. *)
Definition kept (s : str) : Prop := term_free s /\ is_blank s = false.

(** What the split returns for a piece scanned from state [b]. *)
Definition seen (b : bool) (s : str) : str := if b then lstrip s else s.

(** [chunks] spell the sentences [w]: joined, they are the same text. *)
Definition spells (chunks w : list str) : Prop :=
  join sentence_sep chunks = join sentence_sep w
  /\ (chunks = [] <-> w = []) /\ Forall kept w.

(** A chunk within the budget plus one separator, or one whole sentence
    of [all], stripped. *)
Definition fits_budget (chunk_size : Z) (all : list str) (c : str) : Prop :=
  (len c <= chunk_size + 2)%Z \/ exists s, In s all /\ c = strip s.

(** The running chunk of the loop: empty, or not blank and either within
    the budget plus one separator or a single sentence. *)
Definition growing_chunk (chunk_size : Z) (all : list str) (current : str)
  : Prop :=
  current = []
  \/ (is_blank current = false
      /\ ((len current <= chunk_size + 2)%Z \/ In current all)).

(** A chunk that is not blank and has no whitespace at its ends. *)
Definition stripped (c : str) : Prop := is_blank c = false /\ strip c = c.

(** *** Records of models/file.py *)

Inductive Status : Type := pending | processing | completed | failed.

Record File : Type := {
  id : Z;
  filename : str;
  file_path : str;
  file_type : str;
  file_source_language : str;
  file_target_language : str;
  translation_engine : str;
  extracted_text : option str;
  translation_status : Status;
  translation_progress : Z;
  translated_content : option str;
  translated_file_path : option str;
  error_message : option str;
  completed_at : option Z
}.

Record FileChunk : Type := {
  file_id : Z;
  chunk_index : nat;
  chunk_text : str;
  chunk_translated_text : option str;
  status : Status
}.

Definition with_extracted_text (f : File) (t : option str) : File :=
  {| id := id f; filename := filename f; file_path := file_path f;
     file_type := file_type f;
     file_source_language := file_source_language f;
     file_target_language := file_target_language f;
     translation_engine := translation_engine f;
     extracted_text := t;
     translation_status := translation_status f;
     translation_progress := translation_progress f;
     translated_content := translated_content f;
     translated_file_path := translated_file_path f;
     error_message := error_message f;
     completed_at := completed_at f |}.

Definition with_status (f : File) (s : Status) : File :=
  {| id := id f; filename := filename f; file_path := file_path f;
     file_type := file_type f;
     file_source_language := file_source_language f;
     file_target_language := file_target_language f;
     translation_engine := translation_engine f;
     extracted_text := extracted_text f;
     translation_status := s;
     translation_progress := translation_progress f;
     translated_content := translated_content f;
     translated_file_path := translated_file_path f;
     error_message := error_message f;
     completed_at := completed_at f |}.

Definition with_progress (f : File) (p : Z) : File :=
  {| id := id f; filename := filename f; file_path := file_path f;
     file_type := file_type f;
     file_source_language := file_source_language f;
     file_target_language := file_target_language f;
     translation_engine := translation_engine f;
     extracted_text := extracted_text f;
     translation_status := translation_status f;
     translation_progress := p;
     translated_content := translated_content f;
     translated_file_path := translated_file_path f;
     error_message := error_message f;
     completed_at := completed_at f |}.

Definition with_translated_content (f : File) (t : option str) : File :=
  {| id := id f; filename := filename f; file_path := file_path f;
     file_type := file_type f;
     file_source_language := file_source_language f;
     file_target_language := file_target_language f;
     translation_engine := translation_engine f;
     extracted_text := extracted_text f;
     translation_status := translation_status f;
     translation_progress := translation_progress f;
     translated_content := t;
     translated_file_path := translated_file_path f;
     error_message := error_message f;
     completed_at := completed_at f |}.

Definition with_translated_file_path (f : File) (p : option str) : File :=
  {| id := id f; filename := filename f; file_path := file_path f;
     file_type := file_type f;
     file_source_language := file_source_language f;
     file_target_language := file_target_language f;
     translation_engine := translation_engine f;
     extracted_text := extracted_text f;
     translation_status := translation_status f;
     translation_progress := translation_progress f;
     translated_content := translated_content f;
     translated_file_path := p;
     error_message := error_message f;
     completed_at := completed_at f |}.

Definition with_error_message (f : File) (m : option str) : File :=
  {| id := id f; filename := filename f; file_path := file_path f;
     file_type := file_type f;
     file_source_language := file_source_language f;
     file_target_language := file_target_language f;
     translation_engine := translation_engine f;
     extracted_text := extracted_text f;
     translation_status := translation_status f;
     translation_progress := translation_progress f;
     translated_content := translated_content f;
     translated_file_path := translated_file_path f;
     error_message := m;
     completed_at := completed_at f |}.

Definition with_completed_at (f : File) (t : option Z) : File :=
  {| id := id f; filename := filename f; file_path := file_path f;
     file_type := file_type f;
     file_source_language := file_source_language f;
     file_target_language := file_target_language f;
     translation_engine := translation_engine f;
     extracted_text := extracted_text f;
     translation_status := translation_status f;
     translation_progress := translation_progress f;
     translated_content := translated_content f;
     translated_file_path := translated_file_path f;
     error_message := error_message f;
     completed_at := t |}.

Definition chunk_completed (c : FileChunk) (translated : str) : FileChunk :=
  {| file_id := file_id c; chunk_index := chunk_index c;
     chunk_text := chunk_text c;
     chunk_translated_text := Some translated;
     status := completed |}.

Definition chunk_failed (c : FileChunk) : FileChunk :=
  {| file_id := file_id c; chunk_index := chunk_index c;
     chunk_text := chunk_text c;
     chunk_translated_text := chunk_translated_text c;
     status := failed |}.

(** *** The database session *)

Record Store : Type := {
  file_rows : list File;
  chunk_rows : list FileChunk
}.

(** [db.query(File).filter(File.id == file_id).first()] *)
Definition query_file (db : Store) (fid : Z) : option File :=
  find (fun f => (id f =? fid)%Z) (file_rows db).

Definition chunk_matches (fid : Z) (i : nat) (c : FileChunk) : bool :=
  (file_id c =? fid)%Z && (chunk_index c =? i)%nat.

(** [db.query(FileChunk).filter(file_id == .., chunk_index == ..).first()] *)
Definition query_chunk (rows : list FileChunk) (fid : Z) (i : nat)
  : option FileChunk :=
  find (chunk_matches fid i) rows.

(** Mutating the record that [query_chunk] returns, then committing. *)
Fixpoint update_chunk (rows : list FileChunk) (fid : Z) (i : nat)
  (f : FileChunk -> FileChunk) : list FileChunk :=
  match rows with
  | [] => []
  | c :: rows' =>
      if chunk_matches fid i c then f c :: rows'
      else c :: update_chunk rows' fid i f
  end.

(** Committing the file record the session holds. *)
Fixpoint update_file (rows : list File) (f : File) : list File :=
  match rows with
  | [] => []
  | g :: rows' =>
      if (id g =? id f)%Z then f :: rows' else g :: update_file rows' f
  end.

(** The chunk records added before translation starts. *)
Fixpoint new_chunks (fid : Z) (i : nat) (chunks : list str) : list FileChunk :=
  match chunks with
  | [] => []
  | c :: rest =>
      {| file_id := fid; chunk_index := i; chunk_text := c;
         chunk_translated_text := None; status := pending |}
      :: new_chunks fid (S i) rest
  end.

Definition msg_unsupported_type : str :=
  [19981; 25903; 25345; 30340; 25991; 20214; 31867; 22411; 58; 32]%N.

Definition msg_extraction_failed : str :=
  [25991; 26412; 25552; 21462; 22833; 36133; 58; 32]%N.

Section Pipeline.

Variable langdetect : str -> Exc str.
Variable translation_service : Service.

(** File input and output, and the clock. *)
Variables _extract_from_txt _extract_from_docx _extract_from_pdf
  _extract_from_srt : str -> Exc str.
Variable _generate_translated_file : File -> str -> Exc str.
Variable utcnow : Z.

Definition extract_text_from_file (path type : str) : Exc str :=
  if PyStr.eqb type (lit "txt") then _extract_from_txt path
  else if PyStr.eqb type (lit "docx") then _extract_from_docx path
  else if PyStr.eqb type (lit "pdf") then _extract_from_pdf path
  else if PyStr.eqb type (lit "srt") then _extract_from_srt path
  else inl (ValueError (msg_unsupported_type ++ type)).

(** [int((i / total_chunks) * 100)], on exact rationals. *)
Definition progress_of (i total_chunks : nat) : Z :=
  Qfloor (TextAnalyzer.Qnat i / TextAnalyzer.Qnat total_chunks * 100).

(** What the chunk loop mutates. *)
Record LoopState : Type := {
  ls_file : File;
  ls_chunks : list FileChunk;
  ls_translated : list str;
  ls_log : list Call
}.

(** [for i, chunk_text in enumerate(chunks)], from index [i] on. *)
Fixpoint translate_chunks (fid : Z) (total_chunks : nat) (i : nat)
  (chunks : list str) (st : LoopState) : LoopState :=
  match chunks with
  | [] => st
  | chunk_text :: rest =>
      let file_record := with_progress (ls_file st) (progress_of i total_chunks) in
      let st' :=
        match translate langdetect translation_service chunk_text
                (file_source_language file_record)
                (file_target_language file_record)
                (translation_engine file_record) [] (ls_log st) with
        | (inr result, log') =>
            let translated_text := translated_text result in
            {| ls_file := file_record;
               ls_chunks :=
                 update_chunk (ls_chunks st) fid i
                   (fun c => chunk_completed c translated_text);
               ls_translated := ls_translated st ++ [translated_text];
               ls_log := log' |}
        | (inl _, log') =>
            {| ls_file := file_record;
               ls_chunks := update_chunk (ls_chunks st) fid i chunk_failed;
               ls_translated := ls_translated st ++ [chunk_text];
               ls_log := log' |}
        end in
      translate_chunks fid total_chunks (S i) rest st'
  end.

Definition commit (db : Store) (file_record : File) (rows : list FileChunk)
  : Store :=
  {| file_rows := update_file (file_rows db) file_record; chunk_rows := rows |}.

(** The text to translate: the stored one, or a fresh extraction. *)
Definition ensure_extracted (file_record : File) : Exc (File * str) :=
  let extract :=
    match extract_text_from_file (file_path file_record) (file_type file_record) with
    | inr t => inr (with_extracted_text file_record (Some t), t)
    | inl e => inl e
    end in
  match extracted_text file_record with
  | None => extract
  | Some t => if is_empty t then extract else inr (file_record, t)
  end.

Definition translate_file_async (fid : Z) (db : Store) (log : list Call)
  : Store * list Call :=
  match query_file db fid with
  | None => (db, log)
  | Some file_record =>
      match ensure_extracted file_record with
      | inl e =>
          let file_record := with_status file_record failed in
          let file_record :=
            with_error_message file_record
              (Some (msg_extraction_failed ++ exn_str e)) in
          (commit db file_record (chunk_rows db), log)
      | inr (file_record, text) =>
          let chunks := split_text_into_chunks text None in
          let total_chunks := List.length chunks in
          let rows := chunk_rows db ++ new_chunks fid 0 chunks in
          let st :=
            translate_chunks fid total_chunks 0 chunks
              {| ls_file := file_record; ls_chunks := rows;
                 ls_translated := []; ls_log := log |} in
          let full_translated_text := join [10%N] (ls_translated st) in
          let file_record :=
            with_translated_content (ls_file st) (Some full_translated_text) in
          match _generate_translated_file file_record full_translated_text with
          | inr translated_file_path =>
              let file_record :=
                with_translated_file_path file_record (Some translated_file_path) in
              let file_record := with_status file_record completed in
              let file_record := with_progress file_record 100 in
              let file_record := with_completed_at file_record (Some utcnow) in
              (commit db file_record (ls_chunks st), ls_log st)
          | inl e =>
              let file_record := with_status file_record failed in
              let file_record :=
                with_error_message file_record (Some (exn_str e)) in
              (commit db file_record (ls_chunks st), ls_log st)
          end
      end
  end.

(** *** Vocabulary of the statements about the chunk loop *)

(** What translating one chunk of the job returns. *)
Definition chunk_outcome (file_record : File) (chunk_text : str)
  : Exc TranslationResult :=
  fst (translate langdetect translation_service chunk_text
         (file_source_language file_record)
         (file_target_language file_record)
         (translation_engine file_record) [] []).

(** The piece of the reassembled text a chunk contributes. *)
Definition translated_piece (file_record : File) (chunk_text : str) : str :=
  match chunk_outcome file_record chunk_text with
  | inr result => translated_text result
  | inl _ => chunk_text
  end.

(** The chunk record the loop leaves for a chunk. *)
Definition settled_chunk (fid : Z) (i : nat) (file_record : File)
  (text : str) : FileChunk :=
  match chunk_outcome file_record text with
  | inr result =>
      {| file_id := fid; chunk_index := i; chunk_text := text;
         chunk_translated_text := Some (translated_text result);
         status := completed |}
  | inl _ =>
      {| file_id := fid; chunk_index := i; chunk_text := text;
         chunk_translated_text := None; status := failed |}
  end.

Fixpoint settled_chunks (fid : Z) (i : nat) (file_record : File)
  (chunks : list str) : list FileChunk :=
  match chunks with
  | [] => []
  | c :: rest =>
      settled_chunk fid i file_record c
      :: settled_chunks fid (S i) file_record rest
  end.

(** Two file records that differ at most in their progress. *)
Definition same_but_progress (f g : File) : Prop :=
  with_progress f 0 = with_progress g 0.

End Pipeline.

(** *** A sample job *)

Definition sample_file (text : str) (engine : str) : File :=
  {| id := 1; filename := lit "a.txt"; file_path := lit "/up/a.txt";
     file_type := lit "txt";
     file_source_language := lit "en"; file_target_language := lit "zh";
     translation_engine := engine;
     extracted_text := Some text;
     translation_status := processing;
     translation_progress := 0;
     translated_content := None; translated_file_path := None;
     error_message := None; completed_at := None |}.

Definition sample_store (text : str) (engine : str) : Store :=
  {| file_rows := [sample_file text engine]; chunk_rows := [] |}.

Definition no_extract : str -> Exc str :=
  fun _ => inl (Exception (lit "unreadable")).

Definition sample_generate : File -> str -> Exc str :=
  fun f _ => inr (file_path f ++ lit ".out").

Definition failing_generate : File -> str -> Exc str :=
  fun _ _ => inl (Exception (lit "disk full")).

(** A second file, of a type no extractor handles and without text. *)
Definition other_file : File :=
  {| id := 2; filename := lit "b.exe"; file_path := lit "/up/b.exe";
     file_type := lit "exe";
     file_source_language := lit "en"; file_target_language := lit "zh";
     translation_engine := lit "openai";
     extracted_text := None;
     translation_status := processing;
     translation_progress := 0;
     translated_content := None; translated_file_path := None;
     error_message := None; completed_at := None |}.

Definition two_file_store (text : str) : Store :=
  {| file_rows := [sample_file text (lit "openai"); other_file];
     chunk_rows :=
       [ {| file_id := 2; chunk_index := 0; chunk_text := lit "old";
            chunk_translated_text := None; status := pending |} ] |}.

(** The sample job run on a service with the given engines. *)
Definition run_sample (engs : Dict.t TranslationEngine) (text engine : str)
  : Store :=
  fst (translate_file_async no_langdetect (service_of engs)
         no_extract no_extract no_extract no_extract sample_generate 0
         1 (sample_store text engine) []).

End FileService.

(* ================================================================== *)
(** ** utils/language_detector.py, the other functions *)

Module DetectorTools.

Import LanguageDetector.

(** [settings.SUPPORTED_LANGUAGES] of core/config.py: code to name. *)
Definition SUPPORTED_LANGUAGES : Dict.t str :=
  [
    (lit "auto", [33258; 21160; 26816; 27979]%N);
    (lit "zh", [20013; 25991]%N);
    (lit "en", [33521; 35821]%N);
    (lit "ja", [26085; 35821]%N);
    (lit "ko", [38889; 35821]%N);
    (lit "fr", [27861; 35821]%N);
    (lit "de", [24503; 35821]%N);
    (lit "es", [35199; 29677; 29273; 35821]%N);
    (lit "it", [24847; 22823; 21033; 35821]%N);
    (lit "pt", [33889; 33796; 29273; 35821]%N);
    (lit "ru", [20420; 35821]%N);
    (lit "ar", [38463; 25289; 20271; 35821]%N);
    (lit "th", [27888; 35821]%N);
    (lit "vi", [36234; 21335; 35821]%N);
    (lit "id", [21360; 23612; 35821]%N);
    (lit "ms", [39532; 26469; 35821]%N);
    (lit "hi", [21360; 22320; 35821]%N);
    (lit "tr", [22303; 32819; 20854; 35821]%N);
    (lit "pl", [27874; 20848; 35821]%N);
    (lit "nl", [33655; 20848; 35821]%N);
    (lit "sv", [29790; 20856; 35821]%N);
    (lit "da", [20025; 40614; 35821]%N);
    (lit "no", [25386; 23041; 35821]%N);
    (lit "fi", [33452; 20848; 35821]%N);
    (lit "cs", [25463; 20811; 35821]%N);
    (lit "hu", [21256; 29273; 21033; 35821]%N);
    (lit "ro", [32599; 39532; 23612; 20122; 35821]%N);
    (lit "bg", [20445; 21152; 21033; 20122; 35821]%N);
    (lit "hr", [20811; 32599; 22320; 20122; 35821]%N);
    (lit "sk", [26031; 27931; 20240; 20811; 35821]%N);
    (lit "sl", [26031; 27931; 25991; 23612; 20122; 35821]%N);
    (lit "et", [29233; 27801; 23612; 20122; 35821]%N);
    (lit "lv", [25289; 33073; 32500; 20122; 35821]%N);
    (lit "lt", [31435; 38518; 23451; 35821]%N);
    (lit "uk", [20044; 20811; 20848; 35821]%N);
    (lit "be", [30333; 20420; 32599; 26031; 35821]%N);
    (lit "mk", [39532; 20854; 39039; 35821]%N);
    (lit "sq", [38463; 23572; 24052; 23612; 20122; 35821]%N);
    (lit "sr", [22622; 23572; 32500; 20122; 35821]%N);
    (lit "bs", [27874; 26031; 23612; 20122; 35821]%N);
    (lit "mt", [39532; 32819; 20182; 35821]%N);
    (lit "is", [20912; 23707; 35821]%N);
    (lit "ga", [29233; 23572; 20848; 35821]%N);
    (lit "cy", [23041; 23572; 22763; 35821]%N);
    (lit "eu", [24052; 26031; 20811; 35821]%N);
    (lit "ca", [21152; 27888; 32599; 23612; 20122; 35821]%N);
    (lit "gl", [21152; 21033; 35199; 20122; 35821]%N);
    (lit "he", [24076; 20271; 26469; 35821]%N);
    (lit "fa", [27874; 26031; 35821]%N);
    (lit "ur", [20044; 23572; 37117; 35821]%N);
    (lit "bn", [23391; 21152; 25289; 35821]%N);
    (lit "ta", [27888; 31859; 23572; 35821]%N);
    (lit "te", [27888; 21346; 22266; 35821]%N);
    (lit "ml", [39532; 25289; 38597; 25289; 22982; 35821]%N);
    (lit "kn", [21345; 32435; 36798; 35821]%N);
    (lit "gu", [21476; 21513; 25289; 29305; 35821]%N);
    (lit "pa", [26049; 36974; 26222; 35821]%N);
    (lit "ne", [23612; 27850; 23572; 35821]%N);
    (lit "si", [20711; 20285; 32599; 35821]%N);
    (lit "my", [32517; 30008; 35821]%N);
    (lit "km", [39640; 26825; 35821]%N);
    (lit "lo", [32769; 25373; 35821]%N);
    (lit "ka", [26684; 40065; 21513; 20122; 35821]%N);
    (lit "am", [38463; 22982; 21704; 25289; 35821]%N);
    (lit "sw", [26031; 29926; 24076; 37324; 35821]%N);
    (lit "zu", [31062; 40065; 35821]%N);
    (lit "af", [21335; 38750; 33655; 20848; 35821]%N);
    (lit "xh", [31185; 33832; 35821]%N)
  ].

(** [lang_code in settings.SUPPORTED_LANGUAGES] *)
Definition is_supported_language (lang_code : str) : bool :=
  Dict.mem SUPPORTED_LANGUAGES lang_code.

(** [settings.SUPPORTED_LANGUAGES.get(lang_code, lang_code)] *)
Definition get_language_name (lang_code : str) : str :=
  match Dict.get SUPPORTED_LANGUAGES lang_code with
  | Some name => name
  | None => lang_code
  end.

Section Confidence.

(** [langdetect.detect_langs]: the candidate languages with their
    probabilities, best first. *)
Variable detect_langs : str -> Exc (list (str * Q)).

Definition detect_language_with_confidence (text : str) : str * Q :=
  if is_empty text || is_blank text then (lit "en", 0)
  else match detect_langs (strip text) with
       | inr (best_lang :: _) =>
           let mapped_lang :=
             match Dict.get LANGUAGE_MAPPING (fst best_lang) with
             | Some mapped => mapped
             | None => fst best_lang
             end in
           (mapped_lang, snd best_lang)
       | inr [] => (lit "en", 0)
       | inl _ => (lit "en", 0)
       end.

End Confidence.

(** A [langdetect] that classifies nothing. *)
Definition no_langdetect_at_all : str -> Exc str :=
  fun _ => inl (Exception (lit "No features in text."))%string.

(** [text[:n]] for a length [n] that is not negative. *)
Definition prefix (n : nat) (text : str) : str := firstn n text.

Definition preprocess_text_for_detection (text : str) : str :=
  if is_empty text then text
  else
    let text := join (lit " ") (TextAnalyzer.split text) in
    if (len text <? 20)%Z then text
    else if (len text >? 500)%Z then prefix 500 text
    else text.

(** A word of [str.split()]: not empty and without whitespace. *)
Definition spaceless (w : str) : Prop :=
  forallb (fun c => negb (is_space c)) w = true.

Definition is_word (w : str) : Prop := w <> [] /\ spaceless w.

End DetectorTools.

(* ================================================================== *)
(** ** utils/text_analyzer.py, keyword extraction *)

Module Keywords.

Definition stop_words : list str :=
  [
    lit "the"; lit "a"; lit "an"; lit "and"; lit "or"; lit "but"; lit "in";
    lit "on"; lit "at"; lit "to"; lit "for"; lit "of"; lit "with"; lit "by";
    lit "is"; lit "are"; lit "was"; lit "were"; lit "be"; lit "been"; lit
    "being"; lit "have"; lit "has"; lit "had"; lit "do"; lit "does"; lit
    "did"; lit "will"; lit "would"; lit "could"; lit "should"; lit "may";
    lit "might"; lit "can"; lit "this"; lit "that"; lit "these"; lit
    "those"; [30340]%N; [20102]%N; [22312]%N; [26159]%N; [25105]%N;
    [20320]%N; [20182]%N; [22905]%N; [23427]%N; [20204]%N; [21644]%N;
    [19982]%N; [25110]%N; [20294]%N; [22914; 26524]%N; [22240; 20026]%N
  ].

Definition pat_word : str := lit "\b\w+\b".

(** [word in stop_words] *)
Definition is_stop_word (word : str) : bool :=
  existsb (PyStr.eqb word) stop_words.

(** The words that are counted. *)
Definition counted (word : str) : bool :=
  (2 <? List.length word)%nat && negb (is_stop_word word).

(** [word_freq.get(word, 0)] *)
Definition freq_get (word_freq : Dict.t nat) (word : str) : nat :=
  match Dict.get word_freq word with
  | Some n => n
  | None => O
  end.

(** The loop that fills [word_freq]. *)
Fixpoint count_words (words : list str) (word_freq : Dict.t nat) : Dict.t nat :=
  match words with
  | [] => word_freq
  | word :: rest =>
      if counted word
      then count_words rest (Dict.set word_freq word (freq_get word_freq word + 1)%nat)
      else count_words rest word_freq
  end.

(** [sorted(items, key=lambda x: x[1], reverse=True)]: by decreasing
    count, items of equal count in their original order. *)
Fixpoint insert_by_count (item : str * nat) (sorted : list (str * nat))
  : list (str * nat) :=
  match sorted with
  | [] => [item]
  | item' :: rest =>
      if (snd item' <=? snd item)%nat then item :: sorted
      else item' :: insert_by_count item rest
  end.

Fixpoint sort_by_count (items : list (str * nat)) : list (str * nat) :=
  match items with
  | [] => []
  | item :: rest => insert_by_count item (sort_by_count rest)
  end.

(** [xs[:n]] for any integer [n]. *)
Definition slice_to (A : Type) (n : Z) (xs : list A) : list A :=
  if (0 <=? n)%Z then firstn (Z.to_nat n) xs
  else firstn (List.length xs - Z.to_nat (- n)%Z)%nat xs.

Section Extract.

Variable lower : str -> str.
Variable re_findall : str -> str -> Exc (list str).

Definition extract_keywords (text : str) (max_keywords : Z) : list str :=
  if is_empty text then []
  else match re_findall pat_word (lower text) with
       | inl _ => []
       | inr words =>
           let word_freq := count_words words [] in
           let sorted_words := sort_by_count word_freq in
           List.map fst (slice_to max_keywords sorted_words)
       end.

End Extract.

(** The order of the sorted items: counts do not increase. *)
Definition by_count (a b : str * nat) : Prop := (snd b <= snd a)%nat.

(** How often a word occurs among the tokens. *)
Definition occurrences (words : list str) (word : str) : nat :=
  count_occ str_eq_dec words word.

(** A sample tokenizer: the runs of non-whitespace characters. *)
Definition whitespace_findall : str -> str -> Exc (list str) :=
  fun _ text => inr (TextAnalyzer.split text).

End Keywords.

(* ================================================================== *)
(** ** services/file_service.py, subtitle files *)

Module Subtitles.

(** A subtitle of a [pysrt] file. *)
Record SubRipItem : Type := {
  sub_index : Z;
  sub_start : Z;
  sub_end : Z;
  sub_text : str
}.

(** [text.split(sep)] for a one-character separator. *)
Fixpoint split_on (sep : char) (text : str) : list str :=
  match text with
  | [] => [[]]
  | c :: rest =>
      if N.eqb c sep then [] :: split_on sep rest
      else match split_on sep rest with
           | [] => [[c]]
           | piece :: pieces => (c :: piece) :: pieces
           end
  end.

(** [[line.strip() for line in translated_text.split('\n') if line.strip()]] *)
Definition translated_lines (translated_text : str) : list str :=
  List.map strip
    (filter (fun line => negb (is_blank line)) (split_on 10%N translated_text)).

(** The loop over [enumerate(original_subs)], from index [i] on. *)
Fixpoint retitle (i : nat) (original_subs : list SubRipItem) (lines : list str)
  : list SubRipItem :=
  match original_subs with
  | [] => []
  | sub :: rest =>
      (if (i <? List.length lines)%nat
       then {| sub_index := sub_index sub; sub_start := sub_start sub;
               sub_end := sub_end sub; sub_text := nth i lines [] |}
       else sub)
      :: retitle (S i) rest lines
  end.

(** [s.replace(old, new)] for a non-empty [old]. *)
Fixpoint replace_from (fuel : nat) (old new s : str) : str :=
  match fuel with
  | O => s
  | S fuel' =>
      match s with
      | [] => []
      | c :: rest =>
          if TextAnalyzer.startswith s old
          then new ++ replace_from fuel' old new (skipn (List.length old) s)
          else c :: replace_from fuel' old new rest
      end
  end.

Definition replace (old new s : str) : str :=
  replace_from (List.length s) old new s.

(** What the function leaves on disk. *)
Inductive Written : Type :=
| WroteSubtitles (path : str) (subs : list SubRipItem)
| WroteText (path : str) (text : str).

Section Generate.

(** [pysrt.open], [new_subs.save] and writing a text file. *)
Variable pysrt_open : str -> Exc (list SubRipItem).
Variable save_subs : list SubRipItem -> str -> Exc unit.
Variable write_text : str -> str -> Exc unit.

Definition _generate_translated_srt
  (original_path output_path translated_text : str) : Exc Written :=
  let attempt :=
    original_subs <- pysrt_open original_path ;;
    let lines := translated_lines translated_text in
    let new_subs := retitle 0 original_subs lines in
    _ <- save_subs new_subs output_path ;;
    inr (WroteSubtitles output_path new_subs) in
  match attempt with
  | inr written => inr written
  | inl _ =>
      let txt_path := replace (lit ".srt") (lit ".txt") output_path in
      _ <- write_text txt_path translated_text ;;
      inr (WroteText txt_path translated_text)
  end.

End Generate.

Definition timing (sub : SubRipItem) : Z * Z * Z :=
  (sub_index sub, sub_start sub, sub_end sub).

End Subtitles.

(* ================================================================== *)
(** ** services/translation_service.py: the cache and two engines *)

Module Adapters.

Import TranslationService.
Local Open Scope Q_scope.

(** [settings.TRANSLATION_CACHE_TTL] *)
Definition TRANSLATION_CACHE_TTL : Z := 86400.

(** What Google's [client.translate] returns for one text: a dictionary
    that may lack either key. *)
Record GoogleReply : Type := {
  translatedText : option str;
  detectedSourceLanguage : option str
}.

(** The JSON object Baidu answers with.  [trans_result], when the key is
    there, is a list of objects; each is given by its [dst] entry, if it
    has one. *)
Record BaiduReply : Type := {
  trans_result : option (list (option str))
}.

(** A request sent to a translation API. *)
Inductive Request : Type :=
| GoogleRequest (text : str) (source_language : option str)
    (target_language : str)
| BaiduRequest (q from to : str) (appid : option str) (salt sign : str).

Definition msg_google_failed : str :=
  [71; 111; 111; 103; 108; 101; 32763; 35793; 22833; 36133; 58; 32]%N.

Definition msg_baidu_failed : str :=
  [30334; 24230; 32763; 35793; 22833; 36133; 58; 32]%N.

Definition msg_baidu_api_error : str :=
  [30334; 24230; 32763; 35793; 65; 80; 73; 38169; 35823; 58; 32]%N.

(** [str(e)] of the [KeyError] for a missing string key, and of the
    [IndexError] of [items[0]] on an empty list.  Only the message of an
    exception is read by the engines, so these are kept as [Exception]s
    with that message. *)
Definition KeyError (key : str) : exn := Exception (lit "'" ++ key ++ lit "'").
Definition IndexError : exn := Exception (lit "list index out of range").

(** [f"{x}"] for an optional string setting. *)
Definition format_opt (o : option str) : str :=
  match o with Some s => s | None => lit "None" end.

(** The surrogate code points.  [s.encode()] raises [UnicodeEncodeError]
    exactly when [s] holds one. *)
Definition is_surrogate (c : char) : bool :=
  ((55296 <=? c) && (c <=? 57343))%N.

Definition encodable (s : str) : bool :=
  forallb (fun c => negb (is_surrogate c)) s.

Section Engines.

(** The Redis client, on stores of type [R], and the JSON encoder and
    decoder of results.  [json_loads] gives [None] for a value that counts
    as false in a condition; the cache holds only what [_cache_translation]
    wrote, so a value that is true is a result dictionary. *)
Variable R : Type.
Variable redis_get : R -> str -> Exc (option str).
Variable redis_setex : R -> str -> Z -> str -> Exc R.
Variable json_dumps : TranslationResult -> Exc str.
Variable json_loads : str -> Exc (option TranslationResult).

Variable dumps_key : str -> str.
Variable dumps_value : value -> str.
Variable md5_hexdigest : str -> str.

Variable lower : str -> str.
Variable re_split : str -> str -> Exc (list str).
Variable re_findall : str -> str -> Exc (list str).
Variable re_search : str -> str -> Exc bool.

(** The clock and the random generator; what they give may depend on the
    requests sent so far. *)
Variable time_time : list Request -> Q.
Variable randint : Z -> Z -> list Request -> Z.

(** The answers of the two services to the last request of a history. *)
Variable google_answer : list Request -> Exc GoogleReply.
Variable baidu_answer : list Request -> Exc BaiduReply.

(** [f"{result}"] of a Baidu answer. *)
Variable format_reply : BaiduReply -> str.

(** [str(e)] of the [UnicodeEncodeError] that [s.encode()] raises. *)
Variable encode_error_message : str -> str.

(** [UnicodeEncodeError] is a subclass of [ValueError]. *)
Definition UnicodeEncodeError (s : str) : exn :=
  ValueError (encode_error_message s).

(** [s.encode()], as far as it matters here: it raises or not. *)
Definition encode (s : str) : Exc str :=
  if encodable s then inr s else inl (UnicodeEncodeError s).

(** What an engine call can change: the cache and the requests sent. *)
Record World : Type := {
  redis : R;
  requests : list Request
}.

Definition send (req : Request) (w : World) : World :=
  {| redis := redis w; requests := requests w ++ [req] |}.

(** [TranslationEngine._get_cached_translation]: it does not raise. *)
Definition _get_cached_translation (cache_key : str) (w : World)
  : option TranslationResult :=
  match redis_get (redis w) cache_key with
  | inr (Some cached) =>
      if is_empty cached then None
      else match json_loads cached with
           | inr loaded => loaded
           | inl _ => None
           end
  | inr None => None
  | inl _ => None
  end.

(** [TranslationEngine._cache_translation]: it does not raise either. *)
Definition _cache_translation (cache_key : str) (result : TranslationResult)
  (w : World) : World :=
  match json_dumps result with
  | inr encoded =>
      match redis_setex (redis w) cache_key TRANSLATION_CACHE_TTL encoded with
      | inr r => {| redis := r; requests := requests w |}
      | inl _ => w
      end
  | inl _ => w
  end.

(** The key of a call without options, as a string, and the content
    that is hashed for it. *)
Definition cache_key_of (self : TranslationEngine)
  (text source_lang target_lang : str) : str :=
  _get_cache_key dumps_key dumps_value md5_hexdigest self
    text source_lang target_lang [].

Definition cache_content (self : TranslationEngine)
  (text source_lang target_lang : str) : str :=
  text ++ lit ":" ++ source_lang ++ lit ":" ++ target_lang ++ lit ":"
  ++ name self ++ lit ":" ++ json_dumps_sorted dumps_key dumps_value [].

(** [self._get_cache_key(text, source_lang, target_lang)] as the engines
    call it: [content.encode()] raises on a content with a surrogate. *)
Definition get_cache_key (self : TranslationEngine)
  (text source_lang target_lang : str) : Exc str :=
  _ <- encode (cache_content self text source_lang target_lang) ;;
  inr (cache_key_of self text source_lang target_lang).

(** [GoogleTranslationEngine.translate] *)
Definition GoogleTranslationEngine_translate (self : TranslationEngine)
  (text source_lang target_lang : str) (w : World)
  : Exc TranslationResult * World :=
  let start_time := time_time (requests w) in
  match get_cache_key self text source_lang target_lang with
  | inl e => (inl e, w)
  | inr cache_key =>
  match _get_cached_translation cache_key w with
  | Some cached_result => (inr cached_result, w)
  | None =>
      let w1 :=
        send (GoogleRequest text
                (if PyStr.eqb source_lang (lit "auto") then None
                 else Some source_lang)
                target_lang) w in
      let attempt : Exc TranslationResult :=
        result <- google_answer (requests w1) ;;
        translated_text <-
          match translatedText result with
          | Some t => inr t
          | None => inl (KeyError (lit "translatedText"))
          end ;;
        let detected_lang :=
          match detectedSourceLanguage result with
          | Some l => l
          | None => source_lang
          end in
        let processing_time := time_time (requests w1) - start_time in
        let quality_score :=
          TextAnalyzer.analyze_text_quality lower re_split re_findall re_search
            text translated_text detected_lang target_lang in
        inr {| engine := name self;
               model := lit "translate-v3";
               translated_text := translated_text;
               source_language := detected_lang;
               target_language := target_lang;
               quality_score := Some quality_score;
               confidence_score := 0.85;
               processing_time := processing_time;
               word_count := Z.of_nat (List.length (TextAnalyzer.split text));
               character_count := len text;
               metadata := [(lit "detected_language", VStr detected_lang)] |} in
      match attempt with
      | inr translation_result =>
          (inr translation_result,
           _cache_translation cache_key translation_result w1)
      | inl e => (inl (Exception (msg_google_failed ++ exn_str e)), w1)
      end
  end
  end.

(** [BaiduTranslationEngine.translate], with the engine's [app_id] and
    [secret_key]. *)
Definition BaiduTranslationEngine_translate (self : TranslationEngine)
  (app_id secret_key : option str)
  (text source_lang target_lang : str) (w : World)
  : Exc TranslationResult * World :=
  let start_time := time_time (requests w) in
  match get_cache_key self text source_lang target_lang with
  | inl e => (inl e, w)
  | inr cache_key =>
  match _get_cached_translation cache_key w with
  | Some cached_result => (inr cached_result, w)
  | None =>
      let salt := str_of_Z (randint 32768 65536 (requests w)) in
      let sign_str := format_opt app_id ++ text ++ salt ++ format_opt secret_key in
      (* [hashlib.md5(sign_str.encode())], inside the [try] *)
      match encode sign_str with
      | inl e => (inl (Exception (msg_baidu_failed ++ exn_str e)), w)
      | inr _ =>
      let sign := md5_hexdigest sign_str in
      let w1 :=
        send (BaiduRequest text source_lang target_lang app_id salt sign) w in
      let attempt : Exc TranslationResult :=
        result <- baidu_answer (requests w1) ;;
        match trans_result result with
        | Some items =>
            first <- match items with
                     | item :: _ => inr item
                     | [] => inl IndexError
                     end ;;
            translated_text <-
              match first with
              | Some dst => inr dst
              | None => inl (KeyError (lit "dst"))
              end ;;
            let processing_time := time_time (requests w1) - start_time in
            let quality_score :=
              TextAnalyzer.analyze_text_quality lower re_split re_findall
                re_search text translated_text source_lang target_lang in
            inr {| engine := name self;
                   model := lit "baidu-translate";
                   translated_text := translated_text;
                   source_language := source_lang;
                   target_language := target_lang;
                   quality_score := Some quality_score;
                   confidence_score := 0.82;
                   processing_time := processing_time;
                   word_count := Z.of_nat (List.length (TextAnalyzer.split text));
                   character_count := len text;
                   metadata := [] |}
        | None =>
            inl (Exception (msg_baidu_api_error ++ format_reply result))
        end in
      match attempt with
      | inr translation_result =>
          (inr translation_result,
           _cache_translation cache_key translation_result w1)
      | inl e => (inl (Exception (msg_baidu_failed ++ exn_str e)), w1)
      end
      end
  end
  end.

(** *** Vocabulary of the statements about the engines *)

(** What Redis holds under the key of a call, and the cached translation
    of the call; there is a key only when it can be computed. *)
Definition cache_entry (self : TranslationEngine)
  (text source_lang target_lang : str) (w : World) : Exc (option str) :=
  cache_key <- get_cache_key self text source_lang target_lang ;;
  redis_get (redis w) cache_key.

Definition cache_lookup (self : TranslationEngine)
  (text source_lang target_lang : str) (w : World)
  : Exc (option TranslationResult) :=
  cache_key <- get_cache_key self text source_lang target_lang ;;
  inr (_get_cached_translation cache_key w).

(** The string Baidu's signature is made of, the signed request, which
    exists only when that string can be encoded, and the answer to it. *)
Definition baidu_sign_str (app_id secret_key : option str) (text : str)
  (sent : list Request) : str :=
  format_opt app_id ++ text ++ str_of_Z (randint 32768 65536 sent)
  ++ format_opt secret_key.

Definition baidu_request (app_id secret_key : option str)
  (text source_lang target_lang : str) (sent : list Request) : Exc Request :=
  _ <- encode (baidu_sign_str app_id secret_key text sent) ;;
  inr (BaiduRequest text source_lang target_lang app_id
         (str_of_Z (randint 32768 65536 sent))
         (md5_hexdigest (baidu_sign_str app_id secret_key text sent))).

Definition baidu_reply (app_id secret_key : option str)
  (text source_lang target_lang : str) (w : World) : Exc BaiduReply :=
  req <- baidu_request app_id secret_key text source_lang target_lang
           (requests w) ;;
  baidu_answer (requests w ++ [req]).

End Engines.

(** The request the Google engine sends for a text. *)
Definition google_request (text source_lang target_lang : str) : Request :=
  GoogleRequest text
    (if PyStr.eqb source_lang (lit "auto") then None else Some source_lang)
    target_lang.

(** *** Sample stores, codecs and services *)

(** A Redis that keeps its values in a dictionary, and one that is down. *)
Definition dict_get : Dict.t str -> str -> Exc (option str) :=
  fun r k => inr (Dict.get r k).
Definition dict_setex : Dict.t str -> str -> Z -> str -> Exc (Dict.t str) :=
  fun r k _ v => inr (Dict.set r k v).
Definition down_get : Dict.t str -> str -> Exc (option str) :=
  fun _ _ => inl (Exception (lit "Connection refused")).
Definition down_setex : Dict.t str -> str -> Z -> str -> Exc (Dict.t str) :=
  fun _ _ _ _ => inl (Exception (lit "Connection refused")).

Definition sample_clock : list Request -> Q :=
  fun sent => inject_Z (Z.of_nat (List.length sent)).
Definition sample_randint : Z -> Z -> list Request -> Z := fun a _ _ => a.

Definition google_says (t : str) : list Request -> Exc GoogleReply :=
  fun _ => inr {| translatedText := Some t; detectedSourceLanguage := None |}.
Definition google_fails : list Request -> Exc GoogleReply :=
  fun _ => inl (Exception (lit "quota exceeded")).
Definition baidu_says (t : str) : list Request -> Exc BaiduReply :=
  fun _ => inr {| trans_result := Some [Some t] |}.
Definition baidu_refuses : list Request -> Exc BaiduReply :=
  fun _ => inr {| trans_result := None |}.
Definition sample_format_reply : BaiduReply -> str :=
  fun _ => lit "{'error_code': '52003'}".
Definition sample_encode_error : str -> str :=
  fun _ => lit "'utf-8' codec can't encode: surrogates not allowed".

(** The result the sample Google engine builds for [hello], and a codec
    that knows it. *)
Definition hola (eng model : str) (confidence : Q) (meta : kwargs)
  : TranslationResult :=
  {| engine := eng;
     model := model;
     translated_text := lit "hola";
     source_language := lit "en";
     target_language := lit "es";
     quality_score :=
       Some (TextAnalyzer.analyze_text_quality TextAnalyzer.ascii_lower
               TextAnalyzer.empty_split TextAnalyzer.empty_findall
               TextAnalyzer.failing_search
               (lit "hello") (lit "hola") (lit "en") (lit "es"));
     confidence_score := confidence;
     processing_time := sample_clock [GoogleRequest [] None []] - sample_clock [];
     word_count := 1;
     character_count := 5;
     metadata := meta |}.

Definition sample_dumps : TranslationResult -> Exc str :=
  fun res => inr (engine res ++ lit ":" ++ translated_text res).

Definition sample_loads : str -> Exc (option TranslationResult) :=
  fun raw =>
    if PyStr.eqb raw (lit "google:hola")
    then inr (Some (hola (lit "google") (lit "translate-v3") 0.85
                      [(lit "detected_language", VStr (lit "en"))]))
    else if PyStr.eqb raw (lit "baidu:hola")
    then inr (Some (hola (lit "baidu") (lit "baidu-translate") 0.82 []))
    else inl (Exception (lit "Expecting value")).

(** The sample engines on the text [hello], from English to Spanish. *)
Definition sample_self (n : str) : TranslationEngine := echo_engine n 0.

Definition sample_key (n : str) : str :=
  cache_key_of quote_key quote_value plain_digest (sample_self n)
    (lit "hello") (lit "en") (lit "es").

Definition empty_world : World (Dict.t str) :=
  {| redis := []; requests := [] |}.

Definition warm_world (n raw : str) : World (Dict.t str) :=
  {| redis := [(sample_key n, raw)]; requests := [] |}.

Definition sample_google_on (text : str)
  (get : Dict.t str -> str -> Exc (option str))
  (setex : Dict.t str -> str -> Z -> str -> Exc (Dict.t str))
  (answer : list Request -> Exc GoogleReply)
  : World (Dict.t str) -> Exc TranslationResult * World (Dict.t str) :=
  GoogleTranslationEngine_translate get setex sample_dumps sample_loads
    quote_key quote_value plain_digest TextAnalyzer.ascii_lower
    TextAnalyzer.empty_split TextAnalyzer.empty_findall
    TextAnalyzer.failing_search sample_clock answer sample_encode_error
    (sample_self (lit "google")) text (lit "en") (lit "es").

Definition sample_google := sample_google_on (lit "hello").

Definition sample_baidu_on (app_id : option str) (text : str)
  (get : Dict.t str -> str -> Exc (option str))
  (setex : Dict.t str -> str -> Z -> str -> Exc (Dict.t str))
  (answer : list Request -> Exc BaiduReply)
  : World (Dict.t str) -> Exc TranslationResult * World (Dict.t str) :=
  BaiduTranslationEngine_translate get setex sample_dumps sample_loads
    quote_key quote_value plain_digest TextAnalyzer.ascii_lower
    TextAnalyzer.empty_split TextAnalyzer.empty_findall
    TextAnalyzer.failing_search sample_clock sample_randint answer
    sample_format_reply sample_encode_error
    (sample_self (lit "baidu")) app_id (Some (lit "secret"))
    text (lit "en") (lit "es").

Definition sample_baidu := sample_baidu_on (Some (lit "id")) (lit "hello").

Definition hola_google : TranslationResult :=
  hola (lit "google") (lit "translate-v3") 0.85
    [(lit "detected_language", VStr (lit "en"))].

Definition hola_baidu : TranslationResult :=
  hola (lit "baidu") (lit "baidu-translate") 0.82 [].

End Adapters.

(* ================================================================== *)
(** ** services/file_service.py: reading the text of a file *)

Module Extraction.

Import Subtitles.

(** What [open(path, 'r', encoding=...)] and [f.read()] do: the text, the
    decoding error the function looks for, or another exception. *)
Inductive ReadOutcome : Type :=
| ReadText (text : str)
| UnicodeDecodeError
| ReadError (e : exn).

Definition msg_unknown_encoding : str :=
  [26080; 27861; 35782; 21035; 25991; 20214; 32534; 30721]%N.

(** The encodings [_extract_from_txt] tries, in its order. *)
Definition first_encoding : str := lit "utf-8".
Definition other_encodings : list str := [lit "gbk"; lit "gb2312"; lit "latin-1"].

Definition newline : str := [10%N].

Definition pat_tag : str := lit "<[^>]+>".

Section Extract.

(** Reading a file with an encoding; the paragraphs of a Word document;
    the texts of the pages of a PDF; the subtitles of an SRT file; and
    [re.sub]. *)
Variable read_file : str -> str -> ReadOutcome.
Variable docx_paragraphs : str -> Exc (list str).
Variable pdf_pages : str -> Exc (list str).
Variable pysrt_open : str -> Exc (list SubRipItem).
Variable re_sub : str -> str -> str -> Exc str.

(** The loop over [encodings] and the [raise] after it. *)
Fixpoint try_encodings (file_path : str) (encodings : list str) : Exc str :=
  match encodings with
  | [] => inl (ValueError msg_unknown_encoding)
  | encoding :: rest =>
      match read_file file_path encoding with
      | ReadText text => inr text
      | UnicodeDecodeError => try_encodings file_path rest
      | ReadError e => inl e
      end
  end.

Definition _extract_from_txt (file_path : str) : Exc str :=
  match read_file file_path first_encoding with
  | ReadText text => inr text
  | UnicodeDecodeError => try_encodings file_path other_encodings
  | ReadError e => inl e
  end.

(** The parts that are kept: those that are not blank. *)
Definition text_parts (parts : list str) : list str :=
  filter (fun part => negb (is_blank part)) parts.

Definition _extract_from_docx (file_path : str) : Exc str :=
  paragraphs <- docx_paragraphs file_path ;;
  inr (join newline (text_parts paragraphs)).

Definition _extract_from_pdf (file_path : str) : Exc str :=
  pages <- pdf_pages file_path ;;
  inr (join newline (text_parts pages)).

Definition _extract_from_srt (file_path : str) : Exc str :=
  subs <- pysrt_open file_path ;;
  text_parts <-
    ExcMonad.foldM
      (fun text_parts sub =>
         if is_blank (sub_text sub) then inr text_parts
         else clean_text <- re_sub pat_tag [] (sub_text sub) ;;
              inr (text_parts ++ [clean_text]))
      subs [] ;;
  inr (join newline text_parts).

End Extract.

(** *** Vocabulary of the statements about extraction *)

Definition encodings : list str := first_encoding :: other_encodings.

(** The first [k] encodings all fail to decode the file. *)
Definition undecodable (read_file : str -> str -> ReadOutcome)
  (file_path : str) (k : nat) : Prop :=
  forall j, (j < k)%nat ->
            read_file file_path (nth j encodings []) = UnicodeDecodeError.

(** A subtitle text that survives extraction and regeneration as one
    line: not blank, without surrounding whitespace, line break or tag. *)
Definition one_line (re_sub : str -> str -> str -> Exc str) (text : str) : Prop :=
  is_blank text = false /\ strip text = text /\ ~ In 10%N text
  /\ re_sub pat_tag [] text = inr text.

(** *** Samples *)

Definition sample_subs : list SubRipItem :=
  [ {| sub_index := 1; sub_start := 0; sub_end := 5; sub_text := lit "Hello" |};
    {| sub_index := 2; sub_start := 6; sub_end := 9; sub_text := lit "Good bye" |} ].

Definition no_tags : str -> str -> str -> Exc str := fun _ _ text => inr text.

(** A file that only decodes as GBK. *)
Definition gbk_file : str -> str -> ReadOutcome :=
  fun _ encoding =>
    if PyStr.eqb encoding (lit "gbk") then ReadText (lit "text")
    else UnicodeDecodeError.

End Extraction.

(* ================================================================== *)
(** ** utils/text_analyzer.py: readability *)

Module Readability.

Import TextAnalyzer.

(** A number of the result: an [int], or a [float].  The floats are kept
    abstract here (type [F] below): the averages are quotients of
    integers, rounded as the machine rounds them. *)
Inductive number (F : Type) : Type :=
| Int (z : Z)
| Float (x : F).

Arguments Int {F} z.
Arguments Float {F} x.

(** The metrics of [textstat] the English branch reads, in the order of
    its dictionary. *)
Definition english_metrics : list str :=
  [ lit "flesch_reading_ease"; lit "flesch_kincaid_grade"; lit "gunning_fog";
    lit "automated_readability_index"; lit "coleman_liau_index";
    lit "linsear_write_formula"; lit "dale_chall_readability_score" ].

(** The keys of the dictionary for the other languages. *)
Definition basic_metrics : list str :=
  [ lit "avg_sentence_length"; lit "avg_word_length"; lit "sentence_count";
    lit "word_count"; lit "character_count" ].

Section Scores.

(** Python's floats, and [a / b] on integers with [b] not 0. *)
Variable F : Type.
Variable truediv : Z -> Z -> F.

(** [re.split], and [getattr(textstat, metric)(text)]. *)
Variable re_split : str -> str -> Exc (list str).
Variable textstat : str -> str -> Exc (number F).

(** The body of the [try] block. *)
Definition readability_body (text language : str)
  : Exc (Dict.t (number F)) :=
  if PyStr.eqb language (lit "en") then
    ExcMonad.foldM
      (fun scores metric =>
         value <- textstat metric text ;;
         inr (Dict.set scores metric value))
      english_metrics []
  else
    pieces <- re_split pat_sentence_end text ;;
    let sentences := Z.of_nat (List.length pieces) in
    let words := Z.of_nat (List.length (split text)) in
    let characters := len text in
    if ((sentences >? 0) && (words >? 0))%Z then
      let avg_sentence_length := truediv words sentences in
      let avg_word_length := truediv characters words in
      inr [ (lit "avg_sentence_length", Float avg_sentence_length);
            (lit "avg_word_length", Float avg_word_length);
            (lit "sentence_count", Int sentences);
            (lit "word_count", Int words);
            (lit "character_count", Int characters) ]
    else inr [].

Definition calculate_readability_score (text language : str)
  : Dict.t (number F) :=
  if is_empty text then []
  else match readability_body text language with
       | inr scores => scores
       | inl _ => []
       end.

End Scores.

End Readability.

(* ================================================================== *)
(** * Properties *)

(** ** Strings and dictionaries *)

Module PyStrFacts.

Lemma eqb_eq (a b : str) : PyStr.eqb a b = true <-> a = b.
Proof.
  revert b; induction a as [|x a IH]; intros [|y b]; simpl;
    try (split; [discriminate | congruence]); try tauto.
  rewrite andb_true_iff, N.eqb_eq, IH.
  split; [intros [-> ->]; reflexivity | intros H; inversion H; auto].
Qed.

Lemma eqb_refl (a : str) : PyStr.eqb a a = true.
Proof. apply eqb_eq; reflexivity. Qed.

Lemma eqb_neq (a b : str) : PyStr.eqb a b = false <-> a <> b.
Proof.
  rewrite <- not_true_iff_false, eqb_eq; tauto.
Qed.

Lemma eqb_sym (a b : str) : PyStr.eqb a b = PyStr.eqb b a.
Proof.
  destruct (PyStr.eqb a b) eqn:E.
  - apply eqb_eq in E; subst; symmetry; apply eqb_refl.
  - symmetry; apply eqb_neq; apply eqb_neq in E; congruence.
Qed.

(** Distinctness of a list of literal keys. *)
Ltac nodup_literals :=
  simpl; repeat constructor; simpl;
  let H := fresh "H" in
  intros H; repeat (destruct H as [H|H]; try discriminate H); exact H.

Lemma is_empty_nil (s : str) : is_empty s = true <-> s = [].
Proof. destruct s; simpl; split; congruence. Qed.

Lemma blank_nil : is_blank [] = true.
Proof. reflexivity. Qed.

Lemma lstrip_blank (s : str) : is_blank s = true -> lstrip s = [].
Proof.
  induction s as [|c s IH]; simpl; auto.
  rewrite andb_true_iff; intros [-> H]; auto.
Qed.

Lemma lstrip_nonblank (s : str) : is_blank s = false -> is_blank (lstrip s) = false.
Proof.
  induction s as [|c s IH]; simpl; try discriminate.
  destruct (is_space c) eqn:E; simpl; auto.
  rewrite E; auto.
Qed.

Lemma blank_lstrip (s : str) : is_blank (lstrip s) = is_blank s.
Proof.
  destruct (is_blank s) eqn:E.
  - rewrite lstrip_blank; auto.
  - apply lstrip_nonblank; auto.
Qed.

Lemma rstrip_nil_iff (s : str) : rstrip s = [] <-> is_blank s = true.
Proof.
  induction s as [|c s IH]; simpl; [tauto|].
  destruct (rstrip s) as [|r rs] eqn:R.
  - destruct (is_space c); simpl.
    + rewrite <- IH; tauto.
    + split; discriminate.
  - split; [discriminate|].
    rewrite andb_true_iff; intros [_ H]; apply IH in H; discriminate.
Qed.

Lemma rstrip_blank (s : str) : is_blank s = true -> rstrip s = [].
Proof. apply rstrip_nil_iff. Qed.

Lemma blank_rstrip (s : str) : is_blank (rstrip s) = is_blank s.
Proof.
  induction s as [|c s IH]; simpl; auto.
  destruct (rstrip s) as [|r rs] eqn:R.
  - assert (B : is_blank s = true) by (apply rstrip_nil_iff; auto).
    rewrite B, andb_true_r.
    destruct (is_space c) eqn:E; simpl; rewrite ?E; auto.
  - change (is_blank (c :: r :: rs)) with (is_space c && is_blank (r :: rs)).
    rewrite IH; reflexivity.
Qed.

(** [rstrip] on a string with a known head. *)
Lemma rstrip_cons (c : char) (s : str) :
  rstrip (c :: s) = if is_space c && is_blank s then [] else c :: rstrip s.
Proof.
  simpl.
  destruct (rstrip s) as [|r rs] eqn:R.
  - assert (B : is_blank s = true) by (apply rstrip_nil_iff; auto).
    rewrite B, andb_true_r; destruct (is_space c); reflexivity.
  - assert (B : is_blank s = false).
    { destruct (is_blank s) eqn:B; auto.
      apply rstrip_nil_iff in B; congruence. }
    rewrite B, andb_false_r; reflexivity.
Qed.

Lemma lstrip_rstrip (s : str) : lstrip (rstrip s) = rstrip (lstrip s).
Proof.
  induction s as [|c s IH]; [reflexivity|].
  rewrite rstrip_cons.
  destruct (is_space c) eqn:E; simpl.
  - rewrite E. destruct (is_blank s) eqn:B; simpl.
    + rewrite lstrip_blank by auto; reflexivity.
    + rewrite E; exact IH.
  - rewrite E. rewrite rstrip_cons, E; reflexivity.
Qed.

Lemma lstrip_idem (s : str) : lstrip (lstrip s) = lstrip s.
Proof.
  induction s as [|c s IH]; simpl; auto.
  destruct (is_space c) eqn:E; auto.
  simpl; rewrite E; reflexivity.
Qed.

Lemma rstrip_idem (s : str) : rstrip (rstrip s) = rstrip s.
Proof.
  induction s as [|c s IH]; [reflexivity|].
  rewrite rstrip_cons.
  destruct (is_space c && is_blank s) eqn:E; [reflexivity|].
  rewrite rstrip_cons, blank_rstrip, E, IH; reflexivity.
Qed.

Lemma strip_lstrip (s : str) : strip (lstrip s) = strip s.
Proof. unfold strip; rewrite lstrip_idem; reflexivity. Qed.

Lemma strip_rstrip (s : str) : strip (rstrip s) = strip s.
Proof. unfold strip; rewrite lstrip_rstrip, rstrip_idem; reflexivity. Qed.

Lemma blank_strip (s : str) : is_blank (strip s) = is_blank s.
Proof. unfold strip; rewrite blank_rstrip, blank_lstrip; reflexivity. Qed.

Lemma blank_app (a b : str) : is_blank (a ++ b) = is_blank a && is_blank b.
Proof. apply forallb_app. Qed.

(** Stripping the left of a string whose first part is not blank. *)
Lemma lstrip_app (a b : str) :
  is_blank a = false -> lstrip (a ++ b) = lstrip a ++ b.
Proof.
  induction a as [|c a IH]; simpl; [discriminate|].
  destruct (is_space c); simpl; auto.
Qed.

Lemma rstrip_app (a b : str) :
  is_blank b = false -> rstrip (a ++ b) = a ++ rstrip b.
Proof.
  intros B; induction a as [|c a IH]; [reflexivity|].
  rewrite <- app_comm_cons, rstrip_cons, blank_app, B, !andb_false_r, IH.
  reflexivity.
Qed.

End PyStrFacts.

(** ** Splitting into chunks *)

Module ChunkingFacts.

Import FileService PyStrFacts.

Lemma term_free_cons (c : char) (s : str) :
  term_free (c :: s) <-> is_terminal c = false /\ term_free s.
Proof.
  unfold term_free; simpl; rewrite andb_true_iff, negb_true_iff; tauto.
Qed.

Lemma term_free_lstrip (s : str) : term_free s -> term_free (lstrip s).
Proof.
  induction s as [|c s IH]; simpl; auto.
  intros H; destruct (is_space c); auto.
  apply term_free_cons in H; tauto.
Qed.

Lemma term_free_rstrip (s : str) : term_free s -> term_free (rstrip s).
Proof.
  induction s as [|c s IH]; auto.
  intros H; apply term_free_cons in H; destruct H as [Hc Hs].
  rewrite rstrip_cons; destruct (is_space c && is_blank s); [reflexivity|].
  apply term_free_cons; auto.
Qed.

Lemma kept_lstrip (s : str) : kept s -> kept (lstrip s).
Proof.
  intros [T B]; split; [apply term_free_lstrip; auto|].
  rewrite blank_lstrip; auto.
Qed.

Lemma kept_rstrip (s : str) : kept s -> kept (rstrip s).
Proof.
  intros [T B]; split; [apply term_free_rstrip; auto|].
  rewrite blank_rstrip; auto.
Qed.

(** *** The pieces of the splitting pattern *)

Lemma re_split_term_free (text : str) :
  forall b, Forall term_free (re_split_from b text).
Proof.
  induction text as [|c rest IH]; intros b; simpl.
  - repeat constructor.
  - destruct (is_terminal c) eqn:T.
    + constructor; [reflexivity | apply IH].
    + destruct (b && is_space c); [apply IH|].
      specialize (IH false).
      destruct (re_split_from false rest) as [|p ps]; simpl.
      * repeat constructor. apply term_free_cons; split; auto; reflexivity.
      * inversion IH; subst; constructor; auto.
        apply term_free_cons; auto.
Qed.

Lemma re_split_piece_end (s : str) :
  term_free s -> forall b, re_split_from b s = [seen b s].
Proof.
  induction s as [|x s IH]; intros T b; simpl.
  - destruct b; reflexivity.
  - apply term_free_cons in T; destruct T as [Tx Ts].
    rewrite Tx.
    destruct b; simpl; [destruct (is_space x) eqn:E; simpl|].
    + rewrite (IH Ts true); reflexivity.
    + rewrite (IH Ts false); reflexivity.
    + rewrite (IH Ts false); reflexivity.
Qed.

Lemma re_split_piece (s : str) (c : char) (u : str) :
  term_free s -> is_terminal c = true ->
  forall b, re_split_from b (s ++ c :: u) = seen b s :: re_split_from true u.
Proof.
  intros T Hc; induction s as [|x s IH]; intros b; simpl.
  - rewrite Hc; destruct b; reflexivity.
  - apply term_free_cons in T; destruct T as [Tx Ts].
    rewrite Tx.
    destruct b; simpl; [destruct (is_space x) eqn:E; simpl|].
    + rewrite (IH Ts true); reflexivity.
    + rewrite (IH Ts false); reflexivity.
    + rewrite (IH Ts false); reflexivity.
Qed.

Lemma re_split_join (parts : list str) :
  Forall term_free parts ->
  forall p b,
    re_split_from b (join sentence_sep (p :: parts))
    = seen b p :: List.map lstrip parts \/ ~ term_free p.
Proof.
  induction parts as [|q parts IH]; intros F p b.
  - destruct (forallb (fun c => negb (is_terminal c)) p) eqn:T.
    + left; simpl; apply re_split_piece_end; exact T.
    + right; unfold term_free; congruence.
  - destruct (forallb (fun c => negb (is_terminal c)) p) eqn:T.
    2:{ right; unfold term_free; congruence. }
    left. inversion F as [|? ? Tq Fp]; subst.
    change (join sentence_sep (p :: q :: parts))
      with (p ++ 46%N :: 32%N :: join sentence_sep (q :: parts)).
    rewrite re_split_piece by (auto; reflexivity).
    f_equal.
    change (re_split_from true (32%N :: join sentence_sep (q :: parts)))
      with (re_split_from true (join sentence_sep (q :: parts))).
    destruct (IH Fp q true) as [E|N]; [exact E | contradiction].
Qed.

(** Joining kept sentences and taking the sentence sequence again gives
    the sentences back, stripped. *)
Lemma sentence_sequence_join (parts : list str) :
  Forall kept parts ->
  sentence_sequence (join sentence_sep parts) = List.map strip parts.
Proof.
  intros F; destruct parts as [|p parts]; [reflexivity|].
  inversion F as [|? ? [Tp Bp] Fp]; subst.
  unfold sentence_sequence, re_split_sentences.
  destruct (@re_split_join parts) with (p := p) (b := false) as [E|N];
    [eapply Forall_impl; [|exact Fp]; intros ? [? ?]; auto | | contradiction].
  rewrite E; simpl. unfold nonblank at 1; rewrite Bp; simpl.
  f_equal.
  clear E F Tp Bp. induction Fp as [|q parts [Tq Bq] Fp IH]; [reflexivity|].
  simpl. unfold nonblank at 1. rewrite blank_lstrip, Bq; simpl.
  rewrite strip_lstrip, IH; reflexivity.
Qed.

End ChunkingFacts.

Module ChunkLoopFacts.

Import FileService PyStrFacts ChunkingFacts.

Lemma join_cons (sep p : str) (ps : list str) :
  ps <> [] -> join sep (p :: ps) = p ++ sep ++ join sep ps.
Proof. destruct ps; [congruence | reflexivity]. Qed.

Lemma join_app (sep : str) (a b : list str) :
  a <> [] -> b <> [] -> join sep (a ++ b) = join sep a ++ sep ++ join sep b.
Proof.
  intros Ha Hb; induction a as [|p a IH]; [congruence|].
  destruct a as [|q a].
  - simpl app. rewrite join_cons by auto. reflexivity.
  - rewrite <- app_comm_cons, join_cons by discriminate.
    rewrite IH by discriminate.
    rewrite (@join_cons sep p (q :: a)) by discriminate.
    rewrite <- !app_assoc; reflexivity.
Qed.

Lemma join_kept_nonblank (g : list str) :
  Forall kept g -> g <> [] -> is_blank (join sentence_sep g) = false.
Proof.
  intros F N; destruct g as [|p g]; [congruence|].
  inversion F as [|? ? [_ B] _]; subst.
  destruct g.
  - exact B.
  - rewrite join_cons by discriminate. rewrite blank_app, B; reflexivity.
Qed.

(** Stripping a chunk only strips its first and its last sentence. *)
Lemma strip_join (g : list str) :
  Forall kept g -> g <> [] ->
  exists g', join sentence_sep g' = strip (join sentence_sep g)
             /\ List.map strip g' = List.map strip g
             /\ Forall kept g' /\ g' <> [].
Proof.
  intros F N. destruct g as [|p g]; [congruence|].
  inversion F as [|? ? Kp Fg]; subst.
  assert (L : lstrip (join sentence_sep (p :: g))
              = join sentence_sep (lstrip p :: g)).
  { destruct g; [reflexivity|].
    rewrite !join_cons by discriminate.
    apply lstrip_app, Kp. }
  assert (F1 : Forall kept (lstrip p :: g))
    by (constructor; [apply kept_lstrip|]; auto).
  destruct (@exists_last _ (lstrip p :: g)) as [i [l E]]; [discriminate|].
  rewrite E in F1. apply Forall_app in F1. destruct F1 as [Fi Fl].
  inversion Fl as [|? ? Kl _]; subst.
  exists (i ++ [rstrip l]). repeat split.
  - unfold strip; rewrite L, E.
    destruct i as [|j i].
    + reflexivity.
    + rewrite !join_app by discriminate.
      change (join sentence_sep [rstrip l]) with (rstrip l).
      change (join sentence_sep [l]) with l.
      rewrite !app_assoc.
      rewrite rstrip_app by apply Kl. reflexivity.
  - transitivity (List.map strip (lstrip p :: g)).
    + rewrite E, !map_app; simpl; rewrite strip_rstrip; reflexivity.
    + simpl; rewrite strip_lstrip; reflexivity.
  - apply Forall_app; split; auto.
    constructor; [apply kept_rstrip; auto | constructor].
  - destruct i; discriminate.
Qed.

Lemma spells_snoc (chunks w g : list str) :
  spells chunks w -> Forall kept g -> g <> [] ->
  spells (chunks ++ [join sentence_sep g]) (w ++ g).
Proof.
  intros (J & E & F) Fg Ng. repeat split.
  - destruct chunks as [|c chunks].
    + assert (w = []) as -> by (apply E; reflexivity). reflexivity.
    + assert (w <> []) by (intros W; apply E in W; discriminate).
      rewrite !join_app by (auto; discriminate).
      rewrite J; reflexivity.
  - intros H; destruct chunks; discriminate.
  - intros H; apply app_eq_nil in H; tauto.
  - apply Forall_app; auto.
Qed.

Lemma chunk_loop_spells (chunk_size : Z) (sentences : list str) :
  Forall term_free sentences ->
  forall chunks w g,
    spells chunks w -> Forall kept g ->
    exists w',
      spells (chunk_loop chunk_size sentences chunks (join sentence_sep g)) w'
      /\ List.map strip w'
         = List.map strip (w ++ g ++ filter nonblank sentences).
Proof.
  induction 1 as [|s sentences Ts Fs IH]; intros chunks w g Sp Fg;
    cbn [chunk_loop filter].
  - rewrite app_nil_r.
    destruct g as [|p g].
    + exists w; simpl; rewrite app_nil_r; auto.
    + rewrite join_kept_nonblank by (auto; discriminate).
      destruct (@strip_join (p :: g)) as (g' & J & M & F' & N');
        [auto | discriminate |].
      exists (w ++ g'). rewrite <- J. split.
      * apply spells_snoc; auto.
      * rewrite !map_app, M; reflexivity.
  - replace (nonblank s) with (negb (is_blank s)) by reflexivity.
    destruct (is_blank s) eqn:B; cbn [negb]; [apply IH; auto|].
    assert (Ks : kept s) by (split; auto).
    destruct g as [|p g].
    + simpl join. rewrite andb_false_r. simpl negb.
      destruct (IH chunks w [s] Sp) as (w' & S' & M');
        [repeat constructor; auto|].
      exists w'; auto.
    + assert (NE : is_empty (join sentence_sep (p :: g)) = false).
      { destruct (join sentence_sep (p :: g)) eqn:J; auto.
        pose proof (@join_kept_nonblank (p :: g) Fg) as X.
        rewrite J in X. discriminate X. discriminate. }
      rewrite NE. simpl negb. rewrite andb_true_r.
      destruct (len (join sentence_sep (p :: g)) + len s >? chunk_size)%Z.
      * destruct (@strip_join (p :: g)) as (g' & J & M & F' & N');
          [auto | discriminate |].
        rewrite <- J.
        destruct (IH (chunks ++ [join sentence_sep g']) (w ++ g') [s])
          as (w' & S' & M'); [apply spells_snoc; auto | repeat constructor; auto |].
        exists w'; split; [exact S'|].
        rewrite M'. rewrite !map_app, M. simpl. rewrite <- !app_assoc.
        reflexivity.
      * replace (join sentence_sep (p :: g) ++ sentence_sep ++ s)
          with (join sentence_sep ((p :: g) ++ [s]))
          by (rewrite join_app by discriminate; reflexivity).
        destruct (IH chunks w ((p :: g) ++ [s]) Sp) as (w' & S' & M');
          [apply Forall_app; split; auto|].
        exists w'; split; [exact S'|].
        rewrite M'. rewrite <- !app_assoc. reflexivity.
Qed.

End ChunkLoopFacts.

Module ChunkingSpec.

Import FileService PyStrFacts ChunkingFacts ChunkLoopFacts.

Example re_split_consumes_whitespace :
  re_split_sentences (lit "a..  b! ") = [lit "a"; []; lit "b"; []].
Proof. vm_compute. reflexivity. Qed.

Example re_split_fullwidth_stop :
  re_split_sentences (lit "ab" ++ [12290%N] ++ lit "cd") = [lit "ab"; lit "cd"].
Proof. vm_compute. reflexivity. Qed.

Example split_three_sentences :
  split_text_into_chunks (lit "One. Two!  Three?") (Some 8%Z)
  = [lit "One. Two"; lit "Three"].
Proof. vm_compute. reflexivity. Qed.

Example split_short_text :
  split_text_into_chunks (lit "Hello world. This is great.") None
  = [lit "Hello world. This is great."].
Proof. vm_compute. reflexivity. Qed.

Example split_long_sentence_kept_whole :
  split_text_into_chunks (lit " abcdefgh . ij") (Some 4%Z)
  = [lit "abcdefgh"; lit "ij"].
Proof. vm_compute. reflexivity. Qed.

(** C6.  Splitting is a function of the text and the budget, so two runs
    give the same chunks; a text no longer than the budget is returned as
    its single chunk; and the chunks, joined by the separator the splitter
    itself puts between sentences, have the sentence sequence of the
    original text. *)
Theorem split_text_into_chunks_deterministic_covering
  (text : str) (chunk_size : option Z) :
  (forall first second,
      first = split_text_into_chunks text chunk_size ->
      second = split_text_into_chunks text chunk_size ->
      first = second)
  /\ ((len text <= match chunk_size with
                   | None => default_chunk_size
                   | Some n => n
                   end)%Z ->
      split_text_into_chunks text chunk_size = [text])
  /\ sentence_sequence (join sentence_sep (split_text_into_chunks text chunk_size))
     = sentence_sequence text.
Proof.
  split; [congruence|].
  unfold split_text_into_chunks.
  set (n := match chunk_size with None => default_chunk_size | Some m => m end).
  destruct (len text <=? n)%Z eqn:L.
  - split; reflexivity.
  - split; [intros H; apply Z.leb_le in H; congruence|].
    destruct (@chunk_loop_spells n (re_split_sentences text)
                (re_split_term_free text false) [] [] [])
      as (w & (J & _ & F) & M).
    + repeat split; auto.
    + constructor.
    + change (join sentence_sep []) with (@nil char) in J.
      rewrite J, sentence_sequence_join by exact F.
      rewrite M. reflexivity.
Qed.

Lemma split_text_into_chunks_witness :
  split_text_into_chunks (lit "Hello world. This is great.") None
  = [lit "Hello world. This is great."]
  /\ sentence_sequence
       (join sentence_sep
          (split_text_into_chunks (lit "One. Two!  Three?") (Some 8%Z)))
     = sentence_sequence (lit "One. Two!  Three?").
Proof.
  split.
  - apply (split_text_into_chunks_deterministic_covering
             (lit "Hello world. This is great.") None).
    vm_compute. discriminate.
  - apply (split_text_into_chunks_deterministic_covering
             (lit "One. Two!  Three?") (Some 8%Z)).
Defined.

End ChunkingSpec.

(** ** Dictionaries *)

Module DictFacts.

Import PyStrFacts.

Section WithValue.
Variable V : Type.
Implicit Types (d : Dict.t V) (k : str) (v : V).

Lemma get_none d k : Dict.get d k = None <-> ~ In k (Dict.keys d).
Proof.
  induction d as [|[k' v'] d IH]; simpl; [tauto|].
  destruct (PyStr.eqb k' k) eqn:E.
  - apply eqb_eq in E; subst. split; [discriminate | tauto].
  - apply eqb_neq in E. rewrite IH. tauto.
Qed.

Lemma get_some_in d k v : Dict.get d k = Some v -> In (k, v) d.
Proof.
  induction d as [|[k' v'] d IH]; simpl; [discriminate|].
  destruct (PyStr.eqb k' k) eqn:E.
  - apply eqb_eq in E; subst. intros H; inversion H; auto.
  - auto.
Qed.

Lemma get_in_nodup d k v :
  NoDup (Dict.keys d) -> In (k, v) d -> Dict.get d k = Some v.
Proof.
  induction d as [|[k' v'] d IH]; simpl; [tauto|].
  intros N [H|H]; inversion N; subst.
  - inversion H; subst. rewrite eqb_refl; reflexivity.
  - destruct (PyStr.eqb k' k) eqn:E; auto.
    apply eqb_eq in E; subst.
    exfalso. apply H2. apply (in_map fst) in H. exact H.
Qed.

Lemma set_fresh d k v :
  ~ In k (Dict.keys d) -> Dict.set d k v = d ++ [(k, v)].
Proof.
  induction d as [|[k' v'] d IH]; simpl; auto.
  intros N. destruct (PyStr.eqb k' k) eqn:E.
  - apply eqb_eq in E; subst; tauto.
  - rewrite IH by tauto. reflexivity.
Qed.

Lemma keys_set d k v :
  incl (Dict.keys (Dict.set d k v)) (k :: Dict.keys d).
Proof.
  induction d as [|[k' v'] d IH]; simpl.
  - intros x H; exact H.
  - destruct (PyStr.eqb k' k); simpl.
    + intros x H; right; exact H.
    + intros x [H|H]; [right; left; exact H|].
      apply IH in H. destruct H; [left | right; right]; auto.
Qed.

Lemma keys_app d1 d2 : Dict.keys (d1 ++ d2) = Dict.keys d1 ++ Dict.keys d2.
Proof. apply map_app. Qed.

End WithValue.

End DictFacts.

(** ** Selecting the best translation *)

Module SelectBestSpec.

Import TranslationService TextAnalyzer.
Local Open Scope Q_scope.

Lemma Qlt_bool_iff (a b : Q) : Qlt_bool a b = true <-> a < b.
Proof.
  unfold Qlt_bool. rewrite negb_true_iff, <- not_true_iff_false, Qle_bool_iff.
  split; [apply Qnot_le_lt | apply Qlt_not_le].
Qed.

Lemma Qlt_bool_false (a b : Q) : Qlt_bool a b = false <-> b <= a.
Proof.
  unfold Qlt_bool. rewrite negb_false_iff. apply Qle_bool_iff.
Qed.

Lemma select_best_empty : _select_best_translation [] = None.
Proof. reflexivity. Qed.

Lemma select_best_unfold (results : Dict.t TranslationResult) :
  _select_best_translation results = select_loop results None 0.
Proof. destruct results; reflexivity. Qed.

(** The loop returns the first result of strictly highest score above the
    starting score, and the starting result when there is none. *)
Lemma select_loop_first_max (items : list (str * TranslationResult)) :
  forall best score b,
    select_loop items best score = Some b ->
    (best = Some b
     /\ forall r, In r (Dict.values items) -> get_quality_score r <= score)
    \/ (exists before k after,
           items = before ++ (k, b) :: after
           /\ score < get_quality_score b
           /\ (forall r, In r (Dict.values before) ->
                         get_quality_score r < get_quality_score b)
           /\ (forall r, In r (Dict.values after) ->
                         get_quality_score r <= get_quality_score b)).
Proof.
  induction items as [|[k r] items IH]; intros best score b; simpl.
  - intros ->; left; split; [reflexivity | tauto].
  - destruct (Qlt_bool score (get_quality_score r)) eqn:L; intros H;
      apply IH in H.
    + apply Qlt_bool_iff in L. right.
      destruct H as [[E A] | (before & k' & after & E & S & B & A)].
      * inversion E; subst. exists [], k, items. repeat split; auto.
        simpl; tauto.
      * exists ((k, r) :: before), k', after. subst items.
        repeat split; auto.
        -- eapply Qlt_trans; eauto.
        -- simpl; intros r' [<-|I]; auto.
    + apply Qlt_bool_false in L.
      destruct H as [[E A] | (before & k' & after & E & S & B & A)].
      * left; split; auto. intros r' [<-|I]; auto.
      * right. exists ((k, r) :: before), k', after. subst items.
        repeat split; auto.
        simpl; intros r' [<-|I]; auto.
        eapply Qle_lt_trans; eauto.
Qed.

Lemma select_loop_none (items : list (str * TranslationResult)) :
  forall score,
    select_loop items None score = None <->
    forall r, In r (Dict.values items) -> get_quality_score r <= score.
Proof.
  induction items as [|[k r] items IH]; intros score; simpl.
  - tauto.
  - destruct (Qlt_bool score (get_quality_score r)) eqn:L.
    + apply Qlt_bool_iff in L. split.
      * intros H. exfalso.
        assert (X : forall i best s, best <> None -> select_loop i best s <> None).
        { clear. induction i as [|[k r] i IHi]; simpl; auto.
          intros best s N. destruct (Qlt_bool s (get_quality_score r));
            apply IHi; [discriminate | exact N]. }
        eapply X; [|exact H]. discriminate.
      * intros H. exfalso. apply (Qlt_not_le _ _ L). apply H; auto.
    + apply Qlt_bool_false in L. rewrite IH. split.
      * intros H r' [<-|I]; auto.
      * intros H r' I; apply H; auto.
Qed.

(** What the selection does return: when it returns a result, that result
    is an entry of [results], has a positive score, no entry beats it, and
    every entry before it scores strictly less. *)
Lemma select_best_first_max (results : Dict.t TranslationResult)
  (b : TranslationResult) :
  _select_best_translation results = Some b ->
  exists before k after,
    results = before ++ (k, b) :: after
    /\ 0 < get_quality_score b
    /\ (forall r, In r (Dict.values before) ->
                  get_quality_score r < get_quality_score b)
    /\ (forall r, In r (Dict.values after) ->
                  get_quality_score r <= get_quality_score b).
Proof.
  rewrite select_best_unfold. intros H.
  apply select_loop_first_max in H.
  destruct H as [[E _] | H]; [discriminate | exact H].
Qed.

Lemma select_best_none_iff (results : Dict.t TranslationResult) :
  _select_best_translation results = None <->
  forall r, In r (Dict.values results) -> get_quality_score r <= 0.
Proof. rewrite select_best_unfold. apply select_loop_none. Qed.

Lemma select_best_positive (results : Dict.t TranslationResult) :
  (exists r, In r (Dict.values results) /\ 0 < get_quality_score r) ->
  _select_best_translation results <> None.
Proof.
  intros (r & I & P) H.
  apply (Qlt_not_le _ _ P). eapply select_best_none_iff; eauto.
Qed.

(** C1.  A non-empty [results] all of whose scores are 0 has no best
    translation: the loop starts from [best_score = 0] and only a strictly
    higher score replaces [None].  The entry is one an engine produces for
    an empty translation. *)
Theorem select_best_zero_score_is_none :
  let results := [(lit "openai", sample_result (lit "openai") [] 0)] in
  results <> []
  /\ _select_best_translation results = None.
Proof.
  cbv zeta. split; [discriminate | reflexivity].
Qed.

End SelectBestSpec.

(** ** The orchestrator *)

Module OrchestratorFacts.

Import TranslationService PyStrFacts DictFacts.

Lemma snoc_neq (A : Type) (l : list A) (x : A) : l ++ [x] <> l.
Proof.
  intros H. apply (f_equal (@List.length A)) in H.
  rewrite length_app in H. simpl in H. lia.
Qed.

(** *** [translate] *)

Section Translate.

Variable langdetect : str -> Exc str.
Variable self : Service.

Lemma translate_invalid text sl tl engine kw log :
  is_blank text = true
  \/ (MAX_TRANSLATION_LENGTH (settings self) < len text)%Z ->
  exists m,
    translate langdetect self text sl tl engine kw log = (inl (ValueError m), log).
Proof.
  unfold translate. intros [B|L].
  - rewrite B. eexists; reflexivity.
  - destruct (is_blank text); [eexists; reflexivity|].
    apply Z.gtb_lt in L. rewrite L. eexists; reflexivity.
Qed.

Lemma translate_valid text sl tl engine kw :
  is_blank text = false ->
  (len text <= MAX_TRANSLATION_LENGTH (settings self))%Z ->
  translate langdetect self text sl tl engine kw
  = match Dict.get (engines self) engine with
    | Some eng =>
        await_translate eng text (resolved_source_lang langdetect text sl) tl kw
    | None =>
        match engines self with
        | [] => raise (Exception msg_no_engine)
        | (_, eng) :: _ =>
            await_translate eng text (resolved_source_lang langdetect text sl) tl kw
        end
    end.
Proof.
  intros B L. unfold translate. rewrite B.
  assert (G : (len text >? MAX_TRANSLATION_LENGTH (settings self))%Z = false).
  { rewrite Z.gtb_ltb. apply Z.ltb_ge. exact L. }
  rewrite G. reflexivity.
Qed.

(** The value [translate] returns does not depend on the calls made
    before it. *)
Lemma translate_fst text sl tl engine kw log :
  fst (translate langdetect self text sl tl engine kw log)
  = fst (translate langdetect self text sl tl engine kw []).
Proof.
  unfold translate.
  destruct (is_blank text); [reflexivity|].
  destruct (len text >? _)%Z; [reflexivity|].
  destruct (Dict.get (engines self) engine); [reflexivity|].
  destruct (engines self) as [|[k eng] rest]; reflexivity.
Qed.

End Translate.

(** *** [compare_translations] *)

Section Compare.

Variables text source_lang target_lang : str.

Lemma run_tasks_cons k eng rest results errors log :
  run_tasks text source_lang target_lang ((k, eng) :: rest) results errors log
  = match engine_translate eng text source_lang target_lang [] with
    | inr r =>
        run_tasks text source_lang target_lang rest
          (Dict.set results k r) errors
          (log ++ [task_call text source_lang target_lang (k, eng)])
    | inl e =>
        run_tasks text source_lang target_lang rest
          results (Dict.set errors k (exn_str e))
          (log ++ [task_call text source_lang target_lang (k, eng)])
    end.
Proof.
  cbn [run_tasks]. unfold bind at 1, try_except, bind, await_translate, ret.
  destruct (engine_translate eng text source_lang target_lang []); reflexivity.
Qed.

(** Every task settles: the loop returns, and it only adds keys of tasks. *)
Lemma run_tasks_returns tasks :
  forall results errors log,
  exists results' errors' log',
    run_tasks text source_lang target_lang tasks results errors log
    = (inr (results', errors'), log')
    /\ incl (Dict.keys results') (Dict.keys results ++ List.map fst tasks)
    /\ incl (Dict.keys errors') (Dict.keys errors ++ List.map fst tasks).
Proof.
  induction tasks as [|[k eng] tasks IH]; intros results errors log.
  - exists results, errors, log. simpl. rewrite !app_nil_r.
    repeat split; apply incl_refl.
  - rewrite run_tasks_cons.
    destruct (engine_translate eng text source_lang target_lang []) as [e|r].
    + destruct (IH results (Dict.set errors k (exn_str e))
                  (log ++ [task_call text source_lang target_lang (k, eng)]))
        as (R & E & L & Eq & IR & IE).
      exists R, E, L. repeat split; auto.
      * intros x H. apply IR in H. apply in_app_iff in H. apply in_app_iff.
        simpl. tauto.
      * intros x H. apply IE in H. apply in_app_iff in H.
        destruct H as [H|H].
        -- apply keys_set in H. apply in_app_iff. simpl in *. tauto.
        -- apply in_app_iff. simpl. tauto.
    + destruct (IH (Dict.set results k r) errors
                  (log ++ [task_call text source_lang target_lang (k, eng)]))
        as (R & E & L & Eq & IR & IE).
      exists R, E, L. repeat split; auto.
      * intros x H. apply IR in H. apply in_app_iff in H.
        destruct H as [H|H].
        -- apply keys_set in H. apply in_app_iff. simpl in *. tauto.
        -- apply in_app_iff. simpl. tauto.
      * intros x H. apply IE in H. apply in_app_iff in H. apply in_app_iff.
        simpl. tauto.
Qed.

(** With distinct task keys not yet in the dictionaries, the loop appends
    one entry per task, in task order. *)
Lemma run_tasks_fresh tasks :
  NoDup (List.map fst tasks) ->
  forall results errors log,
    (forall k, In k (List.map fst tasks) ->
               ~ In k (Dict.keys results) /\ ~ In k (Dict.keys errors)) ->
    run_tasks text source_lang target_lang tasks results errors log
    = (inr (results ++ task_results text source_lang target_lang tasks,
            errors ++ task_errors text source_lang target_lang tasks),
       log ++ List.map (task_call text source_lang target_lang) tasks).
Proof.
  induction tasks as [|[k eng] tasks IH]; intros N results errors log F.
  - simpl. rewrite !app_nil_r. reflexivity.
  - rewrite run_tasks_cons. inversion N as [|? ? Nk Nt]; subst.
    destruct (F k (or_introl eq_refl)) as [FR FE].
    cbn [task_results task_errors flat_map List.map fst snd].
    destruct (engine_translate eng text source_lang target_lang []) as [e|r].
    + rewrite IH; auto.
      * rewrite set_fresh by auto. rewrite <- !app_assoc. reflexivity.
      * intros k' I. destruct (F k' (or_intror I)) as [FR' FE'].
        split; auto. rewrite set_fresh, keys_app, in_app_iff by auto.
        simpl. intros [H|[H|[]]]; [tauto|]. subst. contradiction.
    + rewrite IH; auto.
      * rewrite set_fresh by auto. rewrite <- !app_assoc. reflexivity.
      * intros k' I. destruct (F k' (or_intror I)) as [FR' FE'].
        split; auto. rewrite set_fresh, keys_app, in_app_iff by auto.
        simpl. intros [H|[H|[]]]; [tauto|]. subst. contradiction.
Qed.

End Compare.

Section Tasks.

Variable self : Service.

Lemma make_tasks_in requested k eng :
  In (k, eng) (make_tasks self requested) ->
  In k requested /\ Dict.get (engines self) k = Some eng.
Proof.
  induction requested as [|x requested IH]; simpl; [tauto|].
  destruct (Dict.get (engines self) x) as [e|] eqn:G.
  - intros [H|H].
    + inversion H; subst; auto.
    + apply IH in H; tauto.
  - intros H; apply IH in H; tauto.
Qed.

Lemma make_tasks_nodup requested :
  NoDup requested -> NoDup (List.map fst (make_tasks self requested)).
Proof.
  induction 1 as [|x requested Nx N IH]; simpl; [constructor|].
  destruct (Dict.get (engines self) x) as [e|]; auto.
  simpl. constructor; auto.
  intros I. apply in_map_iff in I. destruct I as [[k eng] [<- I]].
  apply make_tasks_in in I. simpl in Nx. tauto.
Qed.

Lemma make_tasks_unknown requested :
  (forall k, In k requested -> ~ In k (Dict.keys (engines self))) ->
  make_tasks self requested = [].
Proof.
  induction requested as [|x requested IH]; simpl; auto.
  intros H.
  assert (G : Dict.get (engines self) x = None) by (apply get_none; auto).
  rewrite G. auto.
Qed.

Lemma make_tasks_all :
  NoDup (Dict.keys (engines self)) ->
  make_tasks self (Dict.keys (engines self)) = engines self.
Proof.
  intros N.
  assert (X : forall suffix,
             incl suffix (engines self) ->
             make_tasks self (Dict.keys suffix) = suffix).
  { induction suffix as [|[k eng] suffix IH]; intros I; simpl; auto.
    rewrite (@get_in_nodup _ (engines self) k eng N) by (apply I; left; auto).
    rewrite IH; auto.
    intros x H; apply I; right; auto. }
  apply X, incl_refl.
Qed.

End Tasks.

(** Counting the outcomes when a single engine raises. *)
Section OneFailure.

Variables text source_lang target_lang : str.

Local Abbreviation succeeds := (succeeds_on text source_lang target_lang).

Lemma all_succeed (d : Dict.t TranslationEngine) :
  (forall k eng, In (k, eng) d -> succeeds eng) ->
  task_errors text source_lang target_lang d = []
  /\ Dict.keys (task_results text source_lang target_lang d) = Dict.keys d.
Proof.
  induction d as [|[k eng] d IH]; intros S; [split; reflexivity|].
  destruct (S k eng (or_introl eq_refl)) as [r E].
  destruct IH as [IE IR]; [intros k' e' I; eapply S; right; eauto|].
  cbn [task_errors task_results flat_map fst snd]. rewrite E. simpl.
  split; [exact IE | f_equal; exact IR].
Qed.

Lemma one_fails (d : Dict.t TranslationEngine) (f : str)
  (eng_f : TranslationEngine) (e : exn) :
  NoDup (Dict.keys d) ->
  In (f, eng_f) d ->
  engine_translate eng_f text source_lang target_lang [] = inl e ->
  (forall k eng, In (k, eng) d -> k <> f -> succeeds eng) ->
  task_errors text source_lang target_lang d = [(f, exn_str e)]
  /\ S (List.length (task_results text source_lang target_lang d))
     = List.length d
  /\ (forall k, In k (Dict.keys (task_results text source_lang target_lang d))
                <-> In k (Dict.keys d) /\ k <> f).
Proof.
  induction d as [|[k eng] d IH]; intros N I Ef S; [destruct I|].
  inversion N as [|? ? Nk Nd]; subst.
  cbn [task_errors task_results flat_map fst snd].
  destruct I as [I|I].
  - inversion I; subst. rewrite Ef.
    destruct (@all_succeed d) as [AE AR].
    { intros k' e' I'. apply (S k' e'); [right; auto|].
      intros ->. apply Nk. apply (in_map fst) in I'. exact I'. }
    fold (task_errors text source_lang target_lang d).
    fold (task_results text source_lang target_lang d).
    rewrite AE. simpl. repeat split.
    + f_equal. rewrite <- (length_map fst), <- (length_map fst d).
      f_equal. exact AR.
    + rewrite AR in H. auto.
    + rewrite AR in H. intros ->. auto.
    + intros [[->|H] Hn]; [congruence|]. rewrite AR. exact H.
  - assert (K : k <> f).
    { intros ->. apply Nk. apply (in_map fst) in I. exact I. }
    destruct (S k eng (or_introl eq_refl) K) as [r E]. rewrite E.
    destruct IH as (IE & IL & IK); auto.
    { intros k' e' I' Kn. apply (S k' e'); [right; auto | auto]. }
    fold (task_errors text source_lang target_lang d).
    fold (task_results text source_lang target_lang d).
    simpl. repeat split.
    + exact IE.
    + f_equal. exact IL.
    + destruct H as [<-|H]; [left; reflexivity|]. apply IK in H. tauto.
    + destruct H as [<-|H]; [exact K|]. apply IK in H. tauto.
    + intros [[->|H] Hn]; [left; reflexivity|]. right. apply IK. tauto.
Qed.

End OneFailure.

End OrchestratorFacts.

Module OrchestratorSpec.

Import TranslationService PyStrFacts DictFacts OrchestratorFacts SelectBestSpec.

Example compare_two_engines_one_failing :
  fst (compare_translations no_langdetect
         (service_of [(lit "openai", echo_engine (lit "openai") 80);
                      (lit "baidu", failing_engine (lit "baidu"))])
         (lit "hello") (lit "en") (lit "zh") None [])
  = inr {| source_text := lit "hello";
           cmp_source_language := lit "en";
           cmp_target_language := lit "zh";
           results := [(lit "openai", sample_result (lit "openai") (lit "hello") 80)];
           errors := [(lit "baidu", lit "baidu: quota")];
           best_translation := Some (sample_result (lit "openai") (lit "hello") 80) |}.
Proof. vm_compute. reflexivity. Qed.

Example compare_tie_keeps_first :
  option_map engine
    (_select_best_translation
       [(lit "a", sample_result (lit "a") (lit "x") 70);
        (lit "b", sample_result (lit "b") (lit "y") 90);
        (lit "c", sample_result (lit "c") (lit "z") 90)])
  = Some (lit "b").
Proof. vm_compute. reflexivity. Qed.

(** C3, as stated, at one provider: the only provider raises, no provider
    succeeds, [results] has the 0 entries and [errors] the one entry the
    claim asks for, and the call returns, but there is nothing to select
    and [best_translation] is [None]. *)
Lemma compare_single_failing_provider_has_no_best :
  let self := service_of [(lit "baidu", failing_engine (lit "baidu"))] in
  let out := compare_translations no_langdetect self
               (lit "hello") (lit "en") (lit "zh") None [] in
  always_raises (failing_engine (lit "baidu"))
  /\ List.length (engines self) = 1%nat
  /\ exists cmp,
       fst out = inr cmp
       /\ List.length (results cmp) = (List.length (engines self) - 1)%nat
       /\ errors cmp = [(lit "baidu", lit "baidu: quota")]
       /\ best_translation cmp = None.
Proof.
  cbv zeta. split; [|split; [reflexivity|]].
  - intros t s g k. eexists; reflexivity.
  - eexists. split; [vm_compute; reflexivity|].
    repeat split.
Qed.

(** C3, amended.  Over the N providers a compare call selects (all the
    configured ones by default), of which exactly one raises and the others
    return: the call returns; [results] holds the N-1 providers that
    returned; [errors] holds exactly the failing provider with the message
    of its exception; and [best_translation] is not [None] as soon as one
    of the results has a positive score. *)
Theorem compare_one_provider_failing
  (langdetect : str -> Exc str) (self : Service)
  (text source_lang target_lang : str) (requested : option (list str))
  (log : list Call) (f : str) (eng_f : TranslationEngine) :
  let ids := match requested with
             | None => Dict.keys (engines self)
             | Some l => l
             end in
  let tasks := make_tasks self ids in
  NoDup ids ->
  In (f, eng_f) tasks ->
  always_raises eng_f ->
  (forall k eng, In (k, eng) tasks -> k <> f -> always_succeeds eng) ->
  exists cmp log' e,
    compare_translations langdetect self text source_lang target_lang
      requested log = (inr cmp, log')
    /\ S (List.length (results cmp)) = List.length tasks
    /\ (requested = None -> tasks = engines self)
    /\ (forall k, In k (Dict.keys (results cmp))
                  <-> In k (List.map fst tasks) /\ k <> f)
    /\ engine_translate eng_f text
         (resolved_source_lang langdetect text source_lang) target_lang []
       = inl e
    /\ errors cmp = [(f, exn_str e)]
    /\ ((exists r, In r (Dict.values (results cmp)) /\ (0 < get_quality_score r)%Q)
        -> best_translation cmp <> None).
Proof.
  cbv zeta. intros N I R S.
  set (ids := match requested with
              | None => Dict.keys (engines self)
              | Some l => l
              end) in *.
  set (sl := resolved_source_lang langdetect text source_lang).
  pose proof (make_tasks_nodup self N) as NT.
  destruct (R text sl target_lang []) as [e Ee].
  destruct (@one_fails text sl target_lang (make_tasks self ids) f eng_f e
              NT I Ee) as (TE & TL & TK).
  { intros k eng Ik Kn. apply (S k eng Ik Kn). }
  unfold compare_translations. fold ids.
  fold (resolved_source_lang langdetect text source_lang). fold sl.
  unfold bind. rewrite run_tasks_fresh; [|exact NT|simpl; tauto].
  cbn [app fst snd ret].
  eexists _, _, e. split; [reflexivity|].
  cbn [results errors best_translation].
  split; [exact TL|]. split.
  { intros ->. apply make_tasks_all. exact N. }
  split; [exact TK|]. split; [exact Ee|]. split; [exact TE|].
  apply select_best_positive.
Qed.

Lemma compare_one_provider_failing_witness :
  exists cmp,
    fst (compare_translations no_langdetect
           (service_of [(lit "openai", echo_engine (lit "openai") 80);
                        (lit "baidu", failing_engine (lit "baidu"))])
           (lit "hello") (lit "en") (lit "zh") None [])
    = inr cmp
    /\ List.length (results cmp) = 1%nat
    /\ List.length (errors cmp) = 1%nat
    /\ best_translation cmp <> None.
Proof.
  destruct (@compare_one_provider_failing no_langdetect
              (service_of [(lit "openai", echo_engine (lit "openai") 80);
                           (lit "baidu", failing_engine (lit "baidu"))])
              (lit "hello") (lit "en") (lit "zh") None []
              (lit "baidu") (failing_engine (lit "baidu")))
    as (cmp & log' & e & E & L & _ & K & _ & Er & B).
  - nodup_literals.
  - simpl. right. left. reflexivity.
  - intros t s g k. eexists. reflexivity.
  - intros k eng [H|[H|[]]] Kn; inversion H; subst.
    + intros t s g kw. eexists. reflexivity.
    + congruence.
  - exists cmp. rewrite E. split; [reflexivity|].
    split; [simpl in L; congruence|].
    split; [rewrite Er; reflexivity|].
    apply B.
    assert (Ik : In (lit "openai") (Dict.keys (results cmp)))
      by (apply K; split; [left; reflexivity | discriminate]).
    unfold compare_translations in E. vm_compute in E.
    inversion E; subst; clear E.
    eexists. split; [left; reflexivity|]. reflexivity.
Defined.

End OrchestratorSpec.

Module ValidationSpec.

Import TranslationService PyStrFacts DictFacts OrchestratorFacts.

(** C8, as stated, at a text of one space: the text is not empty and is
    far below the maximum length, yet [translate] raises the validation
    error, since the check is [not text.strip()]. *)
Lemma translate_rejects_whitespace_text :
  let text := lit " " in
  text <> []
  /\ (len text <= MAX_TRANSLATION_LENGTH default_settings)%Z
  /\ translate no_langdetect
       (service_of [(lit "openai", echo_engine (lit "openai") 80)])
       text (lit "en") (lit "zh") (lit "openai") [] []
     = (inl (ValueError msg_empty_text), []).
Proof.
  cbv zeta. split; [discriminate|]. split; [vm_compute; discriminate|].
  reflexivity.
Qed.

(** C8, amended.  [translate] raises the validation error, with no engine
    called, if and only if the text is blank (empty after stripping
    whitespace) or longer than the configured maximum; every other text
    passes validation: the call then either raises the no-engine error or
    is the [translate] call of a configured engine. *)
Theorem translate_validation
  (langdetect : str -> Exc str) (self : Service)
  (text source_lang target_lang engine : str) (kw : kwargs) (log : list Call) :
  let out := translate langdetect self text source_lang target_lang engine kw log in
  let invalid :=
    is_blank text = true
    \/ (MAX_TRANSLATION_LENGTH (settings self) < len text)%Z in
  ((exists m, out = (inl (ValueError m), log)) <-> invalid)
  /\ (~ invalid ->
      out = (inl (Exception msg_no_engine), log)
      \/ exists eng,
           In eng (Dict.values (engines self))
           /\ out = await_translate eng text
                      (resolved_source_lang langdetect text source_lang)
                      target_lang kw log).
Proof.
  cbv zeta.
  assert (P : ~ (is_blank text = true
                 \/ (MAX_TRANSLATION_LENGTH (settings self) < len text)%Z) ->
              translate langdetect self text source_lang target_lang engine kw log
              = (inl (Exception msg_no_engine), log)
              \/ exists eng,
                   In eng (Dict.values (engines self))
                   /\ translate langdetect self text source_lang target_lang
                        engine kw log
                      = await_translate eng text
                          (resolved_source_lang langdetect text source_lang)
                          target_lang kw log).
  { intros V.
    assert (B : is_blank text = false) by (destruct (is_blank text); tauto).
    assert (L : (len text <= MAX_TRANSLATION_LENGTH (settings self))%Z) by lia.
    rewrite translate_valid by assumption.
    destruct (Dict.get (engines self) engine) as [eng|] eqn:G.
    - right. exists eng. split; [|reflexivity].
      apply get_some_in in G. apply (in_map snd) in G. exact G.
    - destruct (engines self) as [|[k eng] rest].
      + left. reflexivity.
      + right. exists eng. split; [left|]; reflexivity. }
  split; [split|exact P].
  - intros [m E].
    destruct (is_blank text) eqn:B; [left; reflexivity|].
    destruct (Z_lt_le_dec (MAX_TRANSLATION_LENGTH (settings self)) (len text))
      as [L|L]; [right; exact L|].
    exfalso. destruct P as [X|[eng [_ X]]]; [intros [?|?]; [discriminate | lia] | |];
      rewrite X in E.
    + discriminate.
    + unfold await_translate in E. inversion E as [[E1 E2]].
      apply snoc_neq in E2. exact E2.
  - apply translate_invalid.
Qed.

Lemma translate_validation_witness :
  translate no_langdetect
    (service_of [(lit "openai", echo_engine (lit "openai") 80)])
    (lit "hello") (lit "en") (lit "zh") (lit "openai") [] []
  = (inl (Exception msg_no_engine), [])
  \/ exists eng,
       In eng [echo_engine (lit "openai") 80]
       /\ translate no_langdetect
            (service_of [(lit "openai", echo_engine (lit "openai") 80)])
            (lit "hello") (lit "en") (lit "zh") (lit "openai") [] []
          = await_translate eng (lit "hello") (lit "en") (lit "zh") [] [].
Proof.
  apply (@translate_validation no_langdetect
           (service_of [(lit "openai", echo_engine (lit "openai") 80)])
           (lit "hello") (lit "en") (lit "zh") (lit "openai") [] []).
  intros [H|H]; [discriminate H | vm_compute in H; discriminate H].
Defined.

End ValidationSpec.

Module ProviderResolutionSpec.

Import TranslationService PyStrFacts DictFacts OrchestratorFacts.

Example translate_falls_back_to_first_engine :
  translate no_langdetect
    (service_of [(lit "google", echo_engine (lit "google") 80);
                 (lit "baidu", failing_engine (lit "baidu"))])
    (lit "hello") (lit "en") (lit "zh") (lit "openai") [] []
  = (inr (sample_result (lit "google") (lit "hello") 80),
     [ {| call_engine := lit "google"; call_text := lit "hello";
          call_source_lang := lit "en"; call_target_lang := lit "zh";
          call_kwargs := [] |} ]).
Proof. vm_compute. reflexivity. Qed.

(** C9.  For a requested engine that is not configured: when some engine
    is configured, [translate] does exactly what it does when the first
    configured engine is requested, and on a text that passes validation
    this is the [translate] call of that engine; when no engine is
    configured, [translate] raises, and on a text that passes validation
    the error is the no-engine error.  On a text that fails validation
    the call raises the validation error, whatever is configured.  And
    [compare_translations] on a service without engines returns empty
    [results], empty [errors] and no best translation, whatever was
    requested. *)
Theorem translate_unavailable_engine
  (langdetect : str -> Exc str) (self : Service)
  (text source_lang target_lang engine : str) (kw : kwargs) (log : list Call) :
  let valid :=
    is_blank text = false
    /\ (len text <= MAX_TRANSLATION_LENGTH (settings self))%Z in
  ~ In engine (Dict.keys (engines self)) ->
  (forall k eng rest,
      engines self = (k, eng) :: rest ->
      translate langdetect self text source_lang target_lang engine kw log
      = translate langdetect self text source_lang target_lang k kw log
      /\ (valid ->
          translate langdetect self text source_lang target_lang engine kw log
          = (engine_translate eng text
               (resolved_source_lang langdetect text source_lang) target_lang kw,
             log ++ [ {| call_engine := name eng; call_text := text;
                         call_source_lang :=
                           resolved_source_lang langdetect text source_lang;
                         call_target_lang := target_lang;
                         call_kwargs := kw |} ])))
  /\ (engines self = [] ->
      (exists e,
          translate langdetect self text source_lang target_lang engine kw log
          = (inl e, log))
      /\ (valid ->
          translate langdetect self text source_lang target_lang engine kw log
          = (inl (Exception msg_no_engine), log)))
  /\ (is_blank text = true
      \/ (MAX_TRANSLATION_LENGTH (settings self) < len text)%Z ->
      exists m,
        translate langdetect self text source_lang target_lang engine kw log
        = (inl (ValueError m), log))
  /\ (engines self = [] ->
      forall text' source_lang' target_lang' requested log',
      exists resolved,
        compare_translations langdetect self text' source_lang' target_lang'
          requested log'
        = (inr {| source_text := text';
                  cmp_source_language := resolved;
                  cmp_target_language := target_lang';
                  results := [];
                  errors := [];
                  best_translation := None |}, log')).
Proof.
  cbv zeta. intros U. apply get_none in U.
  split; [|split; [|split]].
  - intros k eng rest E. split.
    + assert (G : Dict.get (engines self) k = Some eng)
        by (rewrite E; simpl; rewrite PyStrFacts.eqb_refl; reflexivity).
      unfold translate. rewrite U, G, E. reflexivity.
    + intros [B L]. rewrite translate_valid by assumption.
      rewrite U, E. reflexivity.
  - intros E. split.
    + unfold translate. rewrite U, E.
      destruct (is_blank text); [eexists; reflexivity|].
      destruct (len text >? _)%Z; eexists; reflexivity.
    + intros [B L]. rewrite translate_valid by assumption.
      rewrite U, E. reflexivity.
  - intros V. apply translate_invalid. exact V.
  - intros E text' sl' tl' requested log'.
    unfold compare_translations.
    rewrite make_tasks_unknown.
    + eexists. reflexivity.
    + intros k _. rewrite E. simpl. tauto.
Qed.

Lemma translate_unavailable_engine_witness :
  translate no_langdetect
    (service_of [(lit "google", echo_engine (lit "google") 80)])
    (lit "hello") (lit "en") (lit "zh") (lit "openai") [] []
  = (inr (sample_result (lit "google") (lit "hello") 80),
     [ {| call_engine := lit "google"; call_text := lit "hello";
          call_source_lang := lit "en"; call_target_lang := lit "zh";
          call_kwargs := [] |} ])
  /\ translate no_langdetect (service_of [])
       (lit "hello") (lit "en") (lit "zh") (lit "openai") [] []
     = (inl (Exception msg_no_engine), []).
Proof.
  split.
  - destruct (@translate_unavailable_engine no_langdetect
                (service_of [(lit "google", echo_engine (lit "google") 80)])
                (lit "hello") (lit "en") (lit "zh") (lit "openai") [] [])
      as (H & _ & _).
    + simpl. intros [H|[]]. discriminate H.
    + destruct (H _ _ _ eq_refl) as [_ V]. apply V.
      split; [reflexivity | vm_compute; discriminate].
  - destruct (@translate_unavailable_engine no_langdetect (service_of [])
                (lit "hello") (lit "en") (lit "zh") (lit "openai") [] [])
      as (_ & H & _).
    + simpl. tauto.
    + destruct (H eq_refl) as [_ V]. apply V.
      split; [reflexivity | vm_compute; discriminate].
Defined.

(** On a blank text [translate] raises the validation error before it
    looks at the engines: with no engine configured the error is not the
    no-engine error, and with another engine configured the call does not
    proceed to that engine. *)
Example translate_blank_text_never_reaches_engines :
  translate no_langdetect (service_of [])
    (lit " ") (lit "en") (lit "zh") (lit "openai") [] []
  = (inl (ValueError msg_empty_text), [])
  /\ ValueError msg_empty_text <> Exception msg_no_engine
  /\ translate no_langdetect
       (service_of [(lit "google", echo_engine (lit "google") 80)])
       (lit " ") (lit "en") (lit "zh") (lit "openai") [] []
     = (inl (ValueError msg_empty_text), []).
Proof.
  split; [vm_compute; reflexivity|].
  split; [discriminate|vm_compute; reflexivity].
Qed.

End ProviderResolutionSpec.

Module UnknownEngineSpec.

Import TranslationService PyStrFacts DictFacts OrchestratorFacts.

Example compare_skips_unknown_engine :
  fst (compare_translations no_langdetect
         (service_of [(lit "openai", echo_engine (lit "openai") 80)])
         (lit "hello") (lit "en") (lit "zh")
         (Some [lit "deepl"; lit "openai"; lit "youdao"]) [])
  = inr {| source_text := lit "hello";
           cmp_source_language := lit "en";
           cmp_target_language := lit "zh";
           results := [(lit "openai", sample_result (lit "openai") (lit "hello") 80)];
           errors := [];
           best_translation := Some (sample_result (lit "openai") (lit "hello") 80) |}.
Proof. vm_compute. reflexivity. Qed.

(** C10.  [compare_translations] returns for every request.  Every key of
    [results] and of [errors] is a configured engine id that was requested,
    so a requested id without a configured engine is in neither; and when no
    requested id is configured, [results] and [errors] are empty, there is
    no best translation and no engine is called. *)
Theorem compare_skips_unconfigured_engines
  (langdetect : str -> Exc str) (self : Service)
  (text source_lang target_lang : str) (requested : option (list str))
  (log : list Call) :
  let ids := match requested with
             | None => Dict.keys (engines self)
             | Some l => l
             end in
  exists cmp log',
    compare_translations langdetect self text source_lang target_lang
      requested log = (inr cmp, log')
    /\ (forall k, In k (Dict.keys (results cmp)) ->
                  In k (Dict.keys (engines self)) /\ In k ids)
    /\ (forall k, In k (Dict.keys (errors cmp)) ->
                  In k (Dict.keys (engines self)) /\ In k ids)
    /\ (forall k, ~ In k (Dict.keys (engines self)) ->
                  ~ In k (Dict.keys (results cmp))
                  /\ ~ In k (Dict.keys (errors cmp)))
    /\ ((forall k, In k ids -> ~ In k (Dict.keys (engines self))) ->
        results cmp = [] /\ errors cmp = []
        /\ best_translation cmp = None /\ log' = log).
Proof.
  cbv zeta. unfold compare_translations.
  set (ids := match requested with
              | None => Dict.keys (engines self)
              | Some l => l
              end).
  set (sl := if PyStr.eqb source_lang (lit "auto")
             then detect_language langdetect text else source_lang).
  destruct (@run_tasks_returns text sl target_lang (make_tasks self ids) [] [] log)
    as (R & E & L & Eq & IR & IE).
  assert (K : forall k, In k (List.map fst (make_tasks self ids)) ->
                        In k (Dict.keys (engines self)) /\ In k ids).
  { intros k H. apply in_map_iff in H. destruct H as [[k' eng] [<- H]].
    apply make_tasks_in in H. destruct H as [H1 H2]. split; auto.
    apply get_some_in in H2. apply (in_map fst) in H2. exact H2. }
  unfold bind. rewrite Eq. cbn [ret fst snd].
  eexists _, _. split; [reflexivity|].
  cbn [results errors best_translation].
  assert (KR : forall k, In k (Dict.keys R) ->
                         In k (Dict.keys (engines self)) /\ In k ids)
    by (intros k H; apply K; apply IR in H; exact H).
  assert (KE : forall k, In k (Dict.keys E) ->
                         In k (Dict.keys (engines self)) /\ In k ids)
    by (intros k H; apply K; apply IE in H; exact H).
  split; [exact KR|]. split; [exact KE|]. split.
  - intros k U. split; intros I; [apply KR in I | apply KE in I]; tauto.
  - intros U.
    assert (RN : R = []).
    { destruct R as [|[k r] R]; auto.
      destruct (KR k (or_introl eq_refl)) as [H1 H2]. exfalso; eapply U; eauto. }
    assert (EN : E = []).
    { destruct E as [|[k r] E]; auto.
      destruct (KE k (or_introl eq_refl)) as [H1 H2]. exfalso; eapply U; eauto. }
    subst R E. repeat split.
    rewrite make_tasks_unknown in Eq by exact U.
    simpl in Eq. inversion Eq. reflexivity.
Qed.

Lemma compare_skips_unconfigured_engines_witness :
  exists cmp,
    fst (compare_translations no_langdetect
           (service_of [(lit "openai", echo_engine (lit "openai") 80)])
           (lit "hello") (lit "en") (lit "zh") (Some [lit "deepl"]) [])
    = inr cmp
    /\ results cmp = [] /\ errors cmp = [] /\ best_translation cmp = None.
Proof.
  destruct (@compare_skips_unconfigured_engines no_langdetect
              (service_of [(lit "openai", echo_engine (lit "openai") 80)])
              (lit "hello") (lit "en") (lit "zh") (Some [lit "deepl"]) [])
    as (cmp & log' & E & _ & _ & _ & H).
  exists cmp. rewrite E. split; [reflexivity|].
  destruct H as (R & Er & Bt & _).
  - simpl. intros k [<-|[]] [H|[]]. discriminate H.
  - auto.
Defined.

End UnknownEngineSpec.

(** ** The quality scorer *)

Module ScorerSpec.

Import TextAnalyzer PyStrFacts.
Import SelectBestSpec.
Local Open Scope Q_scope.

Lemma ratios_get_plausible table source_lang target_lang default :
  Forall (fun entry => plausible (snd entry)) table ->
  plausible default ->
  plausible (ratios_get table source_lang target_lang default).
Proof.
  induction 1 as [|[[s t] r] table Hr Ht IH]; intros D; simpl; auto.
  destruct (PyStr.eqb s source_lang && PyStr.eqb t target_lang); auto.
Qed.

Lemma ratios_get_unknown table source_lang target_lang default :
  ~ In (source_lang, target_lang) (List.map fst table) ->
  ratios_get table source_lang target_lang default = default.
Proof.
  induction table as [|[[s t] r] table IH]; simpl; auto.
  intros N.
  destruct (PyStr.eqb s source_lang && PyStr.eqb t target_lang) eqn:E.
  - apply andb_true_iff in E. destruct E as [E1 E2].
    apply eqb_eq in E1. apply eqb_eq in E2. subst. tauto.
  - apply IH. tauto.
Qed.

Lemma expected_range_plausible source_lang target_lang :
  plausible (ratios_get expected_ratios source_lang target_lang (0.5, 2.0)).
Proof.
  apply ratios_get_plausible.
  - repeat constructor; simpl; unfold Qle; simpl; lia.
  - split; [reflexivity | unfold Qle; simpl; lia].
Qed.

Lemma Qlen_pos (s : str) : s <> [] -> 0 < Qlen s.
Proof.
  intros N. unfold Qlen, len. change 0 with (inject_Z 0).
  rewrite <- Zlt_Qlt. destruct s; [congruence | simpl; lia].
Qed.

Lemma ratio_pos (s t : str) : s <> [] -> t <> [] -> 0 < Qlen t / Qlen s.
Proof.
  intros Ns Nt. apply Qmult_lt_0_compat; [apply Qlen_pos; auto|].
  apply Qinv_lt_0_compat, Qlen_pos; auto.
Qed.

Lemma py_max_pos (v : Q) : 0 < v -> py_max 0 v = v.
Proof. intros P. unfold py_max. apply Qlt_bool_iff in P. rewrite P. reflexivity. Qed.

Example length_ratio_in_range :
  _analyze_length_ratio (lit "Hello world") (lit "abcdef") (lit "en") (lit "zh")
  = 100.
Proof. vm_compute. reflexivity. Qed.

Example length_ratio_too_short :
  _analyze_length_ratio (lit "0123456789") (lit "ab") (lit "en") (lit "zh")
  == 50.
Proof. vm_compute. reflexivity. Qed.

(** C5, as stated, on the too-long side: with the default range [0.5, 2.0]
    and a source of length 1, translations of length 4, 6 and 8 score 50,
    100/3 and 25.  The ratios are equally spaced and the scores are not, so
    the decay is not linear in the distance from the range. *)
Lemma length_ratio_decay_not_linear_above :
  let score n :=
    _analyze_length_ratio (lit "a") (List.repeat 97%N n) (lit "xx") (lit "yy") in
  score 4%nat == 50
  /\ score 6%nat == 100 # 3
  /\ score 8%nat == 25
  /\ ~ (score 4%nat - score 6%nat == score 6%nat - score 8%nat).
Proof.
  cbv zeta. repeat split; try (vm_compute; reflexivity).
  vm_compute. discriminate.
Qed.

(** C5, amended.  For non-empty source and translated texts, with
    [ratio = len(translated) / len(source)] and [(lo, hi)] the expected
    range of the language pair ([0.5, 2.0] for a pair not in the table):
    the sub-score is 100 when [lo <= ratio <= hi]; it is
    [100 * ratio / lo] below the range, which is linear in the ratio; and
    it is [100 * hi / ratio] above the range, which is inversely
    proportional to the ratio.  Outside the range it lies strictly between
    0 and 100. *)
Theorem length_ratio_score (source_text translated_text source_lang target_lang : str) :
  source_text <> [] -> translated_text <> [] ->
  let ratio := Qlen translated_text / Qlen source_text in
  let range := ratios_get expected_ratios source_lang target_lang (0.5, 2.0) in
  let score :=
    _analyze_length_ratio source_text translated_text source_lang target_lang in
  (~ In (source_lang, target_lang) (List.map fst expected_ratios) ->
   range = (0.5, 2.0))
  /\ (fst range <= ratio /\ ratio <= snd range -> score = 100)
  /\ (ratio < fst range ->
      score = 100 * (ratio / fst range) /\ 0 < score /\ score < 100)
  /\ (snd range < ratio ->
      score = 100 * (snd range / ratio) /\ 0 < score /\ score < 100).
Proof.
  intros Ns Nt. cbv zeta.
  pose proof (expected_range_plausible source_lang target_lang) as [Plo Phi].
  pose proof (ratio_pos Ns Nt) as Pr.
  split; [apply ratios_get_unknown|].
  unfold _analyze_length_ratio.
  assert (E1 : is_empty source_text || is_empty translated_text = false)
    by (destruct source_text, translated_text; try reflexivity; congruence).
  assert (E2 : (len source_text =? 0)%Z = false)
    by (apply Z.eqb_neq; unfold len; destruct source_text;
        [congruence | simpl; lia]).
  rewrite E1, E2.
  fold (Qlen translated_text). fold (Qlen source_text).
  set (ratio := Qlen translated_text / Qlen source_text) in *.
  destruct (ratios_get expected_ratios source_lang target_lang (0.5, 2.0))
    as [lo hi].
  cbn [fst snd] in *.
  assert (P100 : 0 < 100) by reflexivity.
  split; [|split].
  - intros [L H].
    apply Qle_bool_iff in L. apply Qle_bool_iff in H. rewrite L, H. reflexivity.
  - intros B.
    assert (L : Qle_bool lo ratio = false).
    { destruct (Qle_bool lo ratio) eqn:L; auto.
      apply Qle_bool_iff in L. exfalso. exact (Qlt_not_le _ _ B L). }
    rewrite L. cbn [andb].
    apply Qlt_bool_iff in B. rewrite B. apply Qlt_bool_iff in B.
    assert (P : 0 < 100 * (ratio / lo)).
    { apply Qmult_lt_0_compat; auto.
      apply Qmult_lt_0_compat; auto. apply Qinv_lt_0_compat; auto. }
    rewrite py_max_pos by exact P.
    split; [reflexivity|]. split; [exact P|].
    setoid_replace 100 with (100 * 1) at 2 by reflexivity.
    apply Qmult_lt_l; auto.
    apply Qlt_shift_div_r; auto. rewrite Qmult_1_l. exact B.
  - intros A.
    assert (H : Qle_bool ratio hi = false).
    { destruct (Qle_bool ratio hi) eqn:H; auto.
      apply Qle_bool_iff in H. exfalso. exact (Qlt_not_le _ _ A H). }
    rewrite H, andb_false_r.
    assert (B : Qlt_bool ratio lo = false).
    { apply Qlt_bool_false. apply Qlt_le_weak.
      exact (Qle_lt_trans _ _ _ Phi A). }
    rewrite B.
    assert (Ph : 0 < hi) by exact (Qlt_le_trans _ _ _ Plo Phi).
    assert (P : 0 < 100 * (hi / ratio)).
    { apply Qmult_lt_0_compat; auto.
      apply Qmult_lt_0_compat; auto. apply Qinv_lt_0_compat; auto. }
    rewrite py_max_pos by exact P.
    split; [reflexivity|]. split; [exact P|].
    setoid_replace 100 with (100 * 1) at 2 by reflexivity.
    apply Qmult_lt_l; auto.
    apply Qlt_shift_div_r; auto. rewrite Qmult_1_l. exact A.
Qed.

Lemma length_ratio_score_witness :
  _analyze_length_ratio (lit "0123456789") (lit "ab") (lit "en") (lit "zh")
  = 100 * ((2 / 10) / 0.4)
  /\ _analyze_length_ratio (lit "a") (lit "abcd") (lit "xx") (lit "yy")
     = 100 * (2.0 / (4 / 1)).
Proof.
  split.
  - apply (@length_ratio_score (lit "0123456789") (lit "ab") (lit "en") (lit "zh")).
    + discriminate.
    + discriminate.
    + vm_compute. reflexivity.
  - apply (@length_ratio_score (lit "a") (lit "abcd") (lit "xx") (lit "yy")).
    + discriminate.
    + discriminate.
    + vm_compute. reflexivity.
Defined.

End ScorerSpec.

Module QualitySpec.

Import TextAnalyzer PyStrFacts SelectBestSpec.
Local Open Scope Q_scope.

Lemma clamp_bounds (score : Q) :
  0 <= py_min 100 (py_max 0 score) /\ py_min 100 (py_max 0 score) <= 100.
Proof.
  unfold py_min, py_max.
  destruct (Qlt_bool 0 score) eqn:P.
  - apply Qlt_bool_iff in P.
    destruct (Qlt_bool score 100) eqn:H.
    + apply Qlt_bool_iff in H. split; apply Qlt_le_weak; auto.
    + split; [discriminate | apply Qle_refl].
  - change (Qlt_bool 0 100) with true. cbv iota.
    split; [apply Qle_refl | discriminate].
Qed.

Section Scorer.

Variable lower : str -> str.
Variable re_split : str -> str -> Exc (list str).
Variable re_findall : str -> str -> Exc (list str).
Variable re_search : str -> str -> Exc bool.

Local Abbreviation quality := (analyze_text_quality lower re_split re_findall re_search).
Local Abbreviation body := (quality_body lower re_split re_findall re_search).

(** An empty translation scores 0: every sub-score returns 0 on it. *)
Lemma quality_of_empty_translation source_text source_lang target_lang :
  quality source_text [] source_lang target_lang = 0.
Proof.
  unfold analyze_text_quality, quality_body,
    _analyze_length_ratio, _analyze_completeness, _analyze_fluency,
    _analyze_format_preservation, _analyze_special_characters.
  rewrite orb_true_r. reflexivity.
Qed.

(** C4.  The score [analyze_text_quality] returns lies in [0, 100], and
    when the analysis inside its [try] block raises, the score is 75. *)
Theorem analyze_text_quality_bounds_and_fallback
  (source_text translated_text source_lang target_lang : str) :
  (0 <= quality source_text translated_text source_lang target_lang
   /\ quality source_text translated_text source_lang target_lang <= 100)
  /\ (forall e,
         body source_text translated_text source_lang target_lang = inl e ->
         quality source_text translated_text source_lang target_lang = 75).
Proof.
  unfold analyze_text_quality.
  destruct (quality_body lower re_split re_findall re_search
              source_text translated_text source_lang target_lang)
    as [e|score] eqn:B.
  - split; [split; discriminate | reflexivity].
  - split; [|discriminate].
    unfold quality_body in B.
    destruct (_analyze_format_preservation re_findall source_text translated_text)
      as [e1|format_score]; [discriminate|].
    destruct (_analyze_special_characters re_findall source_text translated_text)
      as [e2|special_score]; [discriminate|].
    cbn [ExcMonad.bind] in B. inversion B. apply clamp_bounds.
Qed.

End Scorer.

Example quality_of_plain_pair :
  analyze_text_quality ascii_lower empty_split empty_findall failing_search
    (lit "Hello world") (lit "abcdef") (lit "en") (lit "zh")
  == 385 # 4.
Proof. vm_compute. reflexivity. Qed.

Lemma analyze_text_quality_witness :
  analyze_text_quality ascii_lower empty_split raising_findall failing_search
    (lit "Hello world") (lit "abcdef") (lit "en") (lit "zh") = 75.
Proof.
  apply (@analyze_text_quality_bounds_and_fallback
           ascii_lower empty_split raising_findall failing_search
           (lit "Hello world") (lit "abcdef") (lit "en") (lit "zh"))
    with (e := Exception (lit "re.error")).
  vm_compute. reflexivity.
Defined.

End QualitySpec.

(** ** Cache keys *)

Module CacheKeySpec.

Import TranslationService PyStrFacts.

Lemma compare_eq (a b : str) : PyStr.compare a b = Eq <-> a = b.
Proof.
  revert b; induction a as [|x a IH]; intros [|y b]; simpl;
    try (split; [discriminate | congruence]); try tauto.
  destruct (N.compare_spec x y) as [E|L|G].
  - subst. rewrite IH. split; [congruence | intros H; inversion H; auto].
  - split; [discriminate | intros H; inversion H; subst; lia].
  - split; [discriminate | intros H; inversion H; subst; lia].
Qed.

Lemma compare_antisym (a b : str) :
  PyStr.compare b a = CompOpp (PyStr.compare a b).
Proof.
  revert b; induction a as [|x a IH]; intros [|y b]; simpl; auto.
  rewrite (N.compare_antisym x y).
  destruct (N.compare x y); simpl; auto.
Qed.

Lemma compare_lt_trans (a : str) :
  forall b c,
    PyStr.compare a b = Lt -> PyStr.compare b c = Lt -> PyStr.compare a c = Lt.
Proof.
  induction a as [|x a IH]; intros [|y b] [|z c]; simpl; auto; try discriminate.
  destruct (N.compare_spec x y) as [E1|L1|G1]; try discriminate;
    destruct (N.compare_spec y z) as [E2|L2|G2]; try discriminate; subst;
      intros H1 H2.
  - rewrite N.compare_refl. eapply IH; eauto.
  - apply N.compare_lt_iff in L2. rewrite L2. reflexivity.
  - apply N.compare_lt_iff in L1. rewrite L1. reflexivity.
  - assert (L : (x < z)%N) by lia.
    apply N.compare_lt_iff in L. rewrite L. reflexivity.
Qed.

Lemma leb_total (a b : str) : PyStr.leb a b = true \/ PyStr.leb b a = true.
Proof.
  unfold PyStr.leb. rewrite (compare_antisym a b).
  destruct (PyStr.compare a b); simpl; auto.
Qed.

Lemma leb_antisym (a b : str) :
  PyStr.leb a b = true -> PyStr.leb b a = true -> a = b.
Proof.
  unfold PyStr.leb. rewrite (compare_antisym a b).
  destruct (PyStr.compare a b) eqn:E; simpl; try discriminate.
  intros _ _. apply compare_eq. exact E.
Qed.

Lemma leb_trans (a b c : str) :
  PyStr.leb a b = true -> PyStr.leb b c = true -> PyStr.leb a c = true.
Proof.
  unfold PyStr.leb.
  destruct (PyStr.compare a b) eqn:E1; try discriminate;
    destruct (PyStr.compare b c) eqn:E2; try discriminate; intros _ _.
  - apply compare_eq in E1. subst. rewrite E2. reflexivity.
  - apply compare_eq in E1. subst. rewrite E2. reflexivity.
  - apply compare_eq in E2. subst. rewrite E1. reflexivity.
  - rewrite (compare_lt_trans _ _ _ E1 E2). reflexivity.
Qed.

(** *** Sorting the items *)

Lemma insert_item_perm kv l : Permutation (insert_item kv l) (kv :: l).
Proof.
  induction l as [|kv' l IH]; simpl; auto.
  destruct (PyStr.leb (fst kv) (fst kv')); auto.
  rewrite IH. apply perm_swap.
Qed.

Lemma sort_items_perm l : Permutation (sort_items l) l.
Proof.
  induction l as [|kv l IH]; simpl; auto.
  rewrite insert_item_perm. auto.
Qed.

Lemma insert_item_sorted kv l :
  StronglySorted item_le l -> StronglySorted item_le (insert_item kv l).
Proof.
  induction 1 as [|kv' l S IH F]; simpl.
  - repeat constructor.
  - destruct (PyStr.leb (fst kv) (fst kv')) eqn:L.
    + constructor; [constructor; auto|].
      constructor; [exact L|].
      eapply Forall_impl; [|exact F].
      intros c H. unfold item_le in *. eapply leb_trans; eauto.
    + constructor; auto.
      assert (L' : item_le kv' kv)
        by (destruct (leb_total (fst kv) (fst kv')); [congruence | auto]).
      eapply Permutation_Forall; [symmetry; apply insert_item_perm|].
      constructor; auto.
Qed.

Lemma sort_items_sorted l : StronglySorted item_le (sort_items l).
Proof.
  induction l as [|kv l IH]; simpl; [constructor|].
  apply insert_item_sorted, IH.
Qed.

(** Two sorted lists with the same items and distinct keys are equal. *)
Lemma sorted_unique (l1 : list (str * value)) :
  forall l2,
    StronglySorted item_le l1 -> StronglySorted item_le l2 ->
    Permutation l1 l2 -> NoDup (Dict.keys l1) -> l1 = l2.
Proof.
  induction l1 as [|a l1 IH]; intros l2 S1 S2 P N.
  - apply Permutation_nil in P. auto.
  - destruct l2 as [|b l2];
      [apply Permutation_sym, Permutation_nil in P; discriminate|].
    inversion S1 as [|? ? S1' F1]; subst.
    inversion S2 as [|? ? S2' F2]; subst.
    inversion N as [|? ? Na Nl]; subst.
    assert (E : a = b).
    { assert (Ia : In a (b :: l2))
        by (eapply Permutation_in; [exact P | left; reflexivity]).
      assert (Ib : In b (a :: l1))
        by (eapply Permutation_in; [symmetry; exact P | left; reflexivity]).
      destruct Ia as [Ia|Ia]; [auto|].
      destruct Ib as [Ib|Ib]; [auto|].
      exfalso. apply Na.
      rewrite Forall_forall in F1, F2.
      assert (K : fst a = fst b)
        by (apply leb_antisym; [apply F1 | apply F2]; auto).
      rewrite K. apply (in_map fst) in Ib. exact Ib. }
    subst b. f_equal. apply IH; auto.
    eapply Permutation_cons_inv; eauto.
Qed.

Lemma sort_items_order_independent (kw1 kw2 : kwargs) :
  NoDup (Dict.keys kw1) -> Permutation kw1 kw2 ->
  sort_items kw1 = sort_items kw2.
Proof.
  intros N P. apply sorted_unique.
  - apply sort_items_sorted.
  - apply sort_items_sorted.
  - rewrite !sort_items_perm. exact P.
  - eapply Permutation_NoDup; [|exact N].
    apply Permutation_map. symmetry. apply sort_items_perm.
Qed.

Example sort_items_style_model :
  sort_items [(lit "style", VStr (lit "formal")); (lit "model", VStr (lit "gpt-4"))]
  = [(lit "model", VStr (lit "gpt-4")); (lit "style", VStr (lit "formal"))].
Proof. vm_compute. reflexivity. Qed.

(** C7.  Two cache keys computed by the same engine for the same text and
    languages, from option dictionaries with the same items inserted in
    different orders, are equal. *)
Theorem cache_key_option_order_independent
  (dumps_key : str -> str) (dumps_value : value -> str)
  (md5_hexdigest : str -> str) (self : TranslationEngine)
  (text source_lang target_lang : str) (kw1 kw2 : kwargs) :
  NoDup (Dict.keys kw1) ->
  Permutation kw1 kw2 ->
  _get_cache_key dumps_key dumps_value md5_hexdigest self
    text source_lang target_lang kw1
  = _get_cache_key dumps_key dumps_value md5_hexdigest self
      text source_lang target_lang kw2.
Proof.
  intros N P. unfold _get_cache_key, json_dumps_sorted.
  rewrite (sort_items_order_independent N P). reflexivity.
Qed.

Lemma cache_key_option_order_independent_witness :
  _get_cache_key quote_key quote_value plain_digest
    (echo_engine (lit "openai") 80) (lit "hello") (lit "en") (lit "zh")
    [(lit "model", VStr (lit "gpt-4")); (lit "style", VStr (lit "formal"))]
  = _get_cache_key quote_key quote_value plain_digest
      (echo_engine (lit "openai") 80) (lit "hello") (lit "en") (lit "zh")
      [(lit "style", VStr (lit "formal")); (lit "model", VStr (lit "gpt-4"))].
Proof.
  apply cache_key_option_order_independent.
  - nodup_literals.
  - apply perm_swap.
Defined.

End CacheKeySpec.

(** ** The document pipeline *)

Module PipelineFacts.

Import TranslationService FileService PyStrFacts OrchestratorFacts.

Lemma update_chunk_first before row after fid i f :
  (forall x, In x before -> chunk_matches fid i x = false) ->
  chunk_matches fid i row = true ->
  update_chunk (before ++ row :: after) fid i f = before ++ f row :: after.
Proof.
  intros B M. induction before as [|x before IH]; simpl.
  - rewrite M. reflexivity.
  - rewrite (B x (or_introl eq_refl)). rewrite IH; auto.
    intros y I. apply B. right. exact I.
Qed.

Lemma find_chunk_skip before rows fid i :
  (forall x, In x before -> chunk_matches fid i x = false) ->
  query_chunk (before ++ rows) fid i = query_chunk rows fid i.
Proof.
  intros B. unfold query_chunk. induction before as [|x before IH]; simpl; auto.
  rewrite (B x (or_introl eq_refl)). apply IH.
  intros y I. apply B. right. exact I.
Qed.

Lemma query_file_update rows fid f g :
  find (fun x => (id x =? fid)%Z) rows = Some f ->
  id g = fid ->
  find (fun x => (id x =? fid)%Z) (update_file rows g) = Some g.
Proof.
  intros F G. induction rows as [|x rows IH]; simpl in *; [discriminate|].
  destruct (id x =? fid)%Z eqn:E.
  - apply Z.eqb_eq in E. rewrite G, <- E, Z.eqb_refl. simpl.
    rewrite G, <- E, Z.eqb_refl. reflexivity.
  - rewrite G. rewrite E. simpl. rewrite E. apply IH. exact F.
Qed.

Section Loop.

Variable langdetect : str -> Exc str.
Variable translation_service : Service.

Local Abbreviation outcome := (chunk_outcome langdetect translation_service).
Local Abbreviation piece := (translated_piece langdetect translation_service).
Local Abbreviation settled := (settled_chunk langdetect translation_service).
Local Abbreviation settled_all := (settled_chunks langdetect translation_service).
Local Abbreviation loop := (translate_chunks langdetect translation_service).

Lemma settled_chunks_progress fid i f p chunks :
  settled_all fid i (with_progress f p) chunks = settled_all fid i f chunks.
Proof.
  revert i; induction chunks as [|c chunks IH]; intros i; simpl; auto.
  rewrite IH. reflexivity.
Qed.

Lemma loop_step fid total i c rest st :
  loop fid total i (c :: rest) st
  = loop fid total (S i) rest
      {| ls_file := with_progress (ls_file st) (progress_of i total);
         ls_chunks :=
           update_chunk (ls_chunks st) fid i
             (fun row =>
                match outcome (ls_file st) c with
                | inr result => chunk_completed row (translated_text result)
                | inl _ => chunk_failed row
                end);
         ls_translated := ls_translated st ++ [piece (ls_file st) c];
         ls_log :=
           snd (translate langdetect translation_service c
                  (file_source_language (ls_file st))
                  (file_target_language (ls_file st))
                  (translation_engine (ls_file st)) [] (ls_log st)) |}.
Proof.
  cbn [translate_chunks]. unfold translated_piece, chunk_outcome.
  rewrite <- (translate_fst langdetect translation_service c
                (file_source_language (ls_file st))
                (file_target_language (ls_file st))
                (translation_engine (ls_file st)) [] (ls_log st)).
  cbn [file_source_language file_target_language translation_engine
       with_progress].
  destruct (translate langdetect translation_service c
              (file_source_language (ls_file st))
              (file_target_language (ls_file st))
              (translation_engine (ls_file st)) [] (ls_log st))
    as [[e|r] log']; reflexivity.
Qed.

Lemma settle_new_row fid i f c :
  match outcome f c with
  | inr result =>
      chunk_completed
        {| file_id := fid; chunk_index := i; chunk_text := c;
           chunk_translated_text := None; status := pending |}
        (translated_text result)
  | inl _ =>
      chunk_failed
        {| file_id := fid; chunk_index := i; chunk_text := c;
           chunk_translated_text := None; status := pending |}
  end = settled fid i f c.
Proof.
  unfold settled_chunk. destruct (outcome f c); reflexivity.
Qed.

Lemma settled_index fid i f c : chunk_index (settled fid i f c) = i.
Proof. unfold settled_chunk. destruct (outcome f c); reflexivity. Qed.

Lemma settled_file_id fid i f c : file_id (settled fid i f c) = fid.
Proof. unfold settled_chunk. destruct (outcome f c); reflexivity. Qed.

(** The loop settles the new chunk records in order and touches no other
    record. *)
Lemma loop_spec fid total chunks :
  forall i st before,
    ls_chunks st = before ++ new_chunks fid i chunks ->
    (forall x, In x before -> file_id x = fid -> (chunk_index x < i)%nat) ->
    ls_chunks (loop fid total i chunks st)
    = before ++ settled_all fid i (ls_file st) chunks
    /\ ls_translated (loop fid total i chunks st)
       = ls_translated st ++ List.map (piece (ls_file st)) chunks
    /\ same_but_progress (ls_file (loop fid total i chunks st)) (ls_file st).
Proof.
  induction chunks as [|c chunks IH]; intros i st before R B.
  - simpl in *. rewrite !app_nil_r in *. repeat split; auto.
  - rewrite loop_step.
    set (f := ls_file st) in *.
    set (st1 := {| ls_file := with_progress f (progress_of i total);
                   ls_chunks := _; ls_translated := _; ls_log := _ |}).
    destruct (IH (S i) st1 (before ++ [settled fid i f c]))
      as (C & T & P).
    + unfold st1. cbn [ls_chunks ls_file].
      rewrite R. cbn [new_chunks].
      rewrite update_chunk_first.
      * rewrite settle_new_row, <- app_assoc. reflexivity.
      * intros x I. unfold chunk_matches.
        destruct (file_id x =? fid)%Z eqn:E; [|reflexivity].
        apply Z.eqb_eq in E. specialize (B x I E).
        simpl. apply Nat.eqb_neq. lia.
      * unfold chunk_matches. cbn [file_id chunk_index].
        rewrite Z.eqb_refl, Nat.eqb_refl. reflexivity.
    + intros x I E. apply in_app_iff in I. destruct I as [I|[<-|[]]].
      * specialize (B x I E). lia.
      * rewrite settled_index. lia.
    + subst st1.
      cbn [ls_chunks ls_file ls_translated] in C, T, P.
      rewrite settled_chunks_progress in C.
      repeat split.
      * rewrite C, <- app_assoc. reflexivity.
      * rewrite T, <- app_assoc. reflexivity.
      * exact P.
Qed.

Lemma settled_chunks_find fid f chunks :
  forall i0 j c,
    nth_error chunks j = Some c ->
    query_chunk (settled_all fid i0 f chunks) fid (i0 + j)
    = Some (settled fid (i0 + j) f c).
Proof.
  induction chunks as [|c0 chunks IH]; intros i0 j c N.
  - destruct j; discriminate.
  - unfold query_chunk. cbn [settled_chunks find].
    unfold chunk_matches at 1.
    rewrite settled_file_id, settled_index, Z.eqb_refl. cbn [andb].
    destruct j as [|j].
    + simpl in N. inversion N; subst.
      rewrite Nat.add_0_r, Nat.eqb_refl. reflexivity.
    + assert (E : (i0 =? i0 + S j)%nat = false) by (apply Nat.eqb_neq; lia).
      rewrite E. simpl in N.
      replace (i0 + S j)%nat with (S i0 + j)%nat by lia.
      apply IH. exact N.
Qed.

End Loop.

End PipelineFacts.

Module PipelineSpec.

Import TranslationService FileService PyStrFacts OrchestratorFacts PipelineFacts.

Lemma ensure_extracted_id ex1 ex2 ex3 ex4 f g t :
  ensure_extracted ex1 ex2 ex3 ex4 f = inr (g, t) -> id g = id f.
Proof.
  unfold ensure_extracted.
  destruct (extract_text_from_file ex1 ex2 ex3 ex4 (file_path f) (file_type f))
    as [e|t'];
    destruct (extracted_text f) as [t0|]; try destruct (is_empty t0);
      intros H; inversion H; reflexivity.
Qed.

Example job_with_one_good_chunk :
  let db := run_sample [(lit "openai", echo_engine (lit "openai") 80)]
              (lit "Hello") (lit "openai") in
  option_map translation_status (query_file db 1) = Some completed
  /\ option_map status (query_chunk (chunk_rows db) 1 0) = Some completed
  /\ option_map chunk_translated_text (query_chunk (chunk_rows db) 1 0)
     = Some (Some (lit "Hello")).
Proof. vm_compute. repeat split. Qed.

(** C2, as stated, on a one-chunk document whose engine raises: the job
    ends [completed], the chunk record is [failed] and the reassembled text
    holds the chunk's source text, but the translated text of the persisted
    chunk record is not the source text: it was never written. *)
Lemma failed_chunk_record_has_no_translated_text :
  let db := run_sample [(lit "openai", failing_engine (lit "openai"))]
              (lit "Hello") (lit "openai") in
  option_map translation_status (query_file db 1) = Some completed
  /\ option_map translated_content (query_file db 1) = Some (Some (lit "Hello"))
  /\ option_map status (query_chunk (chunk_rows db) 1 0) = Some failed
  /\ option_map chunk_text (query_chunk (chunk_rows db) 1 0)
     = Some (lit "Hello")
  /\ option_map chunk_translated_text (query_chunk (chunk_rows db) 1 0)
     = Some None
  /\ option_map chunk_translated_text (query_chunk (chunk_rows db) 1 0)
     <> Some (Some (lit "Hello")).
Proof. vm_compute. repeat split. discriminate. Qed.

(** C2, amended.  For a job on a file without earlier chunk records, whose
    text is available and whose output file can be written: the job ends
    [completed], whatever the chunks did; and for every chunk whose
    translation raises, the chunk record is [failed] with its translated
    text left unset, and the piece of the reassembled text at the chunk's
    index is the chunk's own source text. *)
Theorem chunk_failure_does_not_fail_job
  (langdetect : str -> Exc str) (translation_service : Service)
  (ex1 ex2 ex3 ex4 : str -> Exc str) (generate : File -> str -> Exc str)
  (utcnow : Z) (fid : Z) (db : Store) (log : list Call)
  (file_record prepared : File) (text : str) :
  query_file db fid = Some file_record ->
  ensure_extracted ex1 ex2 ex3 ex4 file_record = inr (prepared, text) ->
  (forall f t, exists path, generate f t = inr path) ->
  (forall row, In row (chunk_rows db) -> file_id row <> fid) ->
  let chunks := split_text_into_chunks text None in
  let db' :=
    fst (translate_file_async langdetect translation_service
           ex1 ex2 ex3 ex4 generate utcnow fid db log) in
  exists f' pieces,
    query_file db' fid = Some f'
    /\ translation_status f' = completed
    /\ translated_content f' = Some (join [10%N] pieces)
    /\ List.length pieces = List.length chunks
    /\ forall i c e,
         nth_error chunks i = Some c ->
         chunk_outcome langdetect translation_service prepared c = inl e ->
         nth_error pieces i = Some c
         /\ query_chunk (chunk_rows db') fid i
            = Some {| file_id := fid; chunk_index := i; chunk_text := c;
                      chunk_translated_text := None; status := failed |}.
Proof.
  intros Q E G Fresh. cbv zeta.
  assert (Idf : id file_record = fid).
  { unfold query_file in Q. apply find_some in Q. destruct Q as [_ Q].
    apply Z.eqb_eq in Q. exact Q. }
  assert (Idp : id prepared = fid)
    by (rewrite (ensure_extracted_id _ _ _ _ _ E); exact Idf).
  unfold translate_file_async. rewrite Q, E.
  set (chunks := split_text_into_chunks text None).
  set (st0 := {| ls_file := prepared;
                 ls_chunks := chunk_rows db ++ new_chunks fid 0 chunks;
                 ls_translated := []; ls_log := log |}).
  destruct (@loop_spec langdetect translation_service fid
              (List.length chunks) chunks 0%nat st0 (chunk_rows db))
    as (C & T & P).
  { reflexivity. }
  { intros x I X. exfalso. exact (Fresh x I X). }
  unfold st0 in C, T, P. cbn [ls_file ls_chunks ls_translated] in C, T, P.
  fold st0 in C, T, P.
  set (st := translate_chunks langdetect translation_service fid
               (List.length chunks) 0 chunks st0) in *.
  assert (Ids : id (ls_file st) = fid).
  { unfold same_but_progress in P. apply (f_equal id) in P. simpl in P.
    rewrite P. exact Idp. }
  destruct (G (with_translated_content (ls_file st)
                 (Some (join [10%N] (ls_translated st))))
              (join [10%N] (ls_translated st))) as [path Ep].
  rewrite Ep. cbn [fst].
  eexists _, (List.map (translated_piece langdetect translation_service prepared)
                chunks).
  split; [|split; [|split; [|split]]].
  - unfold commit, query_file. cbn [file_rows].
    eapply query_file_update; [exact Q|]. exact Ids.
  - reflexivity.
  - cbn [translated_content with_completed_at with_progress with_status
         with_translated_file_path with_translated_content].
    rewrite T. reflexivity.
  - apply length_map.
  - intros i c e N O. split.
    + rewrite nth_error_map, N. simpl.
      unfold translated_piece. rewrite O. reflexivity.
    + unfold commit. cbn [chunk_rows]. rewrite C.
      rewrite find_chunk_skip.
      * pose proof (@settled_chunks_find langdetect translation_service
                      fid prepared chunks 0%nat i c N) as SF.
        cbn [Nat.add] in SF. rewrite SF.
        unfold settled_chunk. rewrite O. reflexivity.
      * intros x I. unfold chunk_matches.
        assert (X : (file_id x =? fid)%Z = false)
          by (apply Z.eqb_neq; apply Fresh; exact I).
        rewrite X. reflexivity.
Qed.

Lemma chunk_failure_does_not_fail_job_witness :
  exists f' pieces,
    query_file
      (run_sample [(lit "openai", failing_engine (lit "openai"))]
         (lit "Hello") (lit "openai")) 1 = Some f'
    /\ translation_status f' = completed
    /\ translated_content f' = Some (join [10%N] pieces)
    /\ nth_error pieces 0 = Some (lit "Hello").
Proof.
  destruct (@chunk_failure_does_not_fail_job no_langdetect
              (service_of [(lit "openai", failing_engine (lit "openai"))])
              no_extract no_extract no_extract no_extract sample_generate 0
              1 (sample_store (lit "Hello") (lit "openai")) []
              (sample_file (lit "Hello") (lit "openai"))
              (sample_file (lit "Hello") (lit "openai")) (lit "Hello"))
    as (f' & pieces & Q & S & T & _ & F).
  - reflexivity.
  - reflexivity.
  - intros f t. eexists. reflexivity.
  - intros row [].
  - exists f', pieces. repeat split; auto.
    apply (F 0%nat (lit "Hello") (Exception (lit "openai: quota"))); reflexivity.
Defined.

End PipelineSpec.

(** ** Bounds of the sub-scores *)

Module SubScoreFacts.

Import TextAnalyzer PyStrFacts SelectBestSpec.
Local Open Scope Q_scope.

Lemma py_max_0_bounds (score : Q) :
  score <= 100 -> 0 <= py_max 0 score /\ py_max 0 score <= 100.
Proof.
  intros H. unfold py_max. destruct (Qlt_bool 0 score) eqn:P.
  - apply Qlt_bool_iff in P. split; [apply Qlt_le_weak; exact P | exact H].
  - split; [apply Qle_refl | discriminate].
Qed.

(** A loop whose body keeps an invariant keeps it when it returns. *)
Lemma foldM_invariant (A B : Type) (P : B -> Prop)
  (body : B -> A -> Exc B) (xs : list A) :
  (forall acc x acc', P acc -> body acc x = inr acc' -> P acc') ->
  forall init result,
    P init -> ExcMonad.foldM body xs init = inr result -> P result.
Proof.
  intros Step. induction xs as [|x xs IH]; intros init result Pi H; simpl in H.
  - inversion H; subst; exact Pi.
  - destruct (body init x) as [e|acc'] eqn:E; [discriminate|].
    simpl in H. eapply IH; [|exact H]. eapply Step; eauto.
Qed.

Lemma penalty_keeps_bound (c : bool) (score penalty : Q) :
  0 <= penalty -> score <= 100 -> (if c then score - penalty else score) <= 100.
Proof. intros P H. destruct c; lra. Qed.

Section Scorer.

Variable lower : str -> str.
Variable re_split : str -> str -> Exc (list str).
Variable re_findall : str -> str -> Exc (list str).
Variable re_search : str -> str -> Exc bool.

Lemma length_ratio_bounds source_text translated_text source_lang target_lang :
  0 <= _analyze_length_ratio source_text translated_text source_lang target_lang
  /\ _analyze_length_ratio source_text translated_text source_lang target_lang
     <= 100.
Proof.
  destruct source_text as [|c s]; [split; discriminate|].
  destruct translated_text as [|d t];
    [unfold _analyze_length_ratio; split; discriminate|].
  destruct (@ScorerSpec.expected_range_plausible source_lang target_lang)
    as [Plo Phi].
  assert (Pr : 0 < Qlen (d :: t) / Qlen (c :: s))
    by (apply ScorerSpec.ratio_pos; discriminate).
  unfold _analyze_length_ratio.
  change (is_empty (c :: s) || is_empty (d :: t)) with false. cbv iota.
  assert (E2 : (len (c :: s) =? 0)%Z = false)
    by (apply Z.eqb_neq; unfold len; simpl; lia).
  rewrite E2.
  fold (Qlen (d :: t)). fold (Qlen (c :: s)).
  set (ratio := Qlen (d :: t) / Qlen (c :: s)) in *.
  destruct (ratios_get expected_ratios source_lang target_lang (0.5, 2.0))
    as [lo hi].
  cbn [fst snd] in *.
  destruct (Qle_bool lo ratio && Qle_bool ratio hi) eqn:In;
    [split; discriminate|].
  destruct (Qlt_bool ratio lo) eqn:B.
  - apply Qlt_bool_iff in B. apply py_max_0_bounds.
    setoid_replace 100 with (100 * 1) at 2 by reflexivity.
    apply Qmult_le_l; [reflexivity|].
    apply Qle_shift_div_r; [exact Plo|]. lra.
  - apply Qlt_bool_false in B.
    assert (H : Qle_bool ratio hi = false).
    { apply Qle_bool_iff in B. rewrite B in In. exact In. }
    assert (A : hi < ratio).
    { apply Qnot_le_lt. intros L. apply Qle_bool_iff in L. congruence. }
    apply py_max_0_bounds.
    setoid_replace 100 with (100 * 1) at 2 by reflexivity.
    apply Qmult_le_l; [reflexivity|].
    apply Qle_shift_div_r; [exact Pr|]. lra.
Qed.

Lemma completeness_bounds source_text translated_text :
  0 <= _analyze_completeness lower source_text translated_text
  /\ _analyze_completeness lower source_text translated_text <= 100.
Proof.
  unfold _analyze_completeness.
  destruct (is_empty source_text || is_empty translated_text);
    [split; discriminate|].
  apply py_max_0_bounds.
  repeat (apply penalty_keeps_bound; [discriminate|]).
  destruct (len source_text >? 20)%Z.
  - apply penalty_keeps_bound; [discriminate|].
    apply penalty_keeps_bound; [discriminate|]. discriminate.
  - apply penalty_keeps_bound; [discriminate|]. discriminate.
Qed.

Lemma fluency_body_bounds text score :
  fluency_body re_split re_findall re_search text = inr score ->
  0 <= score /\ score <= 100.
Proof.
  unfold fluency_body. intros H.
  destruct (re_split pat_sentence_end text) as [e|sentences]; [discriminate|].
  destruct (re_findall pat_punct text) as [e|puncts]; [discriminate|].
  cbn [ExcMonad.bind] in H.
  match type of H with
  | ExcMonad.bind (ExcMonad.foldM ?body ?xs ?init) _ = _ =>
      destruct (ExcMonad.foldM body xs init) as [e|final] eqn:F;
        [discriminate|];
        assert (B : final <= 100)
  end.
  { eapply (@foldM_invariant _ _ (fun s => s <= 100)); [| |exact F].
    - intros acc x acc' Pa Hb. cbv beta in Hb.
      destruct (re_search x text) as [e|found]; [discriminate|].
      cbn [ExcMonad.bind] in Hb. inversion Hb; subst.
      apply penalty_keeps_bound; [discriminate | exact Pa].
    - assert (S1 : (if (1 <? Datatypes.length (split text))%nat
                    then if Qlt_bool 2.0
                              (Qnat (Datatypes.length (split text))
                               / Qnat (Datatypes.length (set_of (split text))))
                         then 100 - 20 else 100
                    else 100) <= 100)
        by (destruct (1 <? _)%nat; [apply penalty_keeps_bound|]; discriminate).
      set (s1 := if (1 <? Datatypes.length (split text))%nat then _ else _) in *.
      assert (S2 : match sentences with
                   | [] => s1
                   | _ :: _ =>
                       if Qlt_bool
                            (Qnat (list_sum
                                     (List.map (fun s => Datatypes.length (split s))
                                        sentences))
                             / Qnat (Datatypes.length sentences)) 3
                       then s1 - 15
                       else if Qlt_bool 50
                                 (Qnat (list_sum
                                          (List.map
                                             (fun s => Datatypes.length (split s))
                                             sentences))
                                  / Qnat (Datatypes.length sentences))
                            then s1 - 10 else s1
                   end <= 100).
      { destruct sentences; [exact S1|].
        destruct (Qlt_bool _ 3); [lra|].
        destruct (Qlt_bool 50 _); lra. }
      set (s2 := match sentences with [] => s1 | _ :: _ => _ end) in *.
      destruct (0 <? Datatypes.length (split text))%nat; [|exact S2].
      destruct (Qlt_bool 0.3 _); [lra|].
      destruct (Qlt_bool _ 0.05 && _); lra. }
  cbn [ExcMonad.bind] in H. inversion H; subst.
  apply py_max_0_bounds. exact B.
Qed.

Lemma fluency_bounds text language :
  0 <= _analyze_fluency re_split re_findall re_search text language
  /\ _analyze_fluency re_split re_findall re_search text language <= 100.
Proof.
  unfold _analyze_fluency.
  destruct (is_empty text); [split; discriminate|].
  destruct (fluency_body re_split re_findall re_search text) as [e|score] eqn:F.
  - split; discriminate.
  - eapply fluency_body_bounds; eauto.
Qed.

Lemma format_preservation_bounds source_text translated_text score :
  _analyze_format_preservation re_findall source_text translated_text = inr score ->
  0 <= score /\ score <= 100.
Proof.
  unfold _analyze_format_preservation. intros H.
  destruct (is_empty source_text || is_empty translated_text).
  { inversion H; subst. split; discriminate. }
  match type of H with
  | ExcMonad.bind (ExcMonad.foldM ?body ?xs ?init) _ = _ =>
      destruct (ExcMonad.foldM body xs init) as [e|final] eqn:F;
        [discriminate|];
        assert (B : final <= 100)
  end.
  { eapply (@foldM_invariant _ _ (fun s => s <= 100)); [| |exact F].
    - intros acc x acc' Pa Hb. cbv beta in Hb.
      destruct (re_findall x source_text) as [e|sf]; [discriminate|].
      destruct (re_findall x translated_text) as [e|tf]; [discriminate|].
      cbn [ExcMonad.bind] in Hb. inversion Hb; subst.
      destruct (0 <? Datatypes.length sf)%nat; [|exact Pa].
      apply penalty_keeps_bound; [discriminate | exact Pa].
    - destruct (0 <? _)%nat; [apply penalty_keeps_bound|]; discriminate. }
  cbn [ExcMonad.bind] in H. inversion H; subst.
  apply py_max_0_bounds. exact B.
Qed.

Lemma preserved_check_bound pattern threshold penalty source_text
  translated_text score score' :
  0 <= penalty -> score <= 100 ->
  preserved_check re_findall pattern threshold penalty
    source_text translated_text score = inr score' ->
  score' <= 100.
Proof.
  intros P B H. unfold preserved_check in H.
  destruct (re_findall pattern source_text) as [e|sf]; [discriminate|].
  destruct (re_findall pattern translated_text) as [e|tf]; [discriminate|].
  cbn [ExcMonad.bind] in H. inversion H; subst.
  destruct sf; [exact B|]. apply penalty_keeps_bound; assumption.
Qed.

Lemma special_characters_bounds source_text translated_text score :
  _analyze_special_characters re_findall source_text translated_text = inr score ->
  0 <= score /\ score <= 100.
Proof.
  unfold _analyze_special_characters. intros H.
  destruct (is_empty source_text || is_empty translated_text).
  { inversion H; subst. split; discriminate. }
  destruct (preserved_check re_findall pat_number 0.8 20
              source_text translated_text 100) as [e|s1] eqn:E1; [discriminate|].
  cbn [ExcMonad.bind] in H.
  destruct (preserved_check re_findall pat_url 0.9 15
              source_text translated_text s1) as [e|s2] eqn:E2; [discriminate|].
  cbn [ExcMonad.bind] in H.
  destruct (preserved_check re_findall pat_email 0.9 15
              source_text translated_text s2) as [e|s3] eqn:E3; [discriminate|].
  cbn [ExcMonad.bind] in H. inversion H; subst.
  apply py_max_0_bounds.
  eapply preserved_check_bound; [| |exact E3]; [discriminate|].
  eapply preserved_check_bound; [| |exact E2]; [discriminate|].
  eapply preserved_check_bound; [| |exact E1]; discriminate.
Qed.

End Scorer.

End SubScoreFacts.

Module ScorerExtra.

Import TextAnalyzer PyStrFacts SelectBestSpec SubScoreFacts.
Local Open Scope Q_scope.

Lemma intersection_self (a : list str) : intersection a a = a.
Proof.
  unfold intersection.
  assert (X : forall l, incl l a ->
                        filter (fun x => existsb (PyStr.eqb x) a) l = l).
  { induction l as [|x l IH]; intros I; simpl; auto.
    assert (E : existsb (PyStr.eqb x) a = true).
    { apply existsb_exists. exists x. split; [apply I; left; auto|].
      apply eqb_refl. }
    rewrite E, IH; auto. intros y H; apply I; right; exact H. }
  apply X, incl_refl.
Qed.

Lemma Qnat_pos (n : nat) : (0 < n)%nat -> 0 < Qnat n.
Proof.
  intros H. unfold Qnat. change 0 with (inject_Z 0). rewrite <- Zlt_Qlt. lia.
Qed.

Section Scorer.

Variable lower : str -> str.
Variable re_split : str -> str -> Exc (list str).
Variable re_findall : str -> str -> Exc (list str).
Variable re_search : str -> str -> Exc bool.

(** X1.  Every sub-score lies in [0, 100]: the length ratio, the completeness
    and the fluency on every input, and the format and special-character
    scores whenever they return. *)
Theorem sub_scores_in_range
  (source_text translated_text source_lang target_lang : str) :
  (0 <= _analyze_length_ratio source_text translated_text source_lang target_lang
   /\ _analyze_length_ratio source_text translated_text source_lang target_lang
      <= 100)
  /\ (0 <= _analyze_completeness lower source_text translated_text
      /\ _analyze_completeness lower source_text translated_text <= 100)
  /\ (0 <= _analyze_fluency re_split re_findall re_search translated_text target_lang
      /\ _analyze_fluency re_split re_findall re_search translated_text target_lang
         <= 100)
  /\ (forall score,
         _analyze_format_preservation re_findall source_text translated_text
         = inr score -> 0 <= score /\ score <= 100)
  /\ (forall score,
         _analyze_special_characters re_findall source_text translated_text
         = inr score -> 0 <= score /\ score <= 100).
Proof.
  split; [apply length_ratio_bounds|].
  split; [apply completeness_bounds|].
  split; [apply fluency_bounds|].
  split; intros score H.
  - eapply format_preservation_bounds; eauto.
  - eapply special_characters_bounds; eauto.
Qed.

Lemma weighted_sum_of_body
  (source_text translated_text source_lang target_lang : str) (score : Q) :
  quality_body lower re_split re_findall re_search
    source_text translated_text source_lang target_lang = inr score ->
  exists format_score special_score,
    _analyze_format_preservation re_findall source_text translated_text
    = inr format_score
    /\ _analyze_special_characters re_findall source_text translated_text
       = inr special_score
    /\ analyze_text_quality lower re_split re_findall re_search
         source_text translated_text source_lang target_lang
       == _analyze_length_ratio source_text translated_text source_lang target_lang
          * 0.2
          + _analyze_completeness lower source_text translated_text * 0.25
          + _analyze_fluency re_split re_findall re_search translated_text
              target_lang * 0.25
          + format_score * 0.15
          + special_score * 0.15.
Proof.
  intros H. unfold analyze_text_quality. rewrite H.
  unfold quality_body in H.
  destruct (_analyze_format_preservation re_findall source_text translated_text)
    as [e|f] eqn:F; [discriminate|].
  destruct (_analyze_special_characters re_findall source_text translated_text)
    as [e|s] eqn:S; [discriminate|].
  cbn [ExcMonad.bind] in H. inversion H as [E]. clear H.
  exists f, s. split; [reflexivity|]. split; [reflexivity|].
  destruct (length_ratio_bounds source_text translated_text source_lang target_lang)
    as [L0 L1].
  destruct (completeness_bounds lower source_text translated_text) as [C0 C1].
  destruct (fluency_bounds re_split re_findall re_search translated_text target_lang)
    as [U0 U1].
  destruct (format_preservation_bounds _ _ _ F) as [F0 F1].
  destruct (special_characters_bounds _ _ _ S) as [S0 S1].
  set (l := _analyze_length_ratio source_text translated_text source_lang target_lang) in *.
  set (c := _analyze_completeness lower source_text translated_text) in *.
  set (u := _analyze_fluency re_split re_findall re_search translated_text target_lang) in *.
  set (total := 0 + l * 0.2 + c * 0.25 + u * 0.25 + f * 0.15 + s * 0.15).
  assert (T0 : 0 <= total) by (unfold total; lra).
  assert (T1 : total <= 100) by (unfold total; lra).
  assert (M : py_max 0 total == total).
  { unfold py_max. destruct (Qlt_bool 0 total) eqn:P; [reflexivity|].
    apply Qlt_bool_false in P. lra. }
  assert (N : py_min 100 (py_max 0 total) == total).
  { unfold py_min. destruct (Qlt_bool (py_max 0 total) 100) eqn:P.
    - exact M.
    - apply Qlt_bool_false in P. lra. }
  rewrite N. unfold total. lra.
Qed.

(** X2.  When the analysis returns, the quality score is the weighted sum of
    the five sub-scores with weights 0.2, 0.25, 0.25, 0.15 and 0.15: the
    final clamp to [0, 100] never changes its value. *)
Theorem quality_is_weighted_sum
  (source_text translated_text source_lang target_lang : str) (score : Q) :
  quality_body lower re_split re_findall re_search
    source_text translated_text source_lang target_lang = inr score ->
  exists format_score special_score,
    _analyze_format_preservation re_findall source_text translated_text
    = inr format_score
    /\ _analyze_special_characters re_findall source_text translated_text
       = inr special_score
    /\ analyze_text_quality lower re_split re_findall re_search
         source_text translated_text source_lang target_lang
       == _analyze_length_ratio source_text translated_text source_lang target_lang
          * 0.2
          + _analyze_completeness lower source_text translated_text * 0.25
          + _analyze_fluency re_split re_findall re_search translated_text
              target_lang * 0.25
          + format_score * 0.15
          + special_score * 0.15.
Proof. apply weighted_sum_of_body. Qed.

(** X3.  An empty translation scores exactly 0 whatever the source, and an
    empty source leaves only the fluency of the translation, so the score
    is at most 25. *)
Theorem quality_of_empty_texts (text source_lang target_lang : str) :
  analyze_text_quality lower re_split re_findall re_search
    text [] source_lang target_lang = 0
  /\ analyze_text_quality lower re_split re_findall re_search
       [] text source_lang target_lang
     == _analyze_fluency re_split re_findall re_search text target_lang * 0.25
  /\ analyze_text_quality lower re_split re_findall re_search
       [] text source_lang target_lang <= 25.
Proof.
  split.
  - unfold analyze_text_quality, quality_body,
      _analyze_length_ratio, _analyze_completeness, _analyze_fluency,
      _analyze_format_preservation, _analyze_special_characters.
    rewrite orb_true_r. reflexivity.
  - assert (B : quality_body lower re_split re_findall re_search
                  [] text source_lang target_lang
                = inr (py_min 100
                         (py_max 0
                            (0 + 0 * 0.2 + 0 * 0.25
                             + _analyze_fluency re_split re_findall re_search
                                 text target_lang * 0.25
                             + 0 * 0.15 + 0 * 0.15)))) by reflexivity.
    destruct (weighted_sum_of_body _ _ _ _ B) as (f & s & F & S & E).
    change (_analyze_format_preservation re_findall [] text) with (@inr exn Q 0) in F.
    change (_analyze_special_characters re_findall [] text) with (@inr exn Q 0) in S.
    inversion F; inversion S; subst.
    change (_analyze_length_ratio [] text source_lang target_lang) with 0 in E.
    change (_analyze_completeness lower [] text) with 0 in E.
    destruct (fluency_bounds re_split re_findall re_search text target_lang)
      as [U0 U1].
    split; [rewrite E; lra | rewrite E; lra].
Qed.

(** X4.  A translation equal to a source longer than 20 characters is taken
    for untranslated text: its completeness is at most 60. *)
Theorem completeness_of_untranslated_text (text : str) :
  (20 < len text)%Z ->
  split (lower text) <> [] ->
  _analyze_completeness lower text text <= 60.
Proof.
  intros L W. unfold _analyze_completeness.
  assert (E : is_empty text || is_empty text = false)
    by (destruct text; [unfold len in L; simpl in L; lia | reflexivity]).
  rewrite E. apply Z.gtb_lt in L. rewrite L.
  rewrite intersection_self.
  set (n := Datatypes.length (set_of (split (lower text)))).
  assert (Pn : 0 < Qnat n).
  { apply Qnat_pos. unfold n, set_of.
    destruct (split (lower text)) as [|w ws] eqn:S; [congruence|].
    assert (I : In w (nodup str_eq_dec (w :: ws)))
      by (apply nodup_In; left; reflexivity).
    destruct (nodup str_eq_dec (w :: ws)); [destruct I | simpl; lia]. }
  assert (O : Qlt_bool (Qnat n * 0.7) (Qnat n) = true)
    by (apply Qlt_bool_iff; lra).
  rewrite O.
  set (s0 := if endswith text ellipsis3 || endswith text ellipsis1
             then 100 - 30 else 100).
  assert (S0 : s0 <= 100)
    by (unfold s0;
        destruct (endswith text ellipsis3 || endswith text ellipsis1); lra).
  clearbody s0.
  assert (B : (if Qlt_bool (Qlen (strip text)) (Qlen (strip text) * 0.1)
               then s0 - 40 - 50 else s0 - 40) <= 60)
    by (destruct (Qlt_bool (Qlen (strip text)) (Qlen (strip text) * 0.1)); lra).
  cbv iota. unfold py_max.
  match goal with
  | |- (if Qlt_bool 0 ?x then _ else _) <= _ => destruct (Qlt_bool 0 x)
  end; [exact B | discriminate].
Qed.

End Scorer.

Lemma quality_is_weighted_sum_witness :
  analyze_text_quality ascii_lower empty_split empty_findall failing_search
    (lit "Hello world") (lit "abcdef") (lit "en") (lit "zh")
  == 100 * 0.2 + 100 * 0.25 + 85 * 0.25 + 100 * 0.15 + 100 * 0.15.
Proof.
  destruct (@quality_is_weighted_sum ascii_lower empty_split empty_findall
              failing_search (lit "Hello world") (lit "abcdef") (lit "en")
              (lit "zh") _ eq_refl) as (f & s & F & S & E).
  rewrite E. vm_compute in F, S. inversion F; inversion S; subst.
  vm_compute. reflexivity.
Defined.

Lemma completeness_of_untranslated_text_witness :
  _analyze_completeness ascii_lower
    (lit "This sentence was left as it is")
    (lit "This sentence was left as it is") <= 60.
Proof.
  apply completeness_of_untranslated_text.
  - vm_compute. reflexivity.
  - vm_compute. discriminate.
Defined.

End ScorerExtra.

(** ** More on the orchestrator *)

Module ServiceExtra.

Import TranslationService PyStrFacts DictFacts OrchestratorFacts SelectBestSpec.

Lemma run_tasks_log text source_lang target_lang tasks :
  forall results errors log,
  exists results' errors',
    run_tasks text source_lang target_lang tasks results errors log
    = (inr (results', errors'),
       log ++ List.map (task_call text source_lang target_lang) tasks).
Proof.
  induction tasks as [|[k eng] tasks IH]; intros results errors log.
  - exists results, errors. simpl. rewrite app_nil_r. reflexivity.
  - rewrite run_tasks_cons. cbn [List.map].
    destruct (engine_translate eng text source_lang target_lang []) as [e|r].
    + destruct (IH results (Dict.set errors k (exn_str e))
                  (log ++ [task_call text source_lang target_lang (k, eng)]))
        as (R & E & H).
      exists R, E. rewrite H, <- app_assoc. reflexivity.
    + destruct (IH (Dict.set results k r) errors
                  (log ++ [task_call text source_lang target_lang (k, eng)]))
        as (R & E & H).
      exists R, E. rewrite H, <- app_assoc. reflexivity.
Qed.

Lemma nodup_keys_functional (V : Type) (d : list (str * V)) k a b :
  NoDup (List.map fst d) -> In (k, a) d -> In (k, b) d -> a = b.
Proof.
  induction d as [|[k' v] d IH]; intros N Ia Ib; [destruct Ia|].
  inversion N as [|? ? Nk Nd]; subst.
  destruct Ia as [Ia|Ia]; destruct Ib as [Ib|Ib].
  - congruence.
  - inversion Ia; subst. exfalso. apply Nk.
    apply (in_map fst) in Ib. exact Ib.
  - inversion Ib; subst. exfalso. apply Nk.
    apply (in_map fst) in Ia. exact Ia.
  - auto.
Qed.

Lemma in_task_results text sl tl tasks k r :
  In (k, r) (task_results text sl tl tasks)
  <-> exists eng, In (k, eng) tasks /\ engine_translate eng text sl tl [] = inr r.
Proof.
  unfold task_results. rewrite in_flat_map. split.
  - intros [[k' eng] [I H]]. cbn [fst snd] in H.
    destruct (engine_translate eng text sl tl []) as [e|r'] eqn:E;
      [destruct H|].
    destruct H as [H|[]]. inversion H; subst. exists eng. auto.
  - intros [eng [I E]]. exists (k, eng). split; [exact I|].
    cbn [fst snd]. rewrite E. left. reflexivity.
Qed.

Lemma in_task_errors text sl tl tasks k m :
  In (k, m) (task_errors text sl tl tasks)
  <-> exists eng e, In (k, eng) tasks
                    /\ engine_translate eng text sl tl [] = inl e
                    /\ m = exn_str e.
Proof.
  unfold task_errors. rewrite in_flat_map. split.
  - intros [[k' eng] [I H]]. cbn [fst snd] in H.
    destruct (engine_translate eng text sl tl []) as [e|r'] eqn:E;
      [|destruct H].
    destruct H as [H|[]]. inversion H; subst. exists eng, e. auto.
  - intros [eng [e [I [E ->]]]]. exists (k, eng). split; [exact I|].
    cbn [fst snd]. rewrite E. left. reflexivity.
Qed.

(** X5.  [_initialize_engines] calls the constructors of the engines
    whose credentials are set, in the order openai, anthropic, google,
    baidu, and no other.  When it returns, the engines are exactly those,
    each as its constructor built it, under its own id, in that order and
    without repetition.  When it raises, the exception is that of the
    first constructor that raised, and all configured engines before it
    were built. *)
Theorem initialize_engines_keys
  (openai anthropic google baidu : Settings -> Exc TranslationEngine)
  (cfg : Settings) :
  let configured :=
    (if truthy (OPENAI_API_KEY cfg) then [(lit "openai", openai cfg)] else [])
    ++ (if truthy (ANTHROPIC_API_KEY cfg)
        then [(lit "anthropic", anthropic cfg)] else [])
    ++ (if truthy (GOOGLE_API_KEY cfg) then [(lit "google", google cfg)] else [])
    ++ (if truthy (BAIDU_APP_ID cfg) && truthy (BAIDU_SECRET_KEY cfg)
        then [(lit "baidu", baidu cfg)] else []) in
  NoDup (List.map fst configured)
  /\ (forall engines,
         _initialize_engines openai anthropic google baidu cfg = inr engines ->
         List.map (fun item => (fst item, inr (snd item))) engines = configured)
  /\ (forall e,
         _initialize_engines openai anthropic google baidu cfg = inl e ->
         exists built k rest,
           configured
           = List.map (fun item => (fst item, inr (snd item))) built
             ++ (k, inl e) :: rest)
  /\ ((forall k built, In (k, built) configured -> exists eng, built = inr eng) ->
      exists engines,
        _initialize_engines openai anthropic google baidu cfg = inr engines).
Proof.
  cbv zeta. unfold _initialize_engines.
  destruct (truthy (OPENAI_API_KEY cfg));
    destruct (truthy (ANTHROPIC_API_KEY cfg));
    destruct (truthy (GOOGLE_API_KEY cfg));
    destruct (truthy (BAIDU_APP_ID cfg) && truthy (BAIDU_SECRET_KEY cfg));
    cbn [app];
    (split; [cbn [List.map fst]; nodup_literals || constructor|]);
    destruct (openai cfg) as [e1|o]; destruct (anthropic cfg) as [e2|a];
    destruct (google cfg) as [e3|g]; destruct (baidu cfg) as [e4|b];
    cbn [ExcMonad.bind Dict.set PyStr.eqb lit List.map fst snd];
    (split; [intros engines H; try discriminate H; inversion H; reflexivity|]);
    (split;
     [intros e H; try discriminate H; inversion H; subst;
      first [ exists [], (lit "openai"); eexists; reflexivity
            | exists [], (lit "anthropic"); eexists; reflexivity
            | exists [], (lit "google"); eexists; reflexivity
            | exists [], (lit "baidu"); eexists; reflexivity
            | eexists [(_, _)], _; eexists; reflexivity
            | eexists [(_, _); (_, _)], _; eexists; reflexivity
            | eexists [(_, _); (_, _); (_, _)], _; eexists; reflexivity ]
     |]);
    intros A;
    try (eexists; reflexivity);
    exfalso;
    first [ destruct (A _ _ (or_introl eq_refl)) as [? ?]; discriminate
          | destruct (A _ _ (or_intror (or_introl eq_refl))) as [? ?]; discriminate
          | destruct (A _ _ (or_intror (or_intror (or_introl eq_refl)))) as [? ?];
            discriminate
          | destruct (A _ _ (or_intror (or_intror (or_intror (or_introl eq_refl)))))
              as [? ?]; discriminate ].
Qed.

Lemma initialize_engines_keys_witness :
  exists engines,
    _initialize_engines
      (fun _ => inl (Exception (lit "no client")))
      (fun _ => inl (Exception (lit "no client")))
      (fun _ => inr (echo_engine (lit "google") 80))
      (fun _ => inr (echo_engine (lit "baidu") 80))
      {| OPENAI_API_KEY := None; ANTHROPIC_API_KEY := None;
         GOOGLE_API_KEY := Some (lit "key"); BAIDU_APP_ID := Some (lit "id");
         BAIDU_SECRET_KEY := None; MAX_TRANSLATION_LENGTH := 10000 |}
    = inr engines.
Proof.
  apply (@initialize_engines_keys
           (fun _ => inl (Exception (lit "no client")))
           (fun _ => inl (Exception (lit "no client")))
           (fun _ => inr (echo_engine (lit "google") 80))
           (fun _ => inr (echo_engine (lit "baidu") 80))).
  intros k built [H|[]]. inversion H. eexists. reflexivity.
Defined.

Lemma make_tasks_filter (self : Service) (requested : list str) :
  List.map fst (make_tasks self requested)
  = filter (Dict.mem (engines self)) requested
  /\ Forall (fun task => Dict.get (engines self) (fst task) = Some (snd task))
       (make_tasks self requested).
Proof.
  induction requested as [|k requested [IHk IHe]]; [split; constructor|].
  cbn [make_tasks filter]. unfold Dict.mem at 1.
  destruct (Dict.get (engines self) k) as [eng|] eqn:G.
  - cbn [List.map fst]. rewrite IHk. split; [reflexivity|].
    constructor; [exact G | exact IHe].
  - split; assumption.
Qed.

(** X6.  [compare_translations] never raises.  It makes one call for
    every entry of the requested list that names a configured engine, in
    the order of the list (all configured engines when no list is given;
    an engine that is listed twice is called twice), each to the engine
    configured under that id, always with the same text, the same resolved
    source language and target language, and without options; an engine
    that raises does not keep the later ones from being called. *)
Theorem compare_calls_every_selected_engine
  (langdetect : str -> Exc str) (self : Service)
  (text source_lang target_lang : str) (requested : option (list str))
  (log : list Call) :
  let ids := match requested with
             | None => Dict.keys (engines self)
             | Some l => l
             end in
  exists cmp tasks,
    compare_translations langdetect self text source_lang target_lang
      requested log
    = (inr cmp,
       log ++ List.map
                (task_call text
                   (resolved_source_lang langdetect text source_lang)
                   target_lang)
                tasks)
    /\ List.map fst tasks = filter (Dict.mem (engines self)) ids
    /\ Forall (fun task => Dict.get (engines self) (fst task) = Some (snd task))
         tasks
    /\ cmp_source_language cmp
       = resolved_source_lang langdetect text source_lang.
Proof.
  cbv zeta. unfold compare_translations.
  fold (resolved_source_lang langdetect text source_lang).
  set (sl := resolved_source_lang langdetect text source_lang).
  set (tasks := make_tasks self _).
  destruct (@run_tasks_log text sl target_lang tasks [] [] log) as (R & E & H).
  unfold bind. rewrite H. eexists. exists tasks.
  split; [reflexivity|].
  destruct (make_tasks_filter self
              match requested with
              | Some l => l
              | None => Dict.keys (engines self)
              end) as [F G].
  split; [exact F|]. split; [exact G|reflexivity].
Qed.

Example compare_calls_a_repeated_engine_twice :
  snd (compare_translations no_langdetect
         (service_of [(lit "google", echo_engine (lit "google") 80)])
         (lit "hello") (lit "en") (lit "zh")
         (Some [lit "google"; lit "openai"; lit "google"]) [])
  = [ {| call_engine := lit "google"; call_text := lit "hello";
         call_source_lang := lit "en"; call_target_lang := lit "zh";
         call_kwargs := [] |};
      {| call_engine := lit "google"; call_text := lit "hello";
         call_source_lang := lit "en"; call_target_lang := lit "zh";
         call_kwargs := [] |} ].
Proof. vm_compute. reflexivity. Qed.

(** X7.  For distinct requested ids, [results] holds exactly what the selected
    engines returned and [errors] exactly the messages of those that
    raised, each under the engine's id; no id is in both. *)
Theorem compare_results_and_errors_partition
  (langdetect : str -> Exc str) (self : Service)
  (text source_lang target_lang : str) (requested : option (list str))
  (log : list Call) :
  let ids := match requested with
             | None => Dict.keys (engines self)
             | Some l => l
             end in
  let sl := resolved_source_lang langdetect text source_lang in
  NoDup ids ->
  exists cmp log',
    compare_translations langdetect self text source_lang target_lang
      requested log = (inr cmp, log')
    /\ (forall k r,
           In (k, r) (results cmp)
           <-> exists eng,
                 In k ids /\ Dict.get (engines self) k = Some eng
                 /\ engine_translate eng text sl target_lang [] = inr r)
    /\ (forall k m,
           In (k, m) (errors cmp)
           <-> exists eng e,
                 In k ids /\ Dict.get (engines self) k = Some eng
                 /\ engine_translate eng text sl target_lang [] = inl e
                 /\ m = exn_str e)
    /\ (forall k, In k (Dict.keys (results cmp)) ->
                  ~ In k (Dict.keys (errors cmp))).
Proof.
  cbv zeta. intros N.
  set (ids := match requested with
              | None => Dict.keys (engines self)
              | Some l => l
              end) in *.
  set (sl := resolved_source_lang langdetect text source_lang).
  pose proof (make_tasks_nodup self N) as NT.
  assert (TI : forall k eng,
             In (k, eng) (make_tasks self ids)
             <-> In k ids /\ Dict.get (engines self) k = Some eng).
  { intros k eng. split; [apply make_tasks_in|].
    intros [I G]. clear N NT. induction ids as [|x ids IH]; [destruct I|].
    simpl. destruct I as [->|I].
    - rewrite G. left. reflexivity.
    - destruct (Dict.get (engines self) x); [right|]; auto. }
  unfold compare_translations. fold ids.
  fold (resolved_source_lang langdetect text source_lang). fold sl.
  unfold bind. rewrite run_tasks_fresh; [|exact NT|simpl; tauto].
  cbn [app fst snd ret]. eexists _, _. split; [reflexivity|].
  cbn [results errors]. split; [|split].
  - intros k r. rewrite in_task_results. split.
    + intros [eng [I E]]. exists eng. apply TI in I. tauto.
    + intros [eng [I [G E]]]. exists eng. split; [apply TI; auto | exact E].
  - intros k m. rewrite in_task_errors. split.
    + intros [eng [e [I [E M]]]]. exists eng, e. apply TI in I. tauto.
    + intros [eng [e [I [G [E M]]]]]. exists eng, e.
      split; [apply TI; auto | auto].
  - intros k IR IE.
    apply in_map_iff in IR. destruct IR as [[k1 r] [<- IR]].
    apply in_map_iff in IE. destruct IE as [[k2 m] [K IE]].
    cbn [fst] in K. subst k2.
    apply in_task_results in IR. destruct IR as [eng1 [I1 E1]].
    apply in_task_errors in IE. destruct IE as [eng2 [e [I2 [E2 _]]]].
    assert (eng1 = eng2) by (eapply nodup_keys_functional; eauto).
    subst. congruence.
Qed.

Lemma compare_results_and_errors_partition_witness :
  exists cmp,
    fst (compare_translations no_langdetect
           (service_of [(lit "openai", echo_engine (lit "openai") 80);
                        (lit "baidu", failing_engine (lit "baidu"))])
           (lit "hello") (lit "en") (lit "zh")
           (Some [lit "baidu"; lit "openai"]) [])
    = inr cmp
    /\ ~ In (lit "openai") (Dict.keys (errors cmp)).
Proof.
  destruct (@compare_results_and_errors_partition no_langdetect
              (service_of [(lit "openai", echo_engine (lit "openai") 80);
                           (lit "baidu", failing_engine (lit "baidu"))])
              (lit "hello") (lit "en") (lit "zh")
              (Some [lit "baidu"; lit "openai"]) [])
    as (cmp & log' & E & R & _ & D).
  - nodup_literals.
  - exists cmp. rewrite E. split; [reflexivity|].
    apply D. apply in_map_iff.
    exists (lit "openai", sample_result (lit "openai") (lit "hello") 80).
    split; [reflexivity|]. apply R.
    exists (echo_engine (lit "openai") 80).
    split; [right; left; reflexivity|]. split; reflexivity.
Defined.

(** With scores 70, 90, 90 the selected entry is preceded only by
    strictly worse entries. *)
Lemma select_best_first_max_witness :
  exists before k after,
    [(lit "a", sample_result (lit "a") (lit "x") 70);
     (lit "b", sample_result (lit "b") (lit "y") 90);
     (lit "c", sample_result (lit "c") (lit "z") 90)]
    = before ++ (k, sample_result (lit "b") (lit "y") 90) :: after
    /\ (forall r, In r (Dict.values before) -> (get_quality_score r < 90)%Q).
Proof.
  destruct (@select_best_first_max
              [(lit "a", sample_result (lit "a") (lit "x") 70);
               (lit "b", sample_result (lit "b") (lit "y") 90);
               (lit "c", sample_result (lit "c") (lit "z") 90)]
              (sample_result (lit "b") (lit "y") 90) eq_refl)
    as (before & k & after & E & P & B & A).
  exists before, k, after. split; [exact E | exact B].
Defined.

End ServiceExtra.

(** ** More on splitting into chunks *)

Module ChunkingExtra.

Import FileService PyStrFacts ChunkingFacts ChunkLoopFacts.

Lemma len_lstrip (s : str) : (len (lstrip s) <= len s)%Z.
Proof.
  unfold len. induction s as [|c s IH]; simpl; [lia|].
  destruct (is_space c); simpl; lia.
Qed.

Lemma len_rstrip (s : str) : (len (rstrip s) <= len s)%Z.
Proof.
  unfold len. induction s as [|c s IH]; [simpl; lia|].
  rewrite rstrip_cons. destruct (is_space c && is_blank s); simpl in *; lia.
Qed.

Lemma len_strip (s : str) : (len (strip s) <= len s)%Z.
Proof.
  unfold strip. pose proof (len_rstrip (lstrip s)). pose proof (len_lstrip s).
  lia.
Qed.

Lemma len_app (a b : str) : len (a ++ b) = (len a + len b)%Z.
Proof. unfold len. rewrite length_app. lia. Qed.

Lemma strip_idem (s : str) : strip (strip s) = strip s.
Proof.
  unfold strip at 2. rewrite strip_rstrip, strip_lstrip. reflexivity.
Qed.

Section Bound.

Variable chunk_size : Z.
Variable all : list str.

Local Abbreviation fits := (fits_budget chunk_size all).
Local Abbreviation growing := (growing_chunk chunk_size all).

Lemma flush_fits (current : str) :
  growing current -> current <> [] -> fits (strip current).
Proof.
  intros [->|[B [L|I]]] N; [congruence| |].
  - left. pose proof (len_strip current). lia.
  - right. exists current. auto.
Qed.

Lemma chunk_loop_fits (sentences : list str) :
  incl sentences all ->
  forall chunks current,
    Forall fits chunks -> growing current ->
    Forall fits (chunk_loop chunk_size sentences chunks current).
Proof.
  induction sentences as [|s sentences IH]; intros I chunks current F C;
    cbn [chunk_loop].
  - destruct (is_blank current) eqn:B; [exact F|].
    apply Forall_app. split; [exact F|]. constructor; [|constructor].
    apply flush_fits; auto. intros ->. discriminate B.
  - assert (Is : In s all) by (apply I; left; reflexivity).
    assert (I' : incl sentences all) by (intros x H; apply I; right; exact H).
    destruct (is_blank s) eqn:Bs; [apply IH; auto|].
    assert (Gs : growing s) by (right; split; [exact Bs | right; exact Is]).
    destruct current as [|c0 current].
    + rewrite andb_false_r. cbn [negb is_empty]. apply IH; auto.
    + cbn [is_empty negb]. rewrite andb_true_r.
      destruct (len (c0 :: current) + len s >? chunk_size)%Z eqn:G.
      * apply IH; auto.
        apply Forall_app. split; [exact F|]. constructor; [|constructor].
        apply flush_fits; [exact C | discriminate].
      * apply IH; auto. right. split.
        -- rewrite !blank_app, Bs, !andb_false_r. reflexivity.
        -- left. rewrite Z.gtb_ltb in G. apply Z.ltb_ge in G.
           rewrite !len_app. change (len sentence_sep) with 2%Z. lia.
Qed.

Lemma chunk_loop_stripped (sentences : list str) :
  forall chunks current,
    Forall stripped chunks ->
    current = [] \/ is_blank current = false ->
    Forall stripped (chunk_loop chunk_size sentences chunks current).
Proof.
  assert (Flush : forall current,
             is_blank current = false -> stripped (strip current)).
  { intros current B. split; [rewrite blank_strip; exact B | apply strip_idem]. }
  induction sentences as [|s sentences IH]; intros chunks current F C;
    cbn [chunk_loop].
  - destruct (is_blank current) eqn:B; [exact F|].
    apply Forall_app. split; [exact F|]. constructor; [|constructor].
    apply Flush; exact B.
  - destruct (is_blank s) eqn:Bs; [apply IH; auto|].
    destruct current as [|c0 current].
    + rewrite andb_false_r. cbn [negb is_empty]. apply IH; auto.
    + cbn [is_empty negb]. rewrite andb_true_r.
      destruct C as [C|C]; [discriminate C|].
      destruct (len (c0 :: current) + len s >? chunk_size)%Z.
      * apply IH; auto.
        apply Forall_app. split; [exact F|]. constructor; [|constructor].
        apply Flush; exact C.
      * apply IH; auto. right.
        rewrite !blank_app, Bs, !andb_false_r. reflexivity.
Qed.

End Bound.

Example chunk_exceeds_budget_by_separator :
  split_text_into_chunks (lit "abcd. efgh. ij") (Some 8%Z)
  = [lit "abcd. efgh"; lit "ij"].
Proof. vm_compute. reflexivity. Qed.

Example punctuation_only_text_has_no_chunk :
  split_text_into_chunks (lit "... !!") (Some 3%Z) = [].
Proof. vm_compute. reflexivity. Qed.

(** X8.  Every chunk is at most two characters (one separator) longer than the
    budget, unless it is one whole sentence of the text, stripped: a
    sentence longer than the budget is never cut. *)
Theorem chunk_length_bound (text : str) (chunk_size : option Z) (c : str) :
  let budget := match chunk_size with
                | None => default_chunk_size
                | Some n => n
                end in
  In c (split_text_into_chunks text chunk_size) ->
  (len c <= budget + 2)%Z
  \/ exists s, In s (re_split_sentences text) /\ c = strip s.
Proof.
  cbv zeta. unfold split_text_into_chunks.
  set (n := match chunk_size with None => default_chunk_size | Some m => m end).
  destruct (len text <=? n)%Z eqn:L.
  - intros [<-|[]]. apply Z.leb_le in L. left. lia.
  - intros I.
    pose proof (@chunk_loop_fits n (re_split_sentences text)
                  (re_split_sentences text) (incl_refl _) [] []
                  (Forall_nil _) (or_introl eq_refl)) as F.
    rewrite Forall_forall in F. exact (F c I).
Qed.

Lemma chunk_length_bound_witness :
  (len (lit "abcd. efgh") <= 8 + 2)%Z
  \/ exists s, In s (re_split_sentences (lit "abcd. efgh. ij"))
               /\ lit "abcd. efgh" = strip s.
Proof.
  apply (@chunk_length_bound (lit "abcd. efgh. ij") (Some 8%Z) (lit "abcd. efgh")).
  vm_compute. left. reflexivity.
Defined.

(** X9.  When the text is longer than the budget, no chunk is blank and every
    chunk is stripped of leading and trailing whitespace; and there is no
    chunk at all exactly when no sentence of the text has a non-blank
    character. *)
Theorem long_text_chunks_are_stripped (text : str) (chunk_size : option Z) :
  let budget := match chunk_size with
                | None => default_chunk_size
                | Some n => n
                end in
  (budget < len text)%Z ->
  (forall c, In c (split_text_into_chunks text chunk_size) ->
             is_blank c = false /\ strip c = c)
  /\ (split_text_into_chunks text chunk_size = []
      <-> forall s, In s (re_split_sentences text) -> is_blank s = true).
Proof.
  cbv zeta. unfold split_text_into_chunks.
  set (n := match chunk_size with None => default_chunk_size | Some m => m end).
  intros L.
  assert (E : (len text <=? n)%Z = false) by (apply Z.leb_gt; exact L).
  rewrite E. split.
  - pose proof (@chunk_loop_stripped n (re_split_sentences text) [] []
                  (Forall_nil _) (or_introl eq_refl)) as F.
    rewrite Forall_forall in F. exact F.
  - destruct (@chunk_loop_spells n (re_split_sentences text)
                (re_split_term_free text false) [] [] [])
      as (w & (J & N & F) & M).
    + repeat split; auto.
    + constructor.
    + change (join sentence_sep []) with (@nil char) in N.
      cbn [app] in M. rewrite N. split.
      * intros ->. simpl in M.
        intros s I. destruct (is_blank s) eqn:B; auto.
        assert (X : In s (filter nonblank (re_split_sentences text)))
          by (apply filter_In; split; [exact I | unfold nonblank; rewrite B; auto]).
        destruct (filter nonblank (re_split_sentences text)); [destruct X|].
        discriminate M.
      * intros A.
        assert (X : filter nonblank (re_split_sentences text) = []).
        { destruct (filter nonblank (re_split_sentences text)) as [|s l] eqn:Fl;
            auto.
          assert (I : In s (filter nonblank (re_split_sentences text)))
            by (rewrite Fl; left; reflexivity).
          apply filter_In in I. destruct I as [I B].
          unfold nonblank in B. rewrite (A s I) in B. discriminate B. }
        rewrite X in M. destruct w; [reflexivity | discriminate M].
Qed.

Lemma long_text_chunks_are_stripped_witness :
  is_blank (lit "abcd. efgh") = false /\ strip (lit "abcd. efgh") = lit "abcd. efgh".
Proof.
  apply (@long_text_chunks_are_stripped (lit "abcd. efgh. ij") (Some 8%Z)).
  - vm_compute. reflexivity.
  - vm_compute. left. reflexivity.
Defined.

End ChunkingExtra.

(** ** More on the document pipeline *)

Module PipelineExtraFacts.

Import TranslationService FileService PyStrFacts OrchestratorFacts PipelineFacts.

Lemma translate_log langdetect self text sl tl engine kw log :
  snd (translate langdetect self text sl tl engine kw log) = log
  \/ exists c,
       snd (translate langdetect self text sl tl engine kw log) = log ++ [c]
       /\ call_text c = text.
Proof.
  unfold translate.
  destruct (is_blank text); [left; reflexivity|].
  destruct (len text >? _)%Z; [left; reflexivity|].
  destruct (Dict.get (engines self) engine).
  - right. eexists. split; reflexivity.
  - destruct (engines self) as [|[k eng] rest].
    + left. reflexivity.
    + right. eexists. split; reflexivity.
Qed.

Lemma update_file_other rows f g :
  id f <> g ->
  find (fun x => (id x =? g)%Z) (update_file rows f)
  = find (fun x => (id x =? g)%Z) rows.
Proof.
  intros N. induction rows as [|x rows IH]; simpl; auto.
  destruct (id x =? id f)%Z eqn:E.
  - apply Z.eqb_eq in E. simpl.
    assert (X : (id f =? g)%Z = false) by (apply Z.eqb_neq; exact N).
    assert (Y : (id x =? g)%Z = false) by (apply Z.eqb_neq; congruence).
    rewrite X, Y. reflexivity.
  - simpl. rewrite IH. reflexivity.
Qed.

Lemma update_chunk_other rows fid i f :
  (forall c, file_id (f c) = file_id c) ->
  filter (fun c => negb (file_id c =? fid)%Z) (update_chunk rows fid i f)
  = filter (fun c => negb (file_id c =? fid)%Z) rows.
Proof.
  intros P. induction rows as [|c rows IH]; simpl; auto.
  unfold chunk_matches at 1.
  destruct (file_id c =? fid)%Z eqn:E; simpl.
  - destruct (chunk_index c =? i)%nat; simpl.
    + rewrite P, E. reflexivity.
    + rewrite E. simpl. exact IH.
  - rewrite E. simpl. rewrite IH. reflexivity.
Qed.

Lemma new_chunks_other fid g i chunks :
  filter (fun c => negb (file_id c =? fid)%Z) (new_chunks g i chunks)
  = if (g =? fid)%Z then [] else new_chunks g i chunks.
Proof.
  revert i. induction chunks as [|c chunks IH]; intros i; simpl.
  - destruct (g =? fid)%Z; reflexivity.
  - rewrite IH. destruct (g =? fid)%Z; reflexivity.
Qed.

Section Loop.

Variable langdetect : str -> Exc str.
Variable translation_service : Service.

Local Abbreviation loop := (translate_chunks langdetect translation_service).

Lemma loop_other_chunks fid total chunks :
  forall i st,
    filter (fun c => negb (file_id c =? fid)%Z) (ls_chunks (loop fid total i chunks st))
    = filter (fun c => negb (file_id c =? fid)%Z) (ls_chunks st).
Proof.
  induction chunks as [|c chunks IH]; intros i st; [reflexivity|].
  rewrite loop_step, IH. cbn [ls_chunks].
  apply update_chunk_other.
  intros row. destruct (chunk_outcome _ _ _ _); reflexivity.
Qed.

Lemma loop_log fid total chunks :
  forall i st,
  exists calls,
    ls_log (loop fid total i chunks st) = ls_log st ++ calls
    /\ (List.length calls <= List.length chunks)%nat
    /\ Forall (fun c => In (call_text c) chunks) calls.
Proof.
  induction chunks as [|c chunks IH]; intros i st.
  - exists []. simpl. rewrite app_nil_r. repeat split; auto.
  - rewrite loop_step.
    match goal with
    | |- context [loop fid total (S i) chunks ?s] =>
        destruct (IH (S i) s) as (calls & E & L & F)
    end.
    cbn [ls_log] in E.
    destruct (translate_log langdetect translation_service c
                (file_source_language (ls_file st))
                (file_target_language (ls_file st))
                (translation_engine (ls_file st)) [] (ls_log st))
      as [T|[call [T Tc]]]; rewrite T in E |- *.
    + exists calls. rewrite E. repeat split; [simpl; lia|].
      eapply Forall_impl; [|exact F]. intros x H. right. exact H.
    + exists (call :: calls). rewrite E, <- app_assoc. repeat split.
      * simpl. lia.
      * constructor; [left; congruence|].
        eapply Forall_impl; [|exact F]. intros x H. right. exact H.
Qed.

Lemma loop_file fid total chunks :
  forall i st,
    same_but_progress (ls_file (loop fid total i chunks st)) (ls_file st).
Proof.
  induction chunks as [|c chunks IH]; intros i st; [reflexivity|].
  rewrite loop_step. unfold same_but_progress in *. rewrite IH. reflexivity.
Qed.

End Loop.

End PipelineExtraFacts.

Module PipelineExtra.

Import TranslationService FileService PyStrFacts OrchestratorFacts.
Import PipelineFacts PipelineExtraFacts.

Section Job.

Variable langdetect : str -> Exc str.
Variable translation_service : Service.
Variables ex1 ex2 ex3 ex4 : str -> Exc str.
Variable generate : File -> str -> Exc str.
Variable utcnow : Z.

Local Abbreviation job :=
  (translate_file_async langdetect translation_service
     ex1 ex2 ex3 ex4 generate utcnow).
Local Abbreviation loop := (translate_chunks langdetect translation_service).

Lemma found_id db fid f : query_file db fid = Some f -> id f = fid.
Proof.
  unfold query_file. intros Q. apply find_some in Q. destruct Q as [_ Q].
  apply Z.eqb_eq in Q. exact Q.
Qed.

Lemma loop_id fid total chunks i st : id (ls_file (loop fid total i chunks st)) = id (ls_file st).
Proof.
  pose proof (loop_file langdetect translation_service fid total chunks i st) as P.
  unfold same_but_progress in P. apply (f_equal id) in P. exact P.
Qed.

(** X10.  A job whose file does not exist changes nothing.  A job that finds
    its file always leaves it [completed] or [failed]: completed with
    progress 100, a completion time, the reassembled text and the path of
    the output file; failed with an error message. *)
Theorem job_ends_completed_or_failed (fid : Z) (db : Store) (log : list Call) :
  match query_file db fid with
  | None => job fid db log = (db, log)
  | Some _ =>
      exists f',
        query_file (fst (job fid db log)) fid = Some f'
        /\ ((translation_status f' = completed
             /\ translation_progress f' = 100%Z
             /\ completed_at f' = Some utcnow
             /\ translated_content f' <> None
             /\ translated_file_path f' <> None)
            \/ (translation_status f' = failed /\ error_message f' <> None))
  end.
Proof.
  destruct (query_file db fid) as [f|] eqn:Q.
  2:{ unfold translate_file_async. rewrite Q. reflexivity. }
  pose proof (found_id _ _ Q) as Idf.
  unfold translate_file_async. rewrite Q.
  destruct (ensure_extracted ex1 ex2 ex3 ex4 f) as [e|[p text]] eqn:E.
  - eexists. split.
    + cbn [fst]. unfold commit, query_file. cbn [file_rows].
      eapply query_file_update; [exact Q | exact Idf].
    + right. split; [reflexivity | discriminate].
  - pose proof (PipelineSpec.ensure_extracted_id _ _ _ _ _ E) as Idp.
    set (st := translate_chunks _ _ _ _ _ _ _).
    assert (Ids : id (ls_file st) = fid).
    { unfold st. rewrite loop_id. cbn [ls_file]. congruence. }
    destruct (generate _ _) as [e|path]; eexists; split.
    + cbn [fst]. unfold commit, query_file. cbn [file_rows].
      eapply query_file_update; [exact Q | exact Ids].
    + right. split; [reflexivity | discriminate].
    + cbn [fst]. unfold commit, query_file. cbn [file_rows].
      eapply query_file_update; [exact Q | exact Ids].
    + left. repeat split; discriminate.
Qed.

(** X11.  A job only touches its own file: the record of every other file and
    the chunk records of every other file are what they were. *)
Theorem job_leaves_other_files_alone (fid other : Z) (db : Store)
  (log : list Call) :
  other <> fid ->
  query_file (fst (job fid db log)) other = query_file db other
  /\ filter (fun c => negb (file_id c =? fid)%Z) (chunk_rows (fst (job fid db log)))
     = filter (fun c => negb (file_id c =? fid)%Z) (chunk_rows db).
Proof.
  intros N. unfold translate_file_async.
  destruct (query_file db fid) as [f|] eqn:Q; [|split; reflexivity].
  pose proof (found_id _ _ Q) as Idf.
  destruct (ensure_extracted ex1 ex2 ex3 ex4 f) as [e|[p text]] eqn:E.
  - split; [|reflexivity].
    cbn [fst]. unfold commit, query_file. cbn [file_rows].
    apply update_file_other. cbn. congruence.
  - pose proof (PipelineSpec.ensure_extracted_id _ _ _ _ _ E) as Idp.
    set (st := translate_chunks _ _ _ _ _ _ _).
    assert (Ids : id (ls_file st) = fid).
    { unfold st. rewrite loop_id. cbn [ls_file]. congruence. }
    assert (C : filter (fun c => negb (file_id c =? fid)%Z) (ls_chunks st)
                = filter (fun c => negb (file_id c =? fid)%Z) (chunk_rows db)).
    { unfold st. rewrite loop_other_chunks. cbn [ls_chunks].
      rewrite filter_app, new_chunks_other, Z.eqb_refl, app_nil_r. reflexivity. }
    destruct (generate _ _) as [e|path]; (split; [|exact C]);
      cbn [fst]; unfold commit, query_file; cbn [file_rows];
      apply update_file_other; cbn; congruence.
Qed.

(** X12.  A job calls the engines at most once per chunk, and only on chunks of
    the text. *)
Theorem job_calls_engines_once_per_chunk (fid : Z) (db : Store)
  (log : list Call) (file_record prepared : File) (text : str) :
  query_file db fid = Some file_record ->
  ensure_extracted ex1 ex2 ex3 ex4 file_record = inr (prepared, text) ->
  exists calls,
    snd (job fid db log) = log ++ calls
    /\ (List.length calls <= List.length (split_text_into_chunks text None))%nat
    /\ Forall (fun c => In (call_text c) (split_text_into_chunks text None)) calls.
Proof.
  intros Q E. unfold translate_file_async. rewrite Q, E.
  match goal with
  | |- context [translate_chunks _ _ ?f ?n ?i ?cs ?s] =>
      destruct (loop_log langdetect translation_service f n cs i s)
        as (calls & L & B & F)
  end.
  cbn [ls_log] in L.
  exists calls. destruct (generate _ _); cbn [snd]; auto.
Qed.

(** X13.  When the text has to be extracted and extraction raises, the job is
    marked [failed] with the message of the exception after a fixed
    prefix; no chunk record is created and no engine is called. *)
Theorem extraction_failure_fails_job (fid : Z) (db : Store) (log : list Call)
  (file_record : File) (e : exn) :
  query_file db fid = Some file_record ->
  extracted_text file_record = None \/ extracted_text file_record = Some [] ->
  extract_text_from_file ex1 ex2 ex3 ex4
    (file_path file_record) (file_type file_record) = inl e ->
  exists f',
    query_file (fst (job fid db log)) fid = Some f'
    /\ translation_status f' = failed
    /\ error_message f' = Some (msg_extraction_failed ++ exn_str e)
    /\ chunk_rows (fst (job fid db log)) = chunk_rows db
    /\ snd (job fid db log) = log.
Proof.
  intros Q T X. pose proof (found_id _ _ Q) as Idf.
  assert (E : ensure_extracted ex1 ex2 ex3 ex4 file_record = inl e).
  { unfold ensure_extracted. rewrite X. destruct T as [T|T]; rewrite T; reflexivity. }
  unfold translate_file_async. rewrite Q, E. cbn [fst snd].
  eexists. split.
  - unfold commit, query_file. cbn [file_rows].
    eapply query_file_update; [exact Q | exact Idf].
  - repeat split; reflexivity.
Qed.

(** X14.  When writing the output file raises, the job is marked [failed] with
    the message of the exception, although every chunk was processed and
    the reassembled text is stored. *)
Theorem generation_failure_fails_job (fid : Z) (db : Store) (log : list Call)
  (file_record prepared : File) (text : str) (e : exn) :
  query_file db fid = Some file_record ->
  ensure_extracted ex1 ex2 ex3 ex4 file_record = inr (prepared, text) ->
  (forall f t, generate f t = inl e) ->
  exists f',
    query_file (fst (job fid db log)) fid = Some f'
    /\ translation_status f' = failed
    /\ error_message f' = Some (exn_str e)
    /\ completed_at f' = completed_at prepared
    /\ translated_content f'
       = Some (join [10%N]
                 (List.map
                    (translated_piece langdetect translation_service prepared)
                    (split_text_into_chunks text None))).
Proof.
  intros Q E G. pose proof (found_id _ _ Q) as Idf.
  pose proof (PipelineSpec.ensure_extracted_id _ _ _ _ _ E) as Idp.
  unfold translate_file_async. rewrite Q, E, G. cbn [fst].
  set (chunks := split_text_into_chunks text None).
  set (st := translate_chunks _ _ _ _ _ _ _).
  assert (Ids : id (ls_file st) = fid).
  { unfold st. rewrite loop_id. cbn [ls_file]. congruence. }
  pose proof (loop_file langdetect translation_service fid
                (List.length chunks) chunks 0
                {| ls_file := prepared;
                   ls_chunks := chunk_rows db ++ new_chunks fid 0 chunks;
                   ls_translated := []; ls_log := log |}) as P.
  fold st in P. cbn [ls_file] in P. unfold same_but_progress in P.
  assert (T : ls_translated st
              = List.map (translated_piece langdetect translation_service prepared)
                  chunks).
  { unfold st. clear. 
    assert (X : forall cs i s,
               ls_translated (loop fid (List.length chunks) i cs s)
               = ls_translated s
                 ++ List.map (translated_piece langdetect translation_service
                                (ls_file s)) cs).
    { induction cs as [|c cs IH]; intros i s.
      - simpl. rewrite app_nil_r. reflexivity.
      - rewrite loop_step, IH. cbn [ls_translated ls_file List.map].
        rewrite <- app_assoc. reflexivity. }
    rewrite X. reflexivity. }
  eexists. split; [|split; [|split; [|split]]].
  - unfold commit, query_file. cbn [file_rows].
    eapply query_file_update; [exact Q | exact Ids].
  - reflexivity.
  - reflexivity.
  - cbn. apply (f_equal completed_at) in P. exact P.
  - cbn. rewrite T. reflexivity.
Qed.

Lemma settled_chunks_nth fid f chunks :
  forall i0 j,
    nth_error (settled_chunks langdetect translation_service fid i0 f chunks) j
    = option_map (settled_chunk langdetect translation_service fid (i0 + j) f)
        (nth_error chunks j).
Proof.
  induction chunks as [|c chunks IH]; intros i0 j.
  - destruct j; reflexivity.
  - destruct j as [|j]; cbn [settled_chunks nth_error option_map].
    + rewrite Nat.add_0_r. reflexivity.
    + rewrite IH. replace (S i0 + j)%nat with (i0 + S j)%nat by lia. reflexivity.
Qed.

Lemma settled_chunks_length fid f chunks :
  forall i0,
    List.length (settled_chunks langdetect translation_service fid i0 f chunks)
    = List.length chunks.
Proof.
  induction chunks as [|c chunks IH]; intros i0; simpl; auto.
Qed.

Lemma job_chunk_rows fid db log file_record prepared text :
  query_file db fid = Some file_record ->
  ensure_extracted ex1 ex2 ex3 ex4 file_record = inr (prepared, text) ->
  (forall row, In row (chunk_rows db) -> file_id row <> fid) ->
  chunk_rows (fst (job fid db log))
  = chunk_rows db
    ++ settled_chunks langdetect translation_service fid 0 prepared
         (split_text_into_chunks text None).
Proof.
  intros Q E Fresh. unfold translate_file_async. rewrite Q, E.
  set (chunks := split_text_into_chunks text None).
  destruct (@loop_spec langdetect translation_service fid
              (List.length chunks) chunks 0%nat
              {| ls_file := prepared;
                 ls_chunks := chunk_rows db ++ new_chunks fid 0 chunks;
                 ls_translated := []; ls_log := log |} (chunk_rows db))
    as (C & _ & _).
  { reflexivity. }
  { intros x I X. exfalso. exact (Fresh x I X). }
  cbn [ls_file] in C.
  destruct (generate _ _); cbn [fst commit chunk_rows]; exact C.
Qed.

(** X15.  On a file without earlier chunk records the job adds one record per
    chunk, in order and with the chunk's text; each record ends
    [completed] with the text the engine returned, or [failed] without
    translated text.  No record is left [pending], whether or not the
    output file could be written. *)
Theorem every_chunk_record_is_settled (fid : Z) (db : Store) (log : list Call)
  (file_record prepared : File) (text : str) :
  query_file db fid = Some file_record ->
  ensure_extracted ex1 ex2 ex3 ex4 file_record = inr (prepared, text) ->
  (forall row, In row (chunk_rows db) -> file_id row <> fid) ->
  exists rows,
    chunk_rows (fst (job fid db log)) = chunk_rows db ++ rows
    /\ List.length rows = List.length (split_text_into_chunks text None)
    /\ forall i c,
         nth_error (split_text_into_chunks text None) i = Some c ->
         exists row,
           nth_error rows i = Some row
           /\ file_id row = fid /\ chunk_index row = i /\ chunk_text row = c
           /\ match chunk_outcome langdetect translation_service prepared c with
              | inr result =>
                  status row = completed
                  /\ chunk_translated_text row = Some (translated_text result)
              | inl _ =>
                  status row = failed /\ chunk_translated_text row = None
              end.
Proof.
  intros Q E Fresh.
  eexists. split; [apply (@job_chunk_rows fid db log file_record prepared text Q E Fresh)|].
  split; [apply settled_chunks_length|].
  intros i c N. rewrite settled_chunks_nth, N. cbn [option_map Nat.add].
  eexists. split; [reflexivity|].
  unfold settled_chunk.
  destruct (chunk_outcome langdetect translation_service prepared c);
    repeat split.
Qed.

(** X16.  A blank text within the budget is one chunk, which [translate]
    rejects before any engine is called: the job still ends [completed],
    its output is the text itself and its only chunk record is [failed]. *)
Theorem blank_document_completes_without_calls (fid : Z) (db : Store)
  (log : list Call) (file_record prepared : File) (text : str) :
  query_file db fid = Some file_record ->
  ensure_extracted ex1 ex2 ex3 ex4 file_record = inr (prepared, text) ->
  is_blank text = true ->
  (len text <= default_chunk_size)%Z ->
  (forall f t, exists path, generate f t = inr path) ->
  (forall row, In row (chunk_rows db) -> file_id row <> fid) ->
  snd (job fid db log) = log
  /\ chunk_rows (fst (job fid db log))
     = chunk_rows db
       ++ [ {| file_id := fid; chunk_index := 0; chunk_text := text;
               chunk_translated_text := None; status := failed |} ]
  /\ exists f',
       query_file (fst (job fid db log)) fid = Some f'
       /\ translation_status f' = completed
       /\ translated_content f' = Some text.
Proof.
  intros Q E B L G Fresh.
  pose proof (found_id _ _ Q) as Idf.
  pose proof (PipelineSpec.ensure_extracted_id _ _ _ _ _ E) as Idp.
  assert (Ch : split_text_into_chunks text None = [text]).
  { unfold split_text_into_chunks. apply Z.leb_le in L. rewrite L. reflexivity. }
  assert (O : forall lg,
             translate langdetect translation_service text
               (file_source_language prepared) (file_target_language prepared)
               (translation_engine prepared) [] lg
             = (inl (ValueError msg_empty_text), lg)).
  { intros lg. unfold translate. rewrite B. reflexivity. }
  split; [|split].
  - unfold translate_file_async. rewrite Q, E, Ch.
    rewrite loop_step. cbn [translate_chunks ls_log ls_file].
    rewrite O. destruct (generate _ _); reflexivity.
  - rewrite (@job_chunk_rows fid db log file_record prepared text Q E Fresh), Ch.
    cbn [settled_chunks]. unfold settled_chunk, chunk_outcome.
    rewrite O. reflexivity.
  - unfold translate_file_async. rewrite Q, E, Ch.
    rewrite loop_step. cbn [translate_chunks ls_translated ls_file app].
    unfold translated_piece, chunk_outcome. rewrite O. cbn [fst join].
    match goal with
    | |- context [generate ?f ?t] => destruct (G f t) as [path Ep]; rewrite Ep
    end.
    eexists. split.
    + cbn [fst]. unfold commit, query_file. cbn [file_rows].
      eapply query_file_update; [exact Q|]. cbn. congruence.
    + split; reflexivity.
Qed.

End Job.

Lemma job_leaves_other_files_alone_witness :
  query_file
    (fst (translate_file_async no_langdetect
            (service_of [(lit "openai", echo_engine (lit "openai") 80)])
            no_extract no_extract no_extract no_extract sample_generate 0
            1 (two_file_store (lit "Hello")) [])) 2
  = Some other_file.
Proof.
  apply (@job_leaves_other_files_alone no_langdetect
           (service_of [(lit "openai", echo_engine (lit "openai") 80)])
           no_extract no_extract no_extract no_extract sample_generate 0
           1 2 (two_file_store (lit "Hello")) []).
  discriminate.
Defined.

Lemma job_calls_engines_once_per_chunk_witness :
  exists calls,
    snd (translate_file_async no_langdetect
           (service_of [(lit "openai", echo_engine (lit "openai") 80)])
           no_extract no_extract no_extract no_extract sample_generate 0
           1 (sample_store (lit "Hello") (lit "openai")) [])
    = [] ++ calls
    /\ (List.length calls <= 1)%nat.
Proof.
  destruct (@job_calls_engines_once_per_chunk no_langdetect
              (service_of [(lit "openai", echo_engine (lit "openai") 80)])
              no_extract no_extract no_extract no_extract sample_generate 0
              1 (sample_store (lit "Hello") (lit "openai")) []
              (sample_file (lit "Hello") (lit "openai"))
              (sample_file (lit "Hello") (lit "openai")) (lit "Hello")
              eq_refl eq_refl) as (calls & E & L & _).
  exists calls. split; [exact E | exact L].
Defined.

Lemma extraction_failure_fails_job_witness :
  exists f',
    query_file
      (fst (translate_file_async no_langdetect
              (service_of [(lit "openai", echo_engine (lit "openai") 80)])
              no_extract no_extract no_extract no_extract sample_generate 0
              2 (two_file_store (lit "Hello")) [])) 2 = Some f'
    /\ translation_status f' = failed
    /\ error_message f'
       = Some (msg_extraction_failed ++ msg_unsupported_type ++ lit "exe").
Proof.
  destruct (@extraction_failure_fails_job no_langdetect
              (service_of [(lit "openai", echo_engine (lit "openai") 80)])
              no_extract no_extract no_extract no_extract sample_generate 0
              2 (two_file_store (lit "Hello")) [] other_file
              (ValueError (msg_unsupported_type ++ lit "exe")))
    as (f' & Q & S & M & _).
  - reflexivity.
  - left. reflexivity.
  - reflexivity.
  - exists f'. repeat split; assumption.
Defined.

Lemma generation_failure_fails_job_witness :
  exists f',
    query_file
      (fst (translate_file_async no_langdetect
              (service_of [(lit "openai", echo_engine (lit "openai") 80)])
              no_extract no_extract no_extract no_extract failing_generate 0
              1 (sample_store (lit "Hello") (lit "openai")) [])) 1 = Some f'
    /\ translation_status f' = failed
    /\ error_message f' = Some (lit "disk full").
Proof.
  destruct (@generation_failure_fails_job no_langdetect
              (service_of [(lit "openai", echo_engine (lit "openai") 80)])
              no_extract no_extract no_extract no_extract failing_generate 0
              1 (sample_store (lit "Hello") (lit "openai")) []
              (sample_file (lit "Hello") (lit "openai"))
              (sample_file (lit "Hello") (lit "openai")) (lit "Hello")
              (Exception (lit "disk full")) eq_refl eq_refl)
    as (f' & Q & S & M & _).
  - intros f t. reflexivity.
  - exists f'. repeat split; assumption.
Defined.

Lemma every_chunk_record_is_settled_witness :
  exists rows,
    chunk_rows (run_sample [(lit "openai", echo_engine (lit "openai") 80)]
                  (lit "Hello") (lit "openai")) = [] ++ rows
    /\ List.length rows = 1%nat.
Proof.
  destruct (@every_chunk_record_is_settled no_langdetect
              (service_of [(lit "openai", echo_engine (lit "openai") 80)])
              no_extract no_extract no_extract no_extract sample_generate 0
              1 (sample_store (lit "Hello") (lit "openai")) []
              (sample_file (lit "Hello") (lit "openai"))
              (sample_file (lit "Hello") (lit "openai")) (lit "Hello")
              eq_refl eq_refl) as (rows & E & L & _).
  - intros row [].
  - exists rows. split; [exact E | exact L].
Defined.

Lemma blank_document_completes_without_calls_witness :
  snd (translate_file_async no_langdetect
         (service_of [(lit "openai", echo_engine (lit "openai") 80)])
         no_extract no_extract no_extract no_extract sample_generate 0
         1 (sample_store (lit "  ") (lit "openai")) []) = [].
Proof.
  apply (@blank_document_completes_without_calls no_langdetect
           (service_of [(lit "openai", echo_engine (lit "openai") 80)])
           no_extract no_extract no_extract no_extract sample_generate 0
           1 (sample_store (lit "  ") (lit "openai")) []
           (sample_file (lit "  ") (lit "openai"))
           (sample_file (lit "  ") (lit "openai")) (lit "  ")
           eq_refl eq_refl eq_refl).
  - vm_compute. discriminate.
  - intros f t. eexists. reflexivity.
  - intros row [].
Defined.

End PipelineExtra.

(** ** Language detection *)

Module DetectorSpec.

Import LanguageDetector DetectorTools PyStrFacts DictFacts.

(** The code [detect_language] returns for what [langdetect] answered. *)
Lemma mapping_values (k v : str) :
  Dict.get LANGUAGE_MAPPING k = Some v ->
  is_supported_language v = true /\ v <> lit "zh-cn" /\ v <> lit "zh-tw".
Proof.
  intros G. apply get_some_in in G.
  assert (T : forallb
                (fun kv => is_supported_language (snd kv)
                           && negb (PyStr.eqb (snd kv) (lit "zh-cn"))
                           && negb (PyStr.eqb (snd kv) (lit "zh-tw")))
                LANGUAGE_MAPPING = true) by (vm_compute; reflexivity).
  rewrite forallb_forall in T. specialize (T _ G). cbn [snd] in T.
  apply andb_true_iff in T. destruct T as [T T3].
  apply andb_true_iff in T. destruct T as [T1 T2].
  apply negb_true_iff, eqb_neq in T2. apply negb_true_iff, eqb_neq in T3.
  auto.
Qed.

Lemma mapped_not_regional (d : str) :
  match Dict.get LANGUAGE_MAPPING d with
  | Some mapped => mapped
  | None => d
  end <> lit "zh-cn"
  /\ match Dict.get LANGUAGE_MAPPING d with
     | Some mapped => mapped
     | None => d
     end <> lit "zh-tw".
Proof.
  destruct (Dict.get LANGUAGE_MAPPING d) as [m|] eqn:G.
  - apply mapping_values in G. tauto.
  - split; intros ->; vm_compute in G; discriminate G.
Qed.

Lemma mapped_supported (d : str) :
  In d (Dict.keys LANGUAGE_MAPPING) ->
  is_supported_language
    match Dict.get LANGUAGE_MAPPING d with
    | Some mapped => mapped
    | None => d
    end = true.
Proof.
  intros I. destruct (Dict.get LANGUAGE_MAPPING d) as [m|] eqn:G.
  - apply mapping_values in G. tauto.
  - apply get_none in G. contradiction.
Qed.

Lemma blank_guard (text : str) :
  is_blank text = true -> is_empty text || is_blank text = true.
Proof. intros ->. apply orb_true_r. Qed.

(** X17.  [detect_language] answers [en] for a blank text and when [langdetect]
    raises; it never answers a regional code of Chinese; and when
    [langdetect] answers a code of the mapping table, the answer is a
    supported language. *)
Theorem detect_language_fallback_and_codes
  (langdetect : str -> Exc str) (text : str) :
  (is_blank text = true -> detect_language langdetect text = lit "en")
  /\ (forall e, langdetect (strip text) = inl e ->
                detect_language langdetect text = lit "en")
  /\ detect_language langdetect text <> lit "zh-cn"
  /\ detect_language langdetect text <> lit "zh-tw"
  /\ (forall d, langdetect (strip text) = inr d ->
                In d (Dict.keys LANGUAGE_MAPPING) ->
                is_supported_language (detect_language langdetect text) = true).
Proof.
  unfold detect_language.
  destruct (is_empty text || is_blank text) eqn:B.
  - repeat split; try discriminate; reflexivity.
  - assert (Bl : is_blank text = false)
      by (destruct (is_blank text); [rewrite orb_true_r in B; discriminate B | auto]).
    destruct (langdetect (strip text)) as [e|d] eqn:L.
    + repeat split; try discriminate; try reflexivity; congruence.
    + destruct (mapped_not_regional d) as [N1 N2].
      split; [congruence|]. split; [discriminate|].
      split; [exact N1|]. split; [exact N2|].
      intros d' E I. inversion E; subst. apply mapped_supported. exact I.
Qed.

Lemma detect_language_fallback_and_codes_witness :
  detect_language no_langdetect_at_all (lit "   ") = lit "en"
  /\ is_supported_language
       (detect_language (fun _ => inr (lit "zh-tw")) (lit "text")) = true.
Proof.
  split.
  - apply (@detect_language_fallback_and_codes no_langdetect_at_all (lit "   ")).
    reflexivity.
  - apply (@detect_language_fallback_and_codes
             (fun _ => inr (lit "zh-tw")) (lit "text")) with (d := lit "zh-tw").
    + reflexivity.
    + vm_compute. right. left. reflexivity.
Defined.

(** X18.  [detect_language_with_confidence] answers [(en, 0.0)] for a blank
    text, when [detect_langs] raises and when it finds no candidate;
    otherwise it answers the first candidate, mapped, with its probability;
    it never answers a regional code of Chinese. *)
Theorem detect_with_confidence_fallback_and_codes
  (detect_langs : str -> Exc (list (str * Q))) (text : str) :
  (is_blank text = true
   \/ (exists e, detect_langs (strip text) = inl e)
   \/ detect_langs (strip text) = inr [] ->
   detect_language_with_confidence detect_langs text = (lit "en", 0%Q))
  /\ (forall lang prob others,
         is_blank text = false ->
         detect_langs (strip text) = inr ((lang, prob) :: others) ->
         detect_language_with_confidence detect_langs text
         = (detect_language (fun _ => inr lang) text, prob))
  /\ fst (detect_language_with_confidence detect_langs text) <> lit "zh-cn"
  /\ fst (detect_language_with_confidence detect_langs text) <> lit "zh-tw".
Proof.
  unfold detect_language_with_confidence, detect_language.
  destruct (is_empty text || is_blank text) eqn:B.
  - split; [reflexivity|]. split; [|split; discriminate].
    intros lang prob others Bl. exfalso.
    destruct text as [|c text]; [discriminate Bl|].
    cbn [is_empty orb] in B. congruence.
  - assert (Bl : is_blank text = false)
      by (destruct (is_blank text); [rewrite orb_true_r in B; discriminate B | auto]).
    split; [|split].
    + intros [H|[[e H]|H]]; [congruence | rewrite H; reflexivity
                             | rewrite H; reflexivity].
    + intros lang prob others _ H. rewrite H. reflexivity.
    + destruct (detect_langs (strip text)) as [e|[|[lang prob] others]];
        try (split; discriminate).
      cbn [fst snd]. apply mapped_not_regional.
Qed.

Lemma detect_with_confidence_fallback_and_codes_witness :
  detect_language_with_confidence (fun _ => inr []) (lit "text") = (lit "en", 0%Q)
  /\ detect_language_with_confidence
       (fun _ => inr [(lit "zh-cn", 0.9%Q); (lit "ko", 0.1%Q)]) (lit "text")
     = (lit "zh", 0.9%Q).
Proof.
  split.
  - apply (@detect_with_confidence_fallback_and_codes (fun _ => inr []) (lit "text")).
    right. right. reflexivity.
  - destruct (@detect_with_confidence_fallback_and_codes
                (fun _ => inr [(lit "zh-cn", 0.9%Q); (lit "ko", 0.1%Q)])
                (lit "text")) as (_ & H & _).
    exact (H _ _ _ eq_refl eq_refl).
Defined.

End DetectorSpec.

(** ** Words and the text prepared for detection *)

Module PreprocessSpec.

Import TextAnalyzer DetectorTools PyStrFacts.

Lemma spaceless_cons (c : char) (w : str) :
  spaceless (c :: w) <-> is_space c = false /\ spaceless w.
Proof.
  unfold spaceless. simpl. rewrite andb_true_iff, negb_true_iff. tauto.
Qed.

Lemma spaceless_rev (w : str) : spaceless w -> spaceless (rev w).
Proof.
  unfold spaceless. rewrite !forallb_forall. intros H x I.
  apply H. apply in_rev. exact I.
Qed.

Lemma split_go_words (s : str) :
  forall acc, spaceless acc -> Forall is_word (split_go acc s).
Proof.
  assert (W : forall acc, spaceless acc -> acc <> [] -> is_word (rev acc)).
  { intros acc S N. split; [|apply spaceless_rev; exact S].
    intros H. apply N. rewrite <- (rev_involutive acc), H. reflexivity. }
  induction s as [|c s IH]; intros acc S; simpl.
  - destruct acc; simpl; [constructor|].
    constructor; [|constructor]. apply (W (c :: acc)); [exact S | discriminate].
  - destruct (is_space c) eqn:E.
    + destruct acc as [|a acc]; simpl; [apply IH; reflexivity|].
      constructor; [apply (W (a :: acc)); [exact S | discriminate]|].
      apply IH. reflexivity.
    + apply IH. apply spaceless_cons. auto.
Qed.

Lemma split_go_word (w : str) :
  spaceless w ->
  forall acc rest, split_go acc (w ++ rest) = split_go (rev w ++ acc) rest.
Proof.
  induction w as [|c w IH]; intros S acc rest; [reflexivity|].
  apply spaceless_cons in S. destruct S as [Sc Sw].
  simpl. rewrite Sc, (IH Sw), <- app_assoc. reflexivity.
Qed.

(** Joining words with single spaces and splitting again gives the words. *)
Lemma split_join (ws : list str) :
  Forall is_word ws -> split (join (lit " ") ws) = ws.
Proof.
  unfold split. induction 1 as [|w ws [N S] F IH]; [reflexivity|].
  assert (R : rev w <> []).
  { intros H. apply N. rewrite <- (rev_involutive w), H. reflexivity. }
  destruct ws as [|w2 ws].
  - simpl join.
    replace (split_go [] w) with (split_go [] (w ++ []))
      by (rewrite app_nil_r; reflexivity).
    rewrite (split_go_word S), app_nil_r.
    simpl. destruct (rev w) eqn:Rw; [congruence|].
    simpl is_empty. cbv iota. rewrite <- Rw, rev_involutive. reflexivity.
  - change (join (lit " ") (w :: w2 :: ws))
      with (w ++ 32%N :: join (lit " ") (w2 :: ws)).
    rewrite (split_go_word S), app_nil_r.
    cbn [split_go]. change (is_space 32%N) with true. cbv iota.
    destruct (rev w) eqn:Rw; [congruence|].
    simpl is_empty. cbv iota. rewrite <- Rw, rev_involutive, IH. reflexivity.
Qed.

Lemma length_join_cons (w : str) (ws : list str) :
  (List.length (join (lit " ") (w :: ws))
   <= List.length w + 1 + List.length (join (lit " ") ws))%nat.
Proof.
  destruct ws as [|w2 ws]; [simpl; lia|].
  change (join (lit " ") (w :: w2 :: ws))
    with (w ++ 32%N :: join (lit " ") (w2 :: ws)).
  rewrite length_app. simpl. lia.
Qed.

Lemma length_join_split_go (s : str) :
  forall acc,
    (List.length (join (lit " ") (split_go acc s))
     <= List.length acc + List.length s)%nat.
Proof.
  induction s as [|c s IH]; intros acc; simpl split_go.
  - destruct acc; simpl; [lia|]. rewrite length_app, length_rev. simpl. lia.
  - destruct (is_space c).
    + destruct acc as [|a acc]; cbn [is_empty].
      * specialize (IH []). simpl in *. lia.
      * pose proof (length_join_cons (rev (a :: acc)) (split_go [] s)) as J.
        specialize (IH []). rewrite length_rev in J. simpl in *. lia.
    + specialize (IH (c :: acc)). simpl in *. lia.
Qed.

Example preprocess_collapses_whitespace :
  preprocess_text_for_detection (lit "  Hello   big
 world ") = lit "Hello big world".
Proof. vm_compute. reflexivity. Qed.

(** X19.  The text prepared for detection is never longer than 500 characters
    nor longer than the original; and when the text with its whitespace
    collapsed is at most 500 characters long, preparing keeps the sequence
    of words and preparing twice changes nothing more. *)
Theorem preprocess_text_bounds_and_words (text : str) :
  (len (preprocess_text_for_detection text) <= 500)%Z
  /\ (len (preprocess_text_for_detection text) <= len text)%Z
  /\ ((len (join (lit " ") (split text)) <= 500)%Z ->
      split (preprocess_text_for_detection text) = split text
      /\ preprocess_text_for_detection (preprocess_text_for_detection text)
         = preprocess_text_for_detection text).
Proof.
  assert (Short : forall t,
             (len (join (lit " ") (split t)) <= 500)%Z ->
             preprocess_text_for_detection t
             = if is_empty t then t else join (lit " ") (split t)).
  { intros t L. unfold preprocess_text_for_detection.
    destruct (is_empty t); [reflexivity|].
    destruct (len _ <? 20)%Z; [reflexivity|].
    assert (G : (len (join (lit " ") (split t)) >? 500)%Z = false)
      by (rewrite Z.gtb_ltb; apply Z.ltb_ge; exact L).
    rewrite G. reflexivity. }
  assert (Words : Forall is_word (split text))
    by (apply split_go_words; reflexivity).
  assert (J : (len (join (lit " ") (split text)) <= len text)%Z).
  { pose proof (length_join_split_go text []) as J. fold (split text) in J.
    unfold len. cbn [List.length Nat.add] in J. lia. }
  split; [|split].
  - unfold preprocess_text_for_detection.
    destruct text as [|c text]; [unfold len; simpl; lia|]. cbn [is_empty].
    destruct (len _ <? 20)%Z eqn:A; [apply Z.ltb_lt in A; lia|].
    destruct (len _ >? 500)%Z eqn:B.
    + unfold prefix, len. rewrite length_firstn. lia.
    + rewrite Z.gtb_ltb in B. apply Z.ltb_ge in B. exact B.
  - unfold preprocess_text_for_detection.
    destruct (is_empty text); [lia|].
    destruct (len _ <? 20)%Z; [exact J|].
    destruct (len _ >? 500)%Z; [|exact J].
    unfold prefix, len in *. rewrite length_firstn. lia.
  - intros L. rewrite (Short text L).
    destruct text as [|c text]; [split; reflexivity|]. cbn [is_empty].
    split; [apply split_join; exact Words|].
    rewrite Short; rewrite split_join by exact Words; [|exact L].
    destruct (join (lit " ") (split (c :: text))); reflexivity.
Qed.

Lemma preprocess_text_bounds_and_words_witness :
  split (preprocess_text_for_detection (lit "  Hello   big world "))
  = split (lit "  Hello   big world ").
Proof.
  apply (@preprocess_text_bounds_and_words (lit "  Hello   big world ")).
  vm_compute. discriminate.
Defined.

End PreprocessSpec.

(** ** Keyword extraction *)

Module KeywordsFacts.

Import Keywords PyStrFacts DictFacts.

Section DictMore.
Variable V : Type.
Implicit Types (d : Dict.t V) (k : str) (v : V).

Lemma get_set_same d k v : Dict.get (Dict.set d k v) k = Some v.
Proof.
  induction d as [|[k' v'] d IH]; simpl.
  - rewrite eqb_refl. reflexivity.
  - destruct (PyStr.eqb k' k) eqn:E; simpl; rewrite E; auto.
Qed.

Lemma get_set_other d k k' v :
  k' <> k -> Dict.get (Dict.set d k v) k' = Dict.get d k'.
Proof.
  intros N. induction d as [|[k0 v0] d IH]; simpl.
  - assert (E : PyStr.eqb k k' = false) by (apply eqb_neq; congruence).
    rewrite E. reflexivity.
  - destruct (PyStr.eqb k0 k) eqn:E; simpl.
    + apply eqb_eq in E. subst k0.
      assert (E' : PyStr.eqb k k' = false) by (apply eqb_neq; congruence).
      rewrite E'. reflexivity.
    + destruct (PyStr.eqb k0 k'); auto.
Qed.

Lemma set_keys_nodup d k v :
  NoDup (Dict.keys d) -> NoDup (Dict.keys (Dict.set d k v)).
Proof.
  intros N. destruct (in_dec str_eq_dec k (Dict.keys d)) as [I|I].
  - assert (E : Dict.keys (Dict.set d k v) = Dict.keys d).
    { clear N. induction d as [|[k' v'] d IH]; [destruct I|]. simpl.
      destruct (PyStr.eqb k' k) eqn:E; [reflexivity|].
      simpl. f_equal. apply IH. destruct I as [I|I]; auto.
      apply eqb_neq in E. simpl in I. congruence. }
    rewrite E. exact N.
  - rewrite set_fresh by exact I. rewrite keys_app. simpl.
    apply NoDup_app; auto.
    + repeat constructor. simpl. tauto.
    + intros x Hx [<-|[]]. contradiction.
Qed.

End DictMore.

Lemma freq_get_set_same d k n : freq_get (Dict.set d k n) k = n.
Proof. unfold freq_get. rewrite get_set_same. reflexivity. Qed.

Lemma freq_get_set_other d k k' n :
  k' <> k -> freq_get (Dict.set d k n) k' = freq_get d k'.
Proof. intros N. unfold freq_get. rewrite get_set_other by exact N. reflexivity. Qed.

(** The loop counts the occurrences of the words it counts. *)
Lemma count_words_get (words : list str) :
  forall d w,
    freq_get (count_words words d) w
    = (freq_get d w + if counted w then occurrences words w else 0)%nat.
Proof.
  unfold occurrences.
  induction words as [|x words IH]; intros d w; simpl count_words.
  - simpl. destruct (counted w); lia.
  - destruct (str_eq_dec x w) as [->|N].
    + rewrite count_occ_cons_eq by reflexivity.
      destruct (counted w) eqn:C.
      * rewrite IH, C, freq_get_set_same. lia.
      * rewrite IH, C. lia.
    + rewrite count_occ_cons_neq by exact N.
      destruct (counted x) eqn:C; rewrite IH; [|reflexivity].
      rewrite freq_get_set_other by congruence. reflexivity.
Qed.

Lemma count_words_nodup (words : list str) :
  forall d, NoDup (Dict.keys d) -> NoDup (Dict.keys (count_words words d)).
Proof.
  induction words as [|x words IH]; intros d N; simpl; auto.
  destruct (counted x); auto. apply IH, set_keys_nodup, N.
Qed.

Lemma count_words_keys (words : list str) :
  forall d w,
    In w (Dict.keys (count_words words d)) ->
    In w (Dict.keys d) \/ (In w words /\ counted w = true).
Proof.
  induction words as [|x words IH]; intros d w I; simpl in I; auto.
  destruct (counted x) eqn:C.
  - apply IH in I. destruct I as [I|[I Cw]]; [|right; split; [right|]; auto].
    apply keys_set in I. destruct I as [<-|I]; [right; split; [left|]; auto | auto].
  - apply IH in I. destruct I as [I|[I Cw]]; [left | right; split; [right|]]; auto.
Qed.

(** *** Sorting by count *)

Lemma insert_by_count_perm item l :
  Permutation (insert_by_count item l) (item :: l).
Proof.
  induction l as [|y l IH]; simpl; auto.
  destruct (snd y <=? snd item)%nat; auto.
  rewrite IH. apply perm_swap.
Qed.

Lemma sort_by_count_perm l : Permutation (sort_by_count l) l.
Proof.
  induction l as [|x l IH]; simpl; auto.
  rewrite insert_by_count_perm. auto.
Qed.

Lemma insert_by_count_sorted item l :
  StronglySorted by_count l -> StronglySorted by_count (insert_by_count item l).
Proof.
  induction 1 as [|y l S IH F]; simpl.
  - repeat constructor.
  - destruct (snd y <=? snd item)%nat eqn:L.
    + apply Nat.leb_le in L. constructor; [constructor; auto|].
      constructor; [exact L|].
      eapply Forall_impl; [|exact F]. unfold by_count. intros; lia.
    + apply Nat.leb_gt in L. constructor; auto.
      eapply Permutation_Forall; [symmetry; apply insert_by_count_perm|].
      constructor; [unfold by_count; lia | exact F].
Qed.

Lemma sort_by_count_sorted l : StronglySorted by_count (sort_by_count l).
Proof.
  induction l as [|x l IH]; simpl; [constructor|].
  apply insert_by_count_sorted, IH.
Qed.

(** *** Slices *)

Lemma slice_to_prefix (A : Type) (n : Z) (xs : list A) :
  exists k, slice_to n xs = firstn k xs.
Proof. unfold slice_to. destruct (0 <=? n)%Z; eexists; reflexivity. Qed.

Lemma firstn_incl (A : Type) (k : nat) (xs : list A) : incl (firstn k xs) xs.
Proof.
  intros x I. rewrite <- (firstn_skipn k xs). apply in_or_app. left. exact I.
Qed.

Lemma firstn_nodup (A : Type) (k : nat) (xs : list A) :
  NoDup xs -> NoDup (firstn k xs).
Proof.
  intros N. rewrite <- (firstn_skipn k xs) in N.
  eapply NoDup_app_remove_r. exact N.
Qed.

Lemma firstn_sorted (A : Type) (R : A -> A -> Prop) (k : nat) (xs : list A) :
  StronglySorted R xs -> StronglySorted R (firstn k xs).
Proof.
  intros S. revert k. induction S as [|x xs S IH F]; intros k.
  - rewrite firstn_nil. constructor.
  - destruct k; simpl; constructor; auto.
    rewrite Forall_forall in *. intros y I. apply F. eapply firstn_incl; eauto.
Qed.

End KeywordsFacts.

Module KeywordsSpec.

Import Keywords PyStrFacts DictFacts KeywordsFacts.

Example keywords_of_sentence :
  extract_keywords TextAnalyzer.ascii_lower whitespace_findall
    (lit "The cat saw the Cat and a bird saw the dog") 2
  = [lit "cat"; lit "saw"].
Proof. vm_compute. reflexivity. Qed.

Section Extract.

Variable lower : str -> str.
Variable re_findall : str -> str -> Exc (list str).

(** X20.  The keywords are distinct and, for a limit that is not negative, at
    most as many as the limit; there are none for an empty text or when
    the tokenizer raises.  Every keyword is a token longer than two
    characters that is not a stop word; keywords come by decreasing number
    of occurrences; and when the limit is at least the number of distinct
    such tokens, every one of them is a keyword. *)
Theorem extract_keywords_spec (text : str) (max_keywords : Z) :
  let keywords := extract_keywords lower re_findall text max_keywords in
  NoDup keywords
  /\ ((0 <= max_keywords)%Z -> (Z.of_nat (List.length keywords) <= max_keywords)%Z)
  /\ (text = [] -> keywords = [])
  /\ (forall e, re_findall pat_word (lower text) = inl e -> keywords = [])
  /\ (forall words,
         re_findall pat_word (lower text) = inr words ->
         (forall w, In w keywords ->
                    In w words /\ (2 < List.length w)%nat
                    /\ is_stop_word w = false)
         /\ StronglySorted
              (fun a b => (occurrences words b <= occurrences words a)%nat)
              keywords
         /\ (text <> [] ->
             (Z.of_nat (List.length (count_words words [])) <= max_keywords)%Z ->
             forall w, In w words -> counted w = true -> In w keywords)).
Proof.
  cbv zeta. unfold extract_keywords.
  destruct text as [|c text].
  { cbn [is_empty].
    split; [constructor|]. split; [intros; simpl; lia|].
    split; [reflexivity|]. split; [reflexivity|].
    intros words _. split; [intros w []|]. split; [constructor|].
    intros N; congruence. }
  cbn [is_empty].
  destruct (re_findall pat_word (lower (c :: text))) as [e|words] eqn:F.
  { split; [constructor|]. split; [intros; simpl; lia|].
    split; [reflexivity|]. split; [reflexivity|]. discriminate. }
  set (freq := count_words words []).
  assert (NF : NoDup (Dict.keys freq)) by (apply count_words_nodup; constructor).
  assert (PS : Permutation (sort_by_count freq) freq) by apply sort_by_count_perm.
  assert (NS : NoDup (List.map fst (sort_by_count freq))).
  { eapply Permutation_NoDup; [|exact NF].
    apply Permutation_map. symmetry. exact PS. }
  destruct (slice_to_prefix max_keywords (sort_by_count freq)) as [k Ek].
  assert (Items : forall item,
             In item (slice_to max_keywords (sort_by_count freq)) ->
             In (fst item) words /\ counted (fst item) = true
             /\ snd item = occurrences words (fst item)).
  { intros [w n] I. rewrite Ek in I. apply firstn_incl in I.
    eapply Permutation_in in I; [|exact PS].
    assert (G : Dict.get freq w = Some n) by (apply get_in_nodup; auto).
    assert (K : In w (Dict.keys freq)) by (apply (in_map fst) in I; exact I).
    apply count_words_keys in K. destruct K as [[]|[Iw C]].
    cbn [fst snd]. split; [exact Iw|]. split; [exact C|].
    pose proof (count_words_get words [] w) as Q. fold freq in Q.
    unfold freq_get at 1 in Q. rewrite G, C in Q. simpl in Q. exact Q. }
  split; [|split; [|split; [|split]]].
  - rewrite Ek, <- firstn_map. apply firstn_nodup. exact NS.
  - intros P. rewrite length_map. unfold slice_to.
    apply Z.leb_le in P. rewrite P. rewrite length_firstn. lia.
  - discriminate.
  - discriminate.
  - intros words' E. inversion E; subst words'. split; [|split].
    + intros w I. apply in_map_iff in I. destruct I as [item [<- I]].
      destruct (Items item I) as (Iw & C & _).
      split; [exact Iw|]. unfold counted in C.
      apply andb_true_iff in C. destruct C as [C1 C2].
      apply Nat.ltb_lt in C1. apply negb_true_iff in C2. auto.
    + assert (S : StronglySorted by_count
                    (slice_to max_keywords (sort_by_count freq)))
        by (rewrite Ek; apply firstn_sorted, sort_by_count_sorted).
      revert Items S. generalize (slice_to max_keywords (sort_by_count freq)).
      induction l as [|x l IH]; intros Items S; [constructor|].
      inversion S as [|? ? S' Fx]; subst. simpl. constructor.
      * apply IH; auto. intros item I. apply Items. right. exact I.
      * rewrite Forall_forall in *. intros w I.
        apply in_map_iff in I. destruct I as [item [<- I]].
        specialize (Fx item I). unfold by_count in Fx.
        destruct (Items x (or_introl eq_refl)) as (_ & _ & Ex).
        destruct (Items item (or_intror I)) as (_ & _ & Ei).
        rewrite <- Ex, <- Ei. exact Fx.
    + intros _ L w Iw C.
      assert (Full : slice_to max_keywords (sort_by_count freq)
                     = sort_by_count freq).
      { unfold slice_to.
        assert (P : (0 <=? max_keywords)%Z = true) by (apply Z.leb_le; lia).
        rewrite P. apply firstn_all2.
        rewrite (Permutation_length PS). fold freq in L. lia. }
      rewrite Full.
      pose proof (count_words_get words [] w) as Q. fold freq in Q.
      rewrite C in Q. simpl in Q.
      assert (O : (0 < occurrences words w)%nat).
      { unfold occurrences. apply count_occ_In. exact Iw. }
      unfold freq_get in Q.
      destruct (Dict.get freq w) as [n|] eqn:G; [|lia].
      apply get_some_in in G.
      apply in_map_iff. exists (w, n). split; [reflexivity|].
      eapply Permutation_in; [symmetry; exact PS | exact G].
Qed.

End Extract.

Lemma extract_keywords_spec_witness :
  (Z.of_nat
     (List.length
        (extract_keywords TextAnalyzer.ascii_lower whitespace_findall
           (lit "The cat saw the Cat and a bird saw the dog") 2)) <= 2)%Z.
Proof.
  pose proof (@extract_keywords_spec TextAnalyzer.ascii_lower
                whitespace_findall
                (lit "The cat saw the Cat and a bird saw the dog") 2) as H.
  cbv zeta in H. destruct H as (_ & L & _).
  apply L. discriminate.
Defined.

End KeywordsSpec.

(** ** Subtitle files *)

Module SubtitlesSpec.

Import Subtitles PyStrFacts.

Lemma retitle_length lines subs : forall i,
  List.length (retitle i subs lines) = List.length subs.
Proof. induction subs as [|s subs IH]; intros i; simpl; auto. Qed.

Lemma retitle_timing lines subs : forall i,
  List.map timing (retitle i subs lines) = List.map timing subs.
Proof.
  induction subs as [|s subs IH]; intros i; simpl; auto.
  rewrite IH. destruct (i <? List.length lines)%nat; reflexivity.
Qed.

Lemma retitle_nth lines subs : forall i j sub,
  nth_error subs j = Some sub ->
  exists sub',
    nth_error (retitle i subs lines) j = Some sub'
    /\ sub_text sub'
       = if (i + j <? List.length lines)%nat then nth (i + j) lines []
         else sub_text sub.
Proof.
  induction subs as [|s subs IH]; intros i j sub N.
  - destruct j; discriminate.
  - destruct j as [|j]; simpl in N.
    + inversion N; subst. rewrite Nat.add_0_r. simpl.
      eexists. split; [reflexivity|].
      destruct (i <? List.length lines)%nat; reflexivity.
    + destruct (IH (S i) j sub N) as (sub' & E & T).
      exists sub'. simpl. split; [exact E|].
      replace (i + S j)%nat with (S i + j)%nat by lia. exact T.
Qed.

Example translated_lines_skip_blank_lines :
  translated_lines (lit " one
   
two ") = [lit "one"; lit "two"].
Proof. vm_compute. reflexivity. Qed.

Section Generate.

Variable pysrt_open : str -> Exc (list SubRipItem).
Variable save_subs : list SubRipItem -> str -> Exc unit.
Variable write_text : str -> str -> Exc unit.

Local Abbreviation generate_srt :=
  (_generate_translated_srt pysrt_open save_subs write_text).

(** X21.  A subtitle file that is written has the subtitles of the original,
    as many and with the same numbers and times; the text of the i-th is
    the i-th non-blank line of the translation, stripped, and the original
    text once the lines run out.  Lines beyond the last subtitle are
    dropped. *)
Theorem translated_subtitles_keep_timing
  (original_path output_path translated_text path : str)
  (subs : list SubRipItem) :
  generate_srt original_path output_path translated_text
  = inr (WroteSubtitles path subs) ->
  exists original_subs,
    pysrt_open original_path = inr original_subs
    /\ path = output_path
    /\ List.length subs = List.length original_subs
    /\ List.map timing subs = List.map timing original_subs
    /\ forall i sub,
         nth_error original_subs i = Some sub ->
         exists sub',
           nth_error subs i = Some sub'
           /\ sub_text sub'
              = if (i <? List.length (translated_lines translated_text))%nat
                then nth i (translated_lines translated_text) []
                else sub_text sub.
Proof.
  unfold _generate_translated_srt. intros H.
  destruct (pysrt_open original_path) as [e|original_subs] eqn:O.
  - cbn [ExcMonad.bind] in H.
    destruct (write_text _ translated_text); discriminate H.
  - cbn [ExcMonad.bind] in H.
    destruct (save_subs _ output_path) as [e|[]].
    + cbn [ExcMonad.bind] in H.
      destruct (write_text _ translated_text); discriminate H.
    + cbn [ExcMonad.bind] in H. inversion H; subst.
      exists original_subs. split; [reflexivity|]. split; [reflexivity|].
      split; [apply retitle_length|]. split; [apply retitle_timing|].
      intros i sub N. apply (retitle_nth _ _ 0 _ N).
Qed.

(** When the original cannot be opened or the new subtitles cannot be
    saved, the whole translated text is written to a text file named
    after the output with [.srt] replaced by [.txt]; the function raises
    only when that fails too. *)
Theorem subtitles_fall_back_to_text
  (original_path output_path translated_text : str) :
  (forall path text,
      generate_srt original_path output_path translated_text
      = inr (WroteText path text) ->
      text = translated_text
      /\ path = replace (lit ".srt") (lit ".txt") output_path)
  /\ (forall e,
         generate_srt original_path output_path translated_text = inl e ->
         write_text (replace (lit ".srt") (lit ".txt") output_path)
           translated_text = inl e)
  /\ (forall e, pysrt_open original_path = inl e ->
         generate_srt original_path output_path translated_text
         = match write_text (replace (lit ".srt") (lit ".txt") output_path)
                   translated_text with
           | inr _ =>
               inr (WroteText (replace (lit ".srt") (lit ".txt") output_path)
                      translated_text)
           | inl e' => inl e'
           end).
Proof.
  unfold _generate_translated_srt.
  destruct (pysrt_open original_path) as [e0|original_subs]; cbn [ExcMonad.bind].
  - destruct (write_text _ translated_text) as [e1|[]]; cbn [ExcMonad.bind];
      repeat split; intros; try discriminate; congruence.
  - destruct (save_subs _ output_path) as [e1|[]]; cbn [ExcMonad.bind].
    + destruct (write_text _ translated_text) as [e2|[]]; cbn [ExcMonad.bind];
        repeat split; intros; try discriminate; congruence.
    + repeat split; intros; discriminate.
Qed.

End Generate.

Lemma translated_subtitles_keep_timing_witness :
  exists original_subs : list SubRipItem,
    List.length
      [ {| sub_index := 1; sub_start := 0; sub_end := 5; sub_text := lit "uno" |};
        {| sub_index := 2; sub_start := 6; sub_end := 9; sub_text := lit "two" |} ]
    = List.length original_subs.
Proof.
  destruct (@translated_subtitles_keep_timing
              (fun _ => inr
                 [ {| sub_index := 1; sub_start := 0; sub_end := 5;
                      sub_text := lit "one" |};
                   {| sub_index := 2; sub_start := 6; sub_end := 9;
                      sub_text := lit "two" |} ])
              (fun _ _ => inr tt) (fun _ _ => inr tt)
              (lit "a.srt") (lit "a_translated.srt") (lit "uno") (lit "a_translated.srt")
              [ {| sub_index := 1; sub_start := 0; sub_end := 5; sub_text := lit "uno" |};
                {| sub_index := 2; sub_start := 6; sub_end := 9; sub_text := lit "two" |} ]
              eq_refl) as (original_subs & _ & _ & L & _).
  exists original_subs. exact L.
Defined.

Lemma subtitles_fall_back_to_text_witness :
  _generate_translated_srt
    (fun _ => inl (Exception (lit "bad file"))) (fun _ _ => inr tt)
    (fun _ _ => inr tt) (lit "a.srt") (lit "a_translated.srt") (lit "uno")
  = inr (WroteText (lit "a_translated.txt") (lit "uno")).
Proof.
  destruct (@subtitles_fall_back_to_text
              (fun _ => inl (Exception (lit "bad file"))) (fun _ _ => inr tt)
              (fun _ _ => inr tt) (lit "a.srt") (lit "a_translated.srt") (lit "uno"))
    as (_ & _ & H).
  exact (H _ eq_refl).
Defined.

End SubtitlesSpec.

(** ** The cache and the engines that call a service *)

Module AdaptersSpec.

Import TextAnalyzer TranslationService Adapters PyStrFacts.
Local Open Scope Q_scope.

Section Engines.

Variable R : Type.
Variable redis_get : R -> str -> Exc (option str).
Variable redis_setex : R -> str -> Z -> str -> Exc R.
Variable json_dumps : TranslationResult -> Exc str.
Variable json_loads : str -> Exc (option TranslationResult).
Variable dumps_key : str -> str.
Variable dumps_value : value -> str.
Variable md5_hexdigest : str -> str.
Variable lower : str -> str.
Variable re_split : str -> str -> Exc (list str).
Variable re_findall : str -> str -> Exc (list str).
Variable re_search : str -> str -> Exc bool.
Variable time_time : list Request -> Q.
Variable randint : Z -> Z -> list Request -> Z.
Variable google_answer : list Request -> Exc GoogleReply.
Variable baidu_answer : list Request -> Exc BaiduReply.
Variable format_reply : BaiduReply -> str.
Variable encode_error_message : str -> str.

Local Abbreviation google :=
  (GoogleTranslationEngine_translate redis_get redis_setex json_dumps
     json_loads dumps_key dumps_value md5_hexdigest lower re_split re_findall
     re_search time_time google_answer encode_error_message).
Local Abbreviation baidu :=
  (BaiduTranslationEngine_translate redis_get redis_setex json_dumps
     json_loads dumps_key dumps_value md5_hexdigest lower re_split re_findall
     re_search time_time randint baidu_answer format_reply
     encode_error_message).
Local Abbreviation cached := (_get_cached_translation redis_get json_loads).
Local Abbreviation store := (_cache_translation redis_setex json_dumps).
Local Abbreviation key := (cache_key_of dumps_key dumps_value md5_hexdigest).
Local Abbreviation content := (cache_content dumps_key dumps_value).
Local Abbreviation checked_key :=
  (get_cache_key dumps_key dumps_value md5_hexdigest encode_error_message).
Local Abbreviation entry :=
  (cache_entry redis_get dumps_key dumps_value md5_hexdigest
     encode_error_message).
Local Abbreviation lookup :=
  (cache_lookup redis_get json_loads dumps_key dumps_value md5_hexdigest
     encode_error_message).
Local Abbreviation sign_str := (baidu_sign_str randint).
Local Abbreviation request :=
  (baidu_request md5_hexdigest randint encode_error_message).
Local Abbreviation reply :=
  (baidu_reply md5_hexdigest randint baidu_answer encode_error_message).
Local Abbreviation encode_error := (UnicodeEncodeError encode_error_message).
Local Abbreviation quality :=
  (analyze_text_quality lower re_split re_findall re_search).

Lemma quality_in_range (source_text translated_text source_lang target_lang : str) :
  0 <= quality source_text translated_text source_lang target_lang
  /\ quality source_text translated_text source_lang target_lang <= 100.
Proof.
  unfold analyze_text_quality.
  destruct (quality_body lower re_split re_findall re_search
              source_text translated_text source_lang target_lang)
    as [e|score] eqn:B.
  - split; discriminate.
  - unfold quality_body in B.
    destruct (_analyze_format_preservation re_findall source_text translated_text)
      as [e1|format_score]; [discriminate|].
    destruct (_analyze_special_characters re_findall source_text translated_text)
      as [e2|special_score]; [discriminate|].
    cbn [ExcMonad.bind] in B. inversion B. apply QualitySpec.clamp_bounds.
Qed.

(** The content is what [_get_cache_key] hashes. *)
Lemma key_of_content (self : TranslationEngine)
  (text source_lang target_lang : str) :
  key self text source_lang target_lang
  = lit "translation:"
    ++ md5_hexdigest (content self text source_lang target_lang).
Proof. reflexivity. Qed.

(** The key is computed exactly when the content has no surrogate. *)
Lemma checked_key_cases (self : TranslationEngine)
  (text source_lang target_lang : str) :
  (encodable (content self text source_lang target_lang) = true
   /\ checked_key self text source_lang target_lang
      = inr (key self text source_lang target_lang))
  \/ (encodable (content self text source_lang target_lang) = false
      /\ checked_key self text source_lang target_lang
         = inl (encode_error (content self text source_lang target_lang))).
Proof.
  unfold get_cache_key, encode.
  destruct (encodable (content self text source_lang target_lang));
    [left|right]; split; reflexivity.
Qed.

Lemma checked_key_inr (self : TranslationEngine)
  (text source_lang target_lang k : str) :
  checked_key self text source_lang target_lang = inr k ->
  k = key self text source_lang target_lang.
Proof.
  destruct (checked_key_cases self text source_lang target_lang)
    as [[_ E]|[_ E]]; rewrite E; congruence.
Qed.

Lemma cached_of_entry (cache_key raw : str) (r : TranslationResult) (w : World R) :
  redis_get (redis w) cache_key = inr (Some raw) ->
  raw <> [] ->
  json_loads raw = inr (Some r) ->
  cached cache_key w = Some r.
Proof.
  intros G N L. unfold _get_cached_translation. rewrite G.
  destruct raw as [|c raw]; [congruence|]. cbn [is_empty]. rewrite L.
  reflexivity.
Qed.

Lemma store_requests (cache_key : str) (r : TranslationResult) (w : World R) :
  requests (store cache_key r w) = requests w.
Proof.
  unfold _cache_translation.
  destruct (json_dumps r) as [e|enc]; [reflexivity|].
  destruct (redis_setex (redis w) cache_key TRANSLATION_CACHE_TTL enc);
    reflexivity.
Qed.

(** A lookup that gives an answer was made under the key of the call. *)
Lemma lookup_inr (self : TranslationEngine)
  (text source_lang target_lang : str) (w : World R)
  (found : option TranslationResult) :
  lookup self text source_lang target_lang w = inr found ->
  checked_key self text source_lang target_lang
  = inr (key self text source_lang target_lang)
  /\ cached (key self text source_lang target_lang) w = found.
Proof.
  unfold cache_lookup.
  destruct (checked_key_cases self text source_lang target_lang)
    as [[_ E]|[_ E]]; rewrite E; cbn [ExcMonad.bind]; intros H;
    [|discriminate].
  split; [reflexivity|congruence].
Qed.

(** X22.  A cache entry that decodes to a result is returned as it is by both
    engines: no request is sent and the cache is not written. *)
Theorem cached_translation_is_returned_unchanged
  (self : TranslationEngine) (app_id secret_key : option str)
  (text source_lang target_lang raw : str) (r : TranslationResult)
  (w : World R) :
  entry self text source_lang target_lang w = inr (Some raw) ->
  raw <> [] ->
  json_loads raw = inr (Some r) ->
  google self text source_lang target_lang w = (inr r, w)
  /\ baidu self app_id secret_key text source_lang target_lang w = (inr r, w).
Proof.
  intros G N L. unfold cache_entry in G.
  destruct (checked_key_cases self text source_lang target_lang)
    as [[_ E]|[_ E]]; rewrite E in G; cbn [ExcMonad.bind] in G;
    [|discriminate].
  pose proof (cached_of_entry w G N L) as C.
  unfold GoogleTranslationEngine_translate, BaiduTranslationEngine_translate.
  cbv zeta. rewrite E, C. split; reflexivity.
Qed.

(** X23.  The Google engine raises in three ways only.  When the text,
    a language code or the engine's name holds a surrogate, the key of the
    cache cannot be computed: the [UnicodeEncodeError] leaves the call as
    it is, before the cache is read or a request sent.  Otherwise the
    cache had no usable entry, one request was sent and nothing was
    cached, and the exception is an [Exception] whose message is the
    engine's prefix followed by the message of what went wrong: the error
    of the service, or the missing key of an answer without
    [translatedText]. *)
Theorem google_translate_failures
  (self : TranslationEngine) (text source_lang target_lang : str)
  (w w' : World R) (e : exn) :
  google self text source_lang target_lang w = (inl e, w') ->
  (encodable (content self text source_lang target_lang) = false
   /\ e = encode_error (content self text source_lang target_lang)
   /\ w' = w)
  \/ (lookup self text source_lang target_lang w = inr None
      /\ w' = send (google_request text source_lang target_lang) w
      /\ ((exists e0,
              google_answer (requests w') = inl e0
              /\ e = Exception (msg_google_failed ++ exn_str e0))
          \/ (exists reply,
                 google_answer (requests w') = inr reply
                 /\ translatedText reply = None
                 /\ e = Exception (msg_google_failed ++ lit "'translatedText'")))).
Proof.
  unfold GoogleTranslationEngine_translate, cache_lookup. cbv zeta.
  fold (google_request text source_lang target_lang).
  destruct (checked_key_cases self text source_lang target_lang)
    as [[_ E]|[U E]]; rewrite E; cbn [ExcMonad.bind].
  2: { intros H. inversion H; subst. left. auto. }
  destruct (cached (key self text source_lang target_lang) w) as [r|] eqn:C;
    [discriminate|].
  set (w1 := send (google_request text source_lang target_lang) w).
  destruct (google_answer (requests w1)) as [e0|reply] eqn:A;
    cbn [ExcMonad.bind].
  - intros H. inversion H; subst. right.
    split; [reflexivity|]. split; [reflexivity|].
    left. exists e0. split; [exact A|reflexivity].
  - destruct (translatedText reply) as [t|] eqn:T; cbn [ExcMonad.bind].
    + discriminate.
    + intros H. inversion H; subst. right.
      split; [reflexivity|]. split; [reflexivity|].
      right. exists reply. split; [exact A|]. split; [exact T|reflexivity].
Qed.

(** X24.  The Baidu engine raises in these ways only, for an answer that
    is a JSON object whose [trans_result], if any, is a list of objects.
    When the key of the cache cannot be computed, the
    [UnicodeEncodeError] leaves the call as it is.  When the string to
    sign cannot be encoded (a surrogate in the application id or the
    secret key), the error is raised inside the [try] and comes out
    wrapped, and no request is sent.  Otherwise one signed request was
    sent and nothing was cached, and the exception is an [Exception] with
    the engine's prefix followed by the cause: the error of the request,
    the API error message with the whole answer when it has no
    [trans_result] (so both prefixes), the message of the [IndexError] of
    an empty [trans_result], or the missing key [dst] of its first item.
    An answer whose first item has [dst] does not raise. *)
Theorem baidu_translate_failures
  (self : TranslationEngine) (app_id secret_key : option str)
  (text source_lang target_lang : str) (w w' : World R) (e : exn) :
  baidu self app_id secret_key text source_lang target_lang w = (inl e, w') ->
  (encodable (content self text source_lang target_lang) = false
   /\ e = encode_error (content self text source_lang target_lang)
   /\ w' = w)
  \/ (lookup self text source_lang target_lang w = inr None
      /\ encodable (sign_str app_id secret_key text (requests w)) = false
      /\ e = Exception
               (msg_baidu_failed
                ++ encode_error_message
                     (sign_str app_id secret_key text (requests w)))
      /\ w' = w)
  \/ (exists req,
         lookup self text source_lang target_lang w = inr None
         /\ request app_id secret_key text source_lang target_lang (requests w)
            = inr req
         /\ w' = send req w
         /\ ((exists e0,
                 baidu_answer (requests w') = inl e0
                 /\ e = Exception (msg_baidu_failed ++ exn_str e0))
             \/ (exists answer,
                    baidu_answer (requests w') = inr answer
                    /\ match trans_result answer with
                       | None =>
                           e = Exception (msg_baidu_failed ++ msg_baidu_api_error
                                          ++ format_reply answer)
                       | Some [] =>
                           e = Exception (msg_baidu_failed
                                          ++ lit "list index out of range")
                       | Some (None :: _) =>
                           e = Exception (msg_baidu_failed ++ lit "'dst'")
                       | Some (Some _ :: _) => False
                       end))).
Proof.
  unfold BaiduTranslationEngine_translate, cache_lookup, baidu_request. cbv zeta.
  fold (sign_str app_id secret_key text (requests w)).
  destruct (checked_key_cases self text source_lang target_lang)
    as [[_ E]|[U E]]; rewrite E; cbn [ExcMonad.bind].
  2: { intros H. inversion H; subst. left. auto. }
  destruct (cached (key self text source_lang target_lang) w) as [r|] eqn:C;
    [discriminate|].
  unfold encode.
  destruct (encodable (sign_str app_id secret_key text (requests w))) eqn:S;
    cbn [ExcMonad.bind].
  2: { intros H. inversion H; subst. right. left.
       split; [reflexivity|]. split; [reflexivity|].
       split; reflexivity. }
  match goal with
  | |- context [send ?r w] => set (req := r); set (w1 := send req w)
  end.
  intros H. right. right. exists req.
  split; [reflexivity|]. split; [reflexivity|].
  destruct (baidu_answer (requests w1)) as [e0|answer] eqn:A;
    cbn [ExcMonad.bind] in H.
  - inversion H; subst. split; [reflexivity|].
    left. exists e0. split; [exact A|reflexivity].
  - destruct answer as [[[|[dst|] items]|]] eqn:Rp;
      cbn [trans_result ExcMonad.bind] in H;
      try discriminate H;
      inversion H; subst; (split; [reflexivity|]);
      right; eexists; (split; [exact A|]); cbn [trans_result]; reflexivity.
Qed.

(** X25.  On a cache miss with an answer that has [translatedText], the Google
    engine returns a result built from the answer: the translation, the
    language the service detected (the given one when it names none), a
    quality score in [0, 100] and the time measured around the request.
    Exactly one request is sent; it names no source language when the
    given one is [auto].  The result is written to the cache when it can
    be encoded and Redis accepts it, and the cache is left as it was
    otherwise. *)
Theorem google_fresh_translation
  (self : TranslationEngine) (text source_lang target_lang t : str)
  (reply : GoogleReply) (w : World R) :
  lookup self text source_lang target_lang w = inr None ->
  google_answer (requests w ++ [google_request text source_lang target_lang])
  = inr reply ->
  translatedText reply = Some t ->
  exists res w',
    google self text source_lang target_lang w = (inr res, w')
    /\ engine res = name self
    /\ translated_text res = t
    /\ source_language res
       = match detectedSourceLanguage reply with
         | Some l => l
         | None => source_lang
         end
    /\ target_language res = target_lang
    /\ (exists q, quality_score res = Some q
                  /\ q = quality text t (source_language res) target_lang
                  /\ 0 <= q /\ q <= 100)
    /\ processing_time res = time_time (requests w') - time_time (requests w)
    /\ requests w' = requests w ++ [google_request text source_lang target_lang]
    /\ match json_dumps res with
       | inr enc =>
           match redis_setex (redis w) (key self text source_lang target_lang)
                   TRANSLATION_CACHE_TTL enc with
           | inr r => redis w' = r
           | inl _ => redis w' = redis w
           end
       | inl _ => redis w' = redis w
       end.
Proof.
  intros L A T. apply lookup_inr in L. destruct L as [K C].
  unfold GoogleTranslationEngine_translate. cbv zeta.
  fold (google_request text source_lang target_lang).
  rewrite K, C. unfold send at 1 2 3. cbn [requests]. rewrite A.
  cbn [ExcMonad.bind]. rewrite T. cbn [ExcMonad.bind].
  eexists. eexists. split; [reflexivity|].
  cbn [engine translated_text source_language target_language quality_score
       processing_time].
  split; [reflexivity|]. split; [reflexivity|]. split; [reflexivity|].
  split; [reflexivity|].
  split.
  { eexists. split; [reflexivity|]. split; [reflexivity|].
    apply quality_in_range. }
  rewrite store_requests. unfold send. cbn [requests].
  split; [reflexivity|]. split; [reflexivity|].
  unfold _cache_translation.
  match goal with |- match json_dumps ?r with _ => _ end =>
    destruct (json_dumps r) as [e|enc]; [reflexivity|] end.
  cbn [redis].
  destruct (redis_setex (redis w) (key self text source_lang target_lang)
              TRANSLATION_CACHE_TTL enc); reflexivity.
Qed.

(** X26.  The same for the Baidu engine, on an answer whose [trans_result]
    starts with an item that has [dst]: that item is the translation and
    the others are not read; the source language of the result is the
    given one.  The request carries the salt and the MD5 signature of
    application id, text, salt and secret key. *)
Theorem baidu_fresh_translation
  (self : TranslationEngine) (app_id secret_key : option str)
  (text source_lang target_lang dst : str) (items : list (option str))
  (w : World R) :
  lookup self text source_lang target_lang w = inr None ->
  reply app_id secret_key text source_lang target_lang w
  = inr {| trans_result := Some (Some dst :: items) |} ->
  exists res w',
    baidu self app_id secret_key text source_lang target_lang w = (inr res, w')
    /\ engine res = name self
    /\ translated_text res = dst
    /\ source_language res = source_lang
    /\ target_language res = target_lang
    /\ (exists q, quality_score res = Some q
                  /\ q = quality text dst source_lang target_lang
                  /\ 0 <= q /\ q <= 100)
    /\ processing_time res = time_time (requests w') - time_time (requests w)
    /\ requests w'
       = requests w
         ++ [BaiduRequest text source_lang target_lang app_id
               (str_of_Z (randint 32768 65536 (requests w)))
               (md5_hexdigest
                  (format_opt app_id ++ text
                   ++ str_of_Z (randint 32768 65536 (requests w))
                   ++ format_opt secret_key))]
    /\ match json_dumps res with
       | inr enc =>
           match redis_setex (redis w) (key self text source_lang target_lang)
                   TRANSLATION_CACHE_TTL enc with
           | inr r => redis w' = r
           | inl _ => redis w' = redis w
           end
       | inl _ => redis w' = redis w
       end.
Proof.
  intros L A. apply lookup_inr in L. destruct L as [K C].
  unfold baidu_reply, baidu_request, baidu_sign_str in A.
  unfold BaiduTranslationEngine_translate. cbv zeta.
  rewrite K, C.
  destruct (encode encode_error_message
              (format_opt app_id ++ text
               ++ str_of_Z (randint 32768 65536 (requests w))
               ++ format_opt secret_key)) as [e|enc0] eqn:S;
    cbn [ExcMonad.bind] in A; [discriminate|].
  unfold send at 1 2 3. cbn [requests]. rewrite A.
  cbn [ExcMonad.bind trans_result].
  eexists. eexists. split; [reflexivity|].
  cbn [engine translated_text source_language target_language quality_score
       processing_time].
  split; [reflexivity|]. split; [reflexivity|]. split; [reflexivity|].
  split; [reflexivity|].
  split.
  { eexists. split; [reflexivity|]. split; [reflexivity|].
    apply quality_in_range. }
  rewrite store_requests. unfold send. cbn [requests].
  split; [reflexivity|]. split; [reflexivity|].
  unfold _cache_translation.
  match goal with |- match json_dumps ?r with _ => _ end =>
    destruct (json_dumps r) as [e|enc]; [reflexivity|] end.
  cbn [redis].
  destruct (redis_setex (redis w) (key self text source_lang target_lang)
              TRANSLATION_CACHE_TTL enc); reflexivity.
Qed.

Lemma cached_after_store (cache_key enc : str) (res : TranslationResult)
  (w : World R) :
  json_dumps res = inr enc ->
  enc <> [] ->
  json_loads enc = inr (Some res) ->
  (forall r, exists r',
      redis_setex r cache_key TRANSLATION_CACHE_TTL enc = inr r'
      /\ redis_get r' cache_key = inr (Some enc)) ->
  cached cache_key (store cache_key res w) = Some res.
Proof.
  intros D N L Rd. unfold _cache_translation. rewrite D.
  destruct (Rd (redis w)) as (r' & S & G). rewrite S.
  apply cached_of_entry with (raw := enc); auto.
Qed.

(** X27.  Once a result has been returned, asking again for the same text and
    languages returns the same result without sending a request, as long
    as the result survives the JSON encoding and Redis keeps what it is
    given: the first call either found the result in the cache or put it
    there. *)
Theorem repeated_translation_is_served_from_cache
  (self : TranslationEngine) (app_id secret_key : option str)
  (text source_lang target_lang enc : str) (res : TranslationResult)
  (w w1 : World R) :
  json_dumps res = inr enc ->
  enc <> [] ->
  json_loads enc = inr (Some res) ->
  (forall r, exists r',
      redis_setex r (key self text source_lang target_lang)
        TRANSLATION_CACHE_TTL enc = inr r'
      /\ redis_get r' (key self text source_lang target_lang)
         = inr (Some enc)) ->
  (google self text source_lang target_lang w = (inr res, w1) ->
   google self text source_lang target_lang w1 = (inr res, w1))
  /\ (baidu self app_id secret_key text source_lang target_lang w
      = (inr res, w1) ->
      baidu self app_id secret_key text source_lang target_lang w1
      = (inr res, w1)).
Proof.
  intros D N L Rd.
  assert (Hit : forall w0 : World R,
             cached (key self text source_lang target_lang)
               (store (key self text source_lang target_lang) res w0)
             = Some res)
    by (intros w0; eapply cached_after_store; eauto).
  split.
  - unfold GoogleTranslationEngine_translate. cbv zeta.
    destruct (checked_key_cases self text source_lang target_lang)
      as [[_ E]|[_ E]]; rewrite E; [|discriminate].
    destruct (cached (key self text source_lang target_lang) w) as [r|] eqn:C.
    + intros H. inversion H; subst. rewrite C. reflexivity.
    + match goal with
      | |- (match ?a with inr _ => _ | inl _ => _ end = _) -> _ =>
          destruct a as [e|res'] eqn:A
      end; [discriminate|].
      intros H. inversion H; subst. rewrite Hit. reflexivity.
  - unfold BaiduTranslationEngine_translate. cbv zeta.
    destruct (checked_key_cases self text source_lang target_lang)
      as [[_ E]|[_ E]]; rewrite E; [|discriminate].
    destruct (cached (key self text source_lang target_lang) w) as [r|] eqn:C.
    + intros H. inversion H; subst. rewrite C. reflexivity.
    + destruct (encode encode_error_message _) as [e0|enc0];
        [discriminate|].
      match goal with
      | |- (match ?a with inr _ => _ | inl _ => _ end = _) -> _ =>
          destruct a as [e|res'] eqn:A
      end; [discriminate|].
      intros H. inversion H; subst. rewrite Hit. reflexivity.
Qed.

End Engines.

Example google_translates_with_redis_down :
  sample_google down_get down_setex (google_says (lit "hola")) empty_world
  = (inr hola_google,
     {| redis := [];
        requests := [GoogleRequest (lit "hello") (Some (lit "en")) (lit "es")] |}).
Proof. vm_compute. reflexivity. Qed.

Example baidu_reports_api_error :
  fst (sample_baidu dict_get dict_setex baidu_refuses empty_world)
  = inl (Exception (msg_baidu_failed ++ msg_baidu_api_error
                    ++ lit "{'error_code': '52003'}")).
Proof. vm_compute. reflexivity. Qed.

(** A text with a lone surrogate stops both engines before the cache is
    read; a surrogate in the application id stops the Baidu engine before
    the request. *)
Example surrogate_text_raises_unwrapped :
  sample_google_on [104; 55296]%N dict_get dict_setex
    (google_says (lit "hola")) empty_world
  = (inl (ValueError (sample_encode_error [])), empty_world)
  /\ sample_baidu_on (Some (lit "id")) [104; 55296]%N dict_get dict_setex
       (baidu_says (lit "hola")) empty_world
     = (inl (ValueError (sample_encode_error [])), empty_world)
  /\ sample_baidu_on (Some [56320%N]) (lit "hello") dict_get dict_setex
       (baidu_says (lit "hola")) empty_world
     = (inl (Exception (msg_baidu_failed ++ sample_encode_error [])),
        empty_world).
Proof. vm_compute. repeat split; reflexivity. Qed.

Lemma cached_translation_is_returned_unchanged_witness :
  sample_google dict_get dict_setex google_fails
    (warm_world (lit "google") (lit "google:hola"))
  = (inr hola_google, warm_world (lit "google") (lit "google:hola")).
Proof.
  destruct (@cached_translation_is_returned_unchanged
              (Dict.t str) dict_get dict_setex sample_dumps sample_loads
              quote_key quote_value plain_digest ascii_lower empty_split
              empty_findall failing_search sample_clock sample_randint
              google_fails baidu_refuses sample_format_reply
              sample_encode_error
              (sample_self (lit "google")) None None
              (lit "hello") (lit "en") (lit "es") (lit "google:hola")
              hola_google (warm_world (lit "google") (lit "google:hola")))
    as [G _].
  - vm_compute. reflexivity.
  - discriminate.
  - vm_compute. reflexivity.
  - exact G.
Defined.

Lemma google_translate_failures_witness :
  exists m,
    fst (sample_google dict_get dict_setex google_fails empty_world)
    = inl (Exception (msg_google_failed ++ m)).
Proof.
  destruct (@google_translate_failures
              (Dict.t str) dict_get dict_setex sample_dumps sample_loads
              quote_key quote_value plain_digest ascii_lower empty_split
              empty_findall failing_search sample_clock google_fails
              sample_encode_error
              (sample_self (lit "google")) (lit "hello") (lit "en") (lit "es")
              empty_world
              (send (google_request (lit "hello") (lit "en") (lit "es"))
                 empty_world)
              (Exception (msg_google_failed ++ lit "quota exceeded")))
    as [(U & _)|(_ & _ & _)].
  - vm_compute. reflexivity.
  - vm_compute in U. discriminate U.
  - exists (lit "quota exceeded"). vm_compute. reflexivity.
Defined.

Lemma baidu_translate_failures_witness :
  exists m,
    fst (sample_baidu dict_get dict_setex baidu_refuses empty_world)
    = inl (Exception (msg_baidu_failed ++ m)).
Proof.
  destruct (@baidu_translate_failures
              (Dict.t str) dict_get dict_setex sample_dumps sample_loads
              quote_key quote_value plain_digest ascii_lower empty_split
              empty_findall failing_search sample_clock sample_randint
              baidu_refuses sample_format_reply sample_encode_error
              (sample_self (lit "baidu")) (Some (lit "id")) (Some (lit "secret"))
              (lit "hello") (lit "en") (lit "es") empty_world
              (send (BaiduRequest (lit "hello") (lit "en") (lit "es")
                       (Some (lit "id")) (lit "32768")
                       (lit "idhello32768secret"))
                 empty_world)
              (Exception (msg_baidu_failed ++ msg_baidu_api_error
                          ++ lit "{'error_code': '52003'}")))
    as [(U & _)|[(_ & U & _)|_]].
  - vm_compute. reflexivity.
  - vm_compute in U. discriminate U.
  - vm_compute in U. discriminate U.
  - exists (msg_baidu_api_error ++ lit "{'error_code': '52003'}").
    vm_compute. reflexivity.
Defined.

Lemma google_fresh_translation_witness :
  exists res w',
    sample_google dict_get dict_setex (google_says (lit "hola")) empty_world
    = (inr res, w')
    /\ translated_text res = lit "hola".
Proof.
  destruct (@google_fresh_translation
              (Dict.t str) dict_get dict_setex sample_dumps sample_loads
              quote_key quote_value plain_digest ascii_lower empty_split
              empty_findall failing_search sample_clock
              (google_says (lit "hola")) sample_encode_error
              (sample_self (lit "google")) (lit "hello") (lit "en") (lit "es")
              (lit "hola")
              {| translatedText := Some (lit "hola");
                 detectedSourceLanguage := None |}
              empty_world)
    as (res & w' & E & _ & T & _).
  - vm_compute. reflexivity.
  - reflexivity.
  - reflexivity.
  - exists res, w'. split; [exact E | exact T].
Defined.

Lemma baidu_fresh_translation_witness :
  exists res w',
    sample_baidu dict_get dict_setex (baidu_says (lit "hola")) empty_world
    = (inr res, w')
    /\ translated_text res = lit "hola".
Proof.
  destruct (@baidu_fresh_translation
              (Dict.t str) dict_get dict_setex sample_dumps sample_loads
              quote_key quote_value plain_digest ascii_lower empty_split
              empty_findall failing_search sample_clock sample_randint
              (baidu_says (lit "hola")) sample_format_reply
              sample_encode_error
              (sample_self (lit "baidu")) (Some (lit "id")) (Some (lit "secret"))
              (lit "hello") (lit "en") (lit "es") (lit "hola") []
              empty_world)
    as (res & w' & E & _ & T & _).
  - vm_compute. reflexivity.
  - vm_compute. reflexivity.
  - exists res, w'. split; [exact E | exact T].
Defined.

Lemma repeated_translation_is_served_from_cache_witness :
  sample_google dict_get dict_setex (google_says (lit "hola"))
    (snd (sample_google dict_get dict_setex (google_says (lit "hola"))
            empty_world))
  = sample_google dict_get dict_setex (google_says (lit "hola")) empty_world.
Proof.
  destruct (@repeated_translation_is_served_from_cache
              (Dict.t str) dict_get dict_setex sample_dumps sample_loads
              quote_key quote_value plain_digest ascii_lower empty_split
              empty_findall failing_search sample_clock sample_randint
              (google_says (lit "hola")) (baidu_says (lit "hola"))
              sample_format_reply sample_encode_error
              (sample_self (lit "google")) (Some (lit "id")) (Some (lit "secret"))
              (lit "hello") (lit "en") (lit "es") (lit "google:hola")
              hola_google empty_world
              (snd (sample_google dict_get dict_setex (google_says (lit "hola"))
                      empty_world)))
    as [G _].
  - reflexivity.
  - discriminate.
  - vm_compute. reflexivity.
  - intros r. exists (Dict.set r (sample_key (lit "google")) (lit "google:hola")).
    split; [reflexivity|].
    unfold dict_get. f_equal.
    apply KeywordsFacts.get_set_same.
  - transitivity
      (inr (A := exn) hola_google,
       snd (sample_google dict_get dict_setex (google_says (lit "hola"))
              empty_world)).
    + apply G. vm_compute. reflexivity.
    + vm_compute. reflexivity.
Defined.

End AdaptersSpec.

(** ** Reading the text of a file *)

Module ExtractionSpec.

Import Subtitles Extraction PyStrFacts.

Lemma split_on_no_sep (sep : char) (s : str) :
  ~ In sep s -> split_on sep s = [s].
Proof.
  induction s as [|c s IH]; intros N; [reflexivity|].
  cbn [split_on].
  destruct (N.eqb c sep) eqn:E.
  - apply N.eqb_eq in E. exfalso. apply N. left. exact E.
  - rewrite IH; [reflexivity|]. intros I. apply N. right. exact I.
Qed.

Lemma split_on_app (sep : char) (s rest : str) :
  ~ In sep s -> split_on sep (s ++ sep :: rest) = s :: split_on sep rest.
Proof.
  induction s as [|c s IH]; intros N.
  - cbn [app split_on]. rewrite N.eqb_refl. reflexivity.
  - cbn [app split_on].
    destruct (N.eqb c sep) eqn:E.
    + apply N.eqb_eq in E. exfalso. apply N. left. exact E.
    + rewrite IH; [reflexivity|]. intros I. apply N. right. exact I.
Qed.

Lemma split_on_join (lines : list str) :
  lines <> [] ->
  Forall (fun line => ~ In 10%N line) lines ->
  split_on 10%N (join newline lines) = lines.
Proof.
  induction lines as [|l lines IH]; intros NE F; [congruence|].
  inversion F as [|? ? Hl Hs]; subst.
  destruct lines as [|l' lines].
  - cbn [join]. apply split_on_no_sep. exact Hl.
  - change (join newline (l :: l' :: lines))
      with (l ++ 10%N :: join newline (l' :: lines)).
    rewrite split_on_app by exact Hl.
    rewrite IH; [reflexivity|discriminate|exact Hs].
Qed.

(** The lines of a text made of clean lines are these lines. *)
Lemma translated_lines_join (lines : list str) :
  Forall (fun line => is_blank line = false /\ strip line = line
                      /\ ~ In 10%N line) lines ->
  translated_lines (join newline lines) = lines.
Proof.
  intros F. unfold translated_lines.
  destruct lines as [|l lines]; [reflexivity|].
  rewrite split_on_join; [|discriminate|].
  - induction F as [|x xs (B & S & _) _ IH]; [reflexivity|].
    cbn [filter]. rewrite B. cbn [negb List.map]. rewrite S, IH. reflexivity.
  - eapply Forall_impl; [|exact F]. intros a (_ & _ & N). exact N.
Qed.

Lemma retitle_same (subs : list SubRipItem) : forall before : list str,
  retitle (List.length before) subs (before ++ List.map sub_text subs) = subs.
Proof.
  induction subs as [|sub subs IH]; intros before; [reflexivity|].
  cbn [retitle List.map].
  assert (L : (List.length before
               <? List.length (before ++ sub_text sub :: List.map sub_text subs))%nat
              = true).
  { apply Nat.ltb_lt. rewrite length_app. simpl. lia. }
  rewrite L.
  rewrite app_nth2 by lia. rewrite Nat.sub_diag. cbn [nth].
  specialize (IH (before ++ [sub_text sub])).
  rewrite length_app, <- app_assoc in IH. cbn [List.length app] in IH.
  rewrite Nat.add_1_r in IH. rewrite IH.
  destruct sub; reflexivity.
Qed.

Section Extract.

Variable read_file : str -> str -> ReadOutcome.
Variable pysrt_open : str -> Exc (list SubRipItem).
Variable re_sub : str -> str -> str -> Exc str.
Variable save_subs : list SubRipItem -> str -> Exc unit.
Variable write_text : str -> str -> Exc unit.

(** X28.  A text file is read with the first of UTF-8, GBK, GB2312 and
    Latin-1 that decodes it.  The function raises the error of the first
    read that fails otherwise than by decoding, and a [ValueError] when no
    encoding decodes the file. *)
Theorem txt_extraction_uses_first_decoding (file_path : str) :
  match _extract_from_txt read_file file_path with
  | inr text =>
      exists k, (k < 4)%nat
                /\ undecodable read_file file_path k
                /\ read_file file_path (nth k encodings []) = ReadText text
  | inl e =>
      (exists k, (k < 4)%nat
                 /\ undecodable read_file file_path k
                 /\ read_file file_path (nth k encodings []) = ReadError e)
      \/ (undecodable read_file file_path 4
          /\ e = ValueError msg_unknown_encoding)
  end.
Proof.
  assert (U : forall k,
             (forall j, (j < k)%nat ->
                        read_file file_path (nth j encodings []) = UnicodeDecodeError) ->
             undecodable read_file file_path k) by (intros k H; exact H).
  unfold _extract_from_txt, other_encodings. cbn [try_encodings].
  destruct (read_file file_path first_encoding) as [t| |e] eqn:R0.
  1: { exists 0%nat. split; [lia|]. split; [apply U; intros; lia|exact R0]. }
  2: { left. exists 0%nat. split; [lia|]. split; [apply U; intros; lia|exact R0]. }
  destruct (read_file file_path (lit "gbk")) as [t| |e] eqn:R1.
  1: { exists 1%nat. split; [lia|]. split; [|exact R1].
       apply U. intros [|j] Hj; [exact R0|lia]. }
  2: { left. exists 1%nat. split; [lia|]. split; [|exact R1].
       apply U. intros [|j] Hj; [exact R0|lia]. }
  destruct (read_file file_path (lit "gb2312")) as [t| |e] eqn:R2.
  1: { exists 2%nat. split; [lia|]. split; [|exact R2].
       apply U. intros [|[|j]] Hj; [exact R0|exact R1|lia]. }
  2: { left. exists 2%nat. split; [lia|]. split; [|exact R2].
       apply U. intros [|[|j]] Hj; [exact R0|exact R1|lia]. }
  destruct (read_file file_path (lit "latin-1")) as [t| |e] eqn:R3.
  1: { exists 3%nat. split; [lia|]. split; [|exact R3].
       apply U. intros [|[|[|j]]] Hj; [exact R0|exact R1|exact R2|lia]. }
  2: { left. exists 3%nat. split; [lia|]. split; [|exact R3].
       apply U. intros [|[|[|j]]] Hj; [exact R0|exact R1|exact R2|lia]. }
  right. split; [|reflexivity].
  apply U. intros [|[|[|[|j]]]] Hj; [exact R0|exact R1|exact R2|exact R3|lia].
Qed.

Lemma extract_one_line_subs (subs : list SubRipItem) : forall parts : list str,
  Forall (fun sub => one_line re_sub (sub_text sub)) subs ->
  ExcMonad.foldM
    (fun text_parts sub =>
       if is_blank (sub_text sub) then inr text_parts
       else clean_text <- re_sub pat_tag [] (sub_text sub) ;;
            inr (text_parts ++ [clean_text]))
    subs parts
  = inr (parts ++ List.map sub_text subs).
Proof.
  induction subs as [|sub subs IH]; intros parts F.
  - cbn [ExcMonad.foldM List.map]. rewrite app_nil_r. reflexivity.
  - inversion F as [|? ? (B & _ & _ & S) Fs]; subst.
    cbn [ExcMonad.foldM List.map]. rewrite B, S. cbn [ExcMonad.bind].
    rewrite IH by exact Fs. rewrite <- app_assoc. reflexivity.
Qed.

(** X29.  Extraction and regeneration fit together: for a subtitle file
    whose texts are single clean lines, the extracted text is these lines
    joined by line breaks, and regenerating the file from that text
    writes the original subtitles back. *)
Theorem untranslated_subtitles_round_trip
  (original_path output_path : str) (subs : list SubRipItem) :
  pysrt_open original_path = inr subs ->
  Forall (fun sub => one_line re_sub (sub_text sub)) subs ->
  save_subs subs output_path = inr tt ->
  _extract_from_srt pysrt_open re_sub original_path
  = inr (join newline (List.map sub_text subs))
  /\ _generate_translated_srt pysrt_open save_subs write_text
       original_path output_path (join newline (List.map sub_text subs))
     = inr (WroteSubtitles output_path subs).
Proof.
  intros O F S. split.
  - unfold _extract_from_srt. rewrite O. cbn [ExcMonad.bind].
    rewrite extract_one_line_subs by exact F. reflexivity.
  - unfold _generate_translated_srt. rewrite O. cbn [ExcMonad.bind].
    rewrite translated_lines_join.
    + pose proof (retitle_same subs []) as RS.
      cbn [List.length app] in RS. rewrite RS, S. reflexivity.
    + apply Forall_map. eapply Forall_impl; [|exact F].
      intros sub (B & St & N & _). auto.
Qed.

End Extract.

Example gbk_file_is_read_as_gbk :
  _extract_from_txt gbk_file (lit "notes.txt") = inr (lit "text").
Proof. reflexivity. Qed.

Lemma untranslated_subtitles_round_trip_witness :
  _generate_translated_srt (fun _ => inr sample_subs) (fun _ _ => inr tt)
    (fun _ _ => inr tt) (lit "a.srt") (lit "a_translated.srt")
    (join newline (List.map sub_text sample_subs))
  = inr (WroteSubtitles (lit "a_translated.srt") sample_subs).
Proof.
  destruct (@untranslated_subtitles_round_trip
              (fun _ => inr sample_subs) no_tags (fun _ _ => inr tt)
              (fun _ _ => inr tt) (lit "a.srt") (lit "a_translated.srt")
              sample_subs) as [_ G].
  - reflexivity.
  - unfold sample_subs, one_line.
    constructor; [|constructor; [|constructor]]; cbn [sub_text];
      (split; [reflexivity|]); (split; [vm_compute; reflexivity|]);
      (split; [|reflexivity]);
      intros I; vm_compute in I; intuition discriminate.
  - reflexivity.
  - exact G.
Defined.

End ExtractionSpec.

(** ** Readability *)

Module ReadabilitySpec.

Import TextAnalyzer Readability PyStrFacts.

(** A text has at least as many characters as twice its words, less one:
    words are not empty and whitespace separates them. *)
Lemma split_go_length (s : str) : forall acc : str,
  (2 * List.length (split_go acc s)
   <= List.length s + (if is_empty acc then 1 else 2))%nat.
Proof.
  induction s as [|c s IH]; intros acc.
  - cbn [split_go]. destruct (is_empty acc); simpl; lia.
  - cbn [split_go]. destruct (is_space c).
    + destruct (is_empty acc).
      * specialize (IH []). cbn [is_empty] in IH. simpl. lia.
      * specialize (IH []). cbn [is_empty] in IH. simpl in *. lia.
    + specialize (IH (c :: acc)). cbn [is_empty] in IH.
      destruct (is_empty acc); simpl; lia.
Qed.

Lemma words_and_characters (text : str) :
  (2 * Z.of_nat (List.length (split text)) <= len text + 1)%Z.
Proof.
  pose proof (split_go_length text []) as H. cbn [is_empty] in H.
  unfold split, len. lia.
Qed.

Section Scores.

Variable F : Type.
Variable truediv : Z -> Z -> F.
Variable re_split : str -> str -> Exc (list str).
Variable textstat : str -> str -> Exc (number F).

Local Abbreviation readability :=
  (calculate_readability_score truediv re_split textstat).

(** X30.  The readability scores are empty for an empty text and whenever
    a library call raises; the function itself never raises.  For English
    they are the seven metrics of [textstat], each as the library gives
    it, and empty as soon as one metric raises.  For any other language
    they are empty exactly when the text is empty or has no word or the
    splitting of sentences fails; otherwise they are the five basic
    entries, where the counts are integers with
    [sentence_count >= 1], [word_count >= 1] the number of
    whitespace-separated words, [character_count = len(text)] and
    [2 * word_count <= character_count + 1], and the two averages are the
    float quotients of these counts. *)
Theorem readability_scores (text language : str) :
  let scores := readability text language in
  (text = [] -> scores = [])
  /\ (language = lit "en" ->
      (scores = []
       \/ (Dict.keys scores = english_metrics
           /\ forall metric, In metric english_metrics ->
                exists value, textstat metric text = inr value
                              /\ Dict.get scores metric = Some value))
      /\ (forall metric e,
             In metric english_metrics ->
             textstat metric text = inl e -> scores = []))
  /\ (language <> lit "en" ->
      (scores = []
       <-> text = [] \/ split text = []
           \/ (exists e, re_split pat_sentence_end text = inl e)
           \/ re_split pat_sentence_end text = inr [])
      /\ (scores <> [] ->
          exists sentences words characters,
            Dict.keys scores = basic_metrics
            /\ Dict.get scores (lit "sentence_count") = Some (Int sentences)
            /\ Dict.get scores (lit "word_count") = Some (Int words)
            /\ Dict.get scores (lit "character_count") = Some (Int characters)
            /\ Dict.get scores (lit "avg_sentence_length")
               = Some (Float (truediv words sentences))
            /\ Dict.get scores (lit "avg_word_length")
               = Some (Float (truediv characters words))
            /\ (1 <= sentences)%Z
            /\ (1 <= words)%Z
            /\ words = Z.of_nat (List.length (split text))
            /\ characters = len text
            /\ (2 * words <= characters + 1)%Z)).
Proof.
  cbv zeta. unfold calculate_readability_score.
  destruct text as [|c text].
  { cbn [is_empty]. split; [reflexivity|].
    split.
    - intros _. split; [left; reflexivity|reflexivity].
    - intros _. split; [|congruence].
      split; [intros _; left; reflexivity|reflexivity]. }
  cbn [is_empty]. split; [discriminate|].
  set (t := c :: text).
  split.
  - intros ->. unfold readability_body.
    change (PyStr.eqb (lit "en") (lit "en")) with true. cbv iota.
    unfold english_metrics. cbn [ExcMonad.foldM].
    destruct (textstat (lit "flesch_reading_ease") t) as [e1|v1] eqn:T1;
      cbn [ExcMonad.bind]; [split; [left|]; reflexivity|].
    destruct (textstat (lit "flesch_kincaid_grade") t) as [e2|v2] eqn:T2;
      cbn [ExcMonad.bind]; [split; [left|]; reflexivity|].
    destruct (textstat (lit "gunning_fog") t) as [e3|v3] eqn:T3;
      cbn [ExcMonad.bind]; [split; [left|]; reflexivity|].
    destruct (textstat (lit "automated_readability_index") t) as [e4|v4] eqn:T4;
      cbn [ExcMonad.bind]; [split; [left|]; reflexivity|].
    destruct (textstat (lit "coleman_liau_index") t) as [e5|v5] eqn:T5;
      cbn [ExcMonad.bind]; [split; [left|]; reflexivity|].
    destruct (textstat (lit "linsear_write_formula") t) as [e6|v6] eqn:T6;
      cbn [ExcMonad.bind]; [split; [left|]; reflexivity|].
    destruct (textstat (lit "dale_chall_readability_score") t) as [e7|v7] eqn:T7;
      cbn [ExcMonad.bind]; [split; [left|]; reflexivity|].
    split.
    + right. split; [vm_compute; reflexivity|].
      intros metric I.
      repeat (destruct I as [<-|I];
              [eexists; split; [eassumption|vm_compute; reflexivity]|]).
      destruct I.
    + intros metric e I X.
      repeat (destruct I as [<-|I]; [congruence|]).
      destruct I.
  - intros NE. apply eqb_neq in NE. unfold readability_body. rewrite NE.
    pose proof (words_and_characters t) as WC.
    destruct (re_split pat_sentence_end t) as [e|pieces] eqn:RS;
      cbn [ExcMonad.bind].
    { split; [|congruence].
      split; [intros _; right; right; left; eexists; reflexivity|reflexivity]. }
    destruct (Z.of_nat (List.length pieces) >? 0)%Z eqn:S; cbn [andb].
    2: { split; [|congruence].
         split; [|reflexivity]. intros _. right. right. right.
         destruct pieces; [reflexivity|]. simpl in S. discriminate S. }
    destruct (Z.of_nat (List.length (split t)) >? 0)%Z eqn:W.
    2: { split; [|congruence].
         split; [|reflexivity]. intros _. right. left.
         destruct (split t); [reflexivity|]. simpl in W. discriminate W. }
    apply Z.gtb_lt in S, W.
    split.
    + split; [discriminate|].
      intros [X|[X|[[e X]|X]]]; try discriminate X.
      * rewrite X in W. simpl in W. lia.
      * inversion X as [P]. rewrite P in S. simpl in S. lia.
    + intros _.
      exists (Z.of_nat (List.length pieces)),
             (Z.of_nat (List.length (split t))), (len t).
      split; [reflexivity|]. split; [reflexivity|]. split; [reflexivity|].
      split; [reflexivity|]. split; [reflexivity|]. split; [reflexivity|].
      split; [lia|]. split; [lia|]. split; [reflexivity|].
      split; [reflexivity|exact WC].
Qed.

End Scores.

Example readability_of_two_sentences :
  calculate_readability_score
    (fun a b => (a, b))
    (fun _ _ => inr [lit "uno dos"; lit " tres cuatro cinco seis"; []])
    (fun _ _ => inl (Exception (lit "unused")))
    (lit "uno dos. tres cuatro cinco seis.") (lit "es")
  = [ (lit "avg_sentence_length", Float (6, 3)%Z);
      (lit "avg_word_length", Float (32, 6)%Z);
      (lit "sentence_count", Int 3); (lit "word_count", Int 6);
      (lit "character_count", Int 32) ].
Proof. vm_compute. reflexivity. Qed.

End ReadabilitySpec.
